(** * NIXL Python examples: peer handshake and ring pipeline

    A shallow embedding of the protocol logic of
    - [examples/python/utils/memory_utils.py]
    - [examples/python/utils/tcp_server.py]
    - [examples/python/utils/metadata_utils.py]
    - [examples/python/send_recv/nixl_sender_receiver.py]
    - [examples/python/2proc/nixl_api_2proc.py]

    Python [bytes] values are Rocq strings, Python [int]s are [Z], Python
    dictionaries are stdpp [gmap]s.  The transfer engine, the notification
    substrate and the clock are external: every call into them is answered
    by a finite schedule that is part of the input of a run, so a run is a
    function of its schedule.  A poll loop that outlives its schedule ends
    in [Starved]: the schedule was too short to decide how the run goes on. *)

From Stdlib Require Import ZArith List String Ascii Lia Bool Sorted.
From Stdlib Require Import Strings.Byte Numbers.DecimalString Numbers.DecimalZ
  Numbers.DecimalPos.
From stdpp Require Import base option list gmap strings sorting.

Local Open Scope Z_scope.

(** ** Outcomes of a run *)

Inductive outcome (A : Type) : Type :=
| Done (a : A)       (* the code ran to its end *)
| Starved (a : A)    (* the schedule ended inside a poll loop *)
| Raised (a : A).    (* an uncaught Python exception left the code *)

Arguments Done {A} a.
Arguments Starved {A} a.
Arguments Raised {A} a.

Definition outcome_state {A} (o : outcome A) : A :=
  match o with Done a | Starved a | Raised a => a end.

Definition is_done {A} (o : outcome A) : bool :=
  match o with Done _ => true | _ => false end.

(** ** utils/memory_utils.py *)

Module MemoryUtils.

(** Process memory: every address holds one byte. *)
Definition memory : Type := Z -> byte.

Definition byte_of_Z (z : Z) : byte :=
  match Byte.of_N (Z.to_N (z mod 256)) with
  | Some b => b
  | None => x00
  end.

Definition Z_of_byte (b : byte) : Z := Z.of_N (Byte.to_N b).

(** The [n] low-order bytes of [v], least significant first: the layout
    of a native [np.uint64] on the little-endian hosts the examples run
    on. *)
Fixpoint encode_le (n : nat) (v : Z) : list byte :=
  match n with
  | O => []
  | S n' => byte_of_Z (v mod 256) :: encode_le n' (v / 256)
  end.

Fixpoint decode_le (bs : list byte) : Z :=
  match bs with
  | [] => 0
  | b :: bs' => Z_of_byte b + 256 * decode_le bs'
  end.

Fixpoint store_bytes (m : memory) (addr : Z) (bs : list byte) : memory :=
  match bs with
  | [] => m
  | b :: bs' =>
      store_bytes (fun a => if a =? addr then b else m a) (addr + 1) bs'
  end.

Fixpoint load_bytes (m : memory) (addr : Z) (n : nat) : list byte :=
  match n with
  | O => []
  | S n' => m addr :: load_bytes m (addr + 1) n'
  end.

Definition UINT64_MAX : Z := 0xFFFFFFFFFFFFFFFF.

(** [arr[0] = value] on a [uint64] view of the 8 bytes at [addr]; NumPy
    raises [OverflowError] for a Python int outside the type's range, which
    is [None] here. *)
Definition write_uint64 (m : memory) (addr value : Z) : option memory :=
  if (0 <=? value) && (value <=? UINT64_MAX)
  then Some (store_bytes m addr (encode_le 8 value))
  else None.

(** [int(np.frombuffer(buf, dtype=np.uint64, count=1)[0])]. *)
Definition read_uint64 (m : memory) (addr : Z) : Z :=
  decode_le (load_bytes m addr 8).

(** A remote (RDMA) write of a header: the bytes land whatever the value. *)
Definition poke_uint64 (m : memory) (addr value : Z) : memory :=
  store_bytes m addr (encode_le 8 value).

End MemoryUtils.

(** ** Python values shared by the modules *)

Module Py.

(** [s[n:]] on bytes. *)
Fixpoint bytes_from (n : nat) (s : string) : string :=
  match n, s with
  | O, _ => s
  | S n', String _ s' => bytes_from n' s'
  | S _, EmptyString => EmptyString
  end.

(** [s.startswith(p)]. *)
Definition startswith (s p : string) : bool := String.prefix p s.

(** [str(n)] of an int, as [f"{n}"] renders it. *)
Definition str (n : Z) : string := NilZero.string_of_int (Z.to_int n).

Definition is_space (c : ascii) : bool :=
  let n := nat_of_ascii c in
  (Nat.eqb n 32 || (Nat.leb 9 n && Nat.leb n 13))%bool.

Definition digit_of (c : ascii) : option Z :=
  let n := nat_of_ascii c in
  if (Nat.leb 48 n && Nat.leb n 57)%bool then Some (Z.of_nat n - 48) else None.

Fixpoint lstrip (cs : list ascii) : list ascii :=
  match cs with
  | c :: cs' => if is_space c then lstrip cs' else cs
  | [] => []
  end.

Definition strip (cs : list ascii) : list ascii :=
  rev (lstrip (rev (lstrip cs))).

(** Decimal digits, a single underscore allowed between two digits. *)
Fixpoint digits (after_digit : bool) (acc : Z) (cs : list ascii) : option Z :=
  match cs with
  | [] => if after_digit then Some acc else None
  | c :: cs' =>
      if Ascii.eqb c "_"%char
      then (if after_digit then digits false acc cs' else None)
      else match digit_of c with
           | Some d => digits true (10 * acc + d) cs'
           | None => None
           end
  end.

(** [int(b)] of a bytes value in base 10: surrounding white space, one
    optional sign, then digits.  [None] is the [ValueError] of a malformed
    literal.  The interpreter's cap on the number of digits of a literal
    (4300 by default) is left out: notifications are far shorter;
    [SenderTrace.int_capped] has it. *)
Definition int (b : string) : option Z :=
  match strip (list_ascii_of_string b) with
  | c :: cs =>
      if Ascii.eqb c "-"%char then Z.opp <$> digits false 0 cs
      else if Ascii.eqb c "+"%char then digits false 0 cs
      else digits false 0 (c :: cs)
  | [] => None
  end.

End Py.

(** ** utils/tcp_server.py *)

Module TcpServer.

(** The JSON values a request carries under ["value"]. *)
Inductive json : Type :=
| JNull
| JNum (n : Z)
| JStr (s : string).

(** One decoded request line.  The client API of this module only builds
    requests whose key is a string. *)
Inductive request : Type :=
| SET (key : string) (value : json)
| GET (key : string)
| CLEAR
| OTHER (cmd : string).

Inductive response : Type :=
| OK
| OK_value (value : json)
| ERROR (message : string).

(** [MetadataHandler.handle] on the server state [_metadata]; the lock makes
    each request one atomic step. *)
Definition handle (req : request) (_metadata : gmap string json)
  : gmap string json * response :=
  match req with
  | SET key value => (<[key := value]> _metadata, OK)
  | GET key =>
      match _metadata !! key with
      | Some JNull | None =>
          (_metadata, ERROR ("Key '" +:+ key +:+ "' not found"))
      | Some value => (_metadata, OK_value value)
      end
  | CLEAR => (∅, OK)
  | OTHER cmd => (_metadata, ERROR ("Unknown command: " +:+ cmd))
  end.

(** The server handling a sequence of requests in arrival order. *)
Definition serve (reqs : list request) (_metadata : gmap string json)
  : gmap string json :=
  fold_left (fun md req => fst (handle req md)) reqs _metadata.

(** Client side: [set_metadata], [get_metadata], [clear_metadata], with the
    server's answer read whole.  What the one [recv(4096)] of the client
    makes of a longer answer is in [Wire]. *)
Definition set_metadata (key : string) (value : json)
    (_metadata : gmap string json) : gmap string json * bool :=
  match handle (SET key value) _metadata with
  | (md, OK) => (md, true)
  | (md, _) => (md, false)
  end.

Definition get_metadata (key : string) (_metadata : gmap string json)
  : option json :=
  match snd (handle (GET key) _metadata) with
  | OK_value value => Some value
  | _ => None
  end.

Definition clear_metadata (_metadata : gmap string json)
  : gmap string json * bool :=
  match handle CLEAR _metadata with
  | (md, OK) => (md, true)
  | (md, _) => (md, false)
  end.

(** A request that writes [k] or clears the store. *)
Definition touches (k : string) (req : request) : bool :=
  match req with
  | SET key _ => String.eqb key k
  | CLEAR => true
  | _ => false
  end.

End TcpServer.

(** ** utils/metadata_utils.py *)

Module MetadataUtils.

Import TcpServer.

(** Durations and clock readings are in milliseconds: [DEFAULT_TIMEOUT] is
    the source's [10.0] seconds and [POLL_INTERVAL] the literal [0.1] of
    [time.sleep(0.1)]. *)
Definition DEFAULT_TIMEOUT : Z := 10000.
Definition POLL_INTERVAL : Z := 100.

(** What the outside world does around one poll: the requests of other
    clients that reach the server before ours, the time our call takes, by
    how much the following sleep overshoots, and whether the engine has
    loaded the remote agent's metadata by then. *)
Record tick : Type := {
  arrivals : list request;
  latency : N;
  oversleep : N;
  loaded : bool
}.

Inductive call : Type :=
| Call_get_metadata (key : string)
| Call_fetch_remote_metadata (name label : string)
| Call_check_remote_metadata (name : string)
| Call_sleep (ms : Z).

Record env : Type := {
  now : Z;
  server : gmap string json;
  calls : list call
}.

(** Python truth value of what [get_metadata] returned. *)
Definition truthy (v : option json) : bool :=
  match v with
  | None | Some JNull => false
  | Some (JNum n) => negb (n =? 0)
  | Some (JStr s) => negb (String.eqb s "")
  end.

Definition tcp_get (key : string) (t : tick) (e : env) : option json * env :=
  let md := serve (arrivals t) (server e) in
  (get_metadata key md,
   {| now := now e + Z.of_N (latency t);
      server := md;
      calls := calls e ++ [Call_get_metadata key] |}).

Definition sleep (ms : Z) (t : tick) (e : env) : env :=
  {| now := now e + ms + Z.of_N (oversleep t);
     server := server e;
     calls := calls e ++ [Call_sleep ms] |}.

Definition check_remote_metadata (name : string) (t : tick) (e : env)
  : bool * env :=
  (loaded t,
   {| now := now e + Z.of_N (latency t);
      server := serve (arrivals t) (server e);
      calls := calls e ++ [Call_check_remote_metadata name] |}).

(** [while not metadata_b64 and (time.time() - start_wait) < timeout]. *)
Fixpoint wait_tcp (key : string) (timeout start_wait : Z) (ticks : list tick)
    (metadata_b64 : option json) (e : env)
  : outcome (option json * list tick * env) :=
  if negb (truthy metadata_b64) && (now e - start_wait <? timeout) then
    match ticks with
    | [] => Starved (metadata_b64, [], e)
    | t :: ticks' =>
        let '(v, e1) := tcp_get key t e in
        let e2 := if truthy v then e1 else sleep POLL_INTERVAL t e1 in
        wait_tcp key timeout start_wait ticks' v e2
    end
  else Done (metadata_b64, ticks, e).

(** [while (time.time() - start_wait) < timeout] of the built-in branch;
    [true] is the [return remote_agent_name] inside the loop. *)
Fixpoint wait_builtin (name : string) (timeout start_wait : Z)
    (ticks : list tick) (e : env) : outcome (bool * list tick * env) :=
  if now e - start_wait <? timeout then
    match ticks with
    | [] => Starved (false, [], e)
    | t :: ticks' =>
        let '(ok, e1) := check_remote_metadata name t e in
        if ok then Done (true, ticks', e1)
        else wait_builtin name timeout start_wait ticks'
               (sleep POLL_INTERVAL t e1)
    end
  else Done (false, ticks, e).

Section Agent.

(** The agent's methods and [base64.b64decode] are external.  [None] from
    [b64decode] is its [binascii.Error]; [None] from [deserialize_descs] is
    Python's [None]. *)
Variable descs : Type.
Variable b64decode : string -> option string.
Variable add_remote_agent : string -> string.
Variable deserialize_descs : string -> option descs.

(** [retrieve_agent_metadata]; the result [None] is Python's [None]. *)
Definition retrieve_agent_metadata (key : string) (timeout : Z)
    (use_nixl_builtin : bool) (remote_agent_name : option string)
    (ticks : list tick) (e : env)
  : outcome (option string * list tick * env) :=
  if use_nixl_builtin then
    match remote_agent_name with
    | None => Done (None, ticks, e)
    | Some name =>
        if String.eqb name "" then Done (None, ticks, e)
        else
          let e0 := {| now := now e; server := server e;
                       calls := calls e ++
                                [Call_fetch_remote_metadata name key] |} in
          match wait_builtin name timeout (now e0) ticks e0 with
          | Done (true, ticks', e') => Done (Some name, ticks', e')
          | Done (false, ticks', e') => Done (None, ticks', e')
          | Starved (_, ticks', e') => Starved (None, ticks', e')
          | Raised (_, ticks', e') => Raised (None, ticks', e')
          end
    end
  else
    match wait_tcp key timeout (now e) ticks None e with
    | Done (metadata_b64, ticks', e') =>
        if truthy metadata_b64 then
          match metadata_b64 with
          | Some (JStr s) =>
              match b64decode s with
              | Some metadata => Done (Some (add_remote_agent metadata), ticks', e')
              | None => Raised (None, ticks', e')
              end
          | _ => Raised (None, ticks', e')
          end
        else Done (None, ticks', e')
    | Starved (_, ticks', e') => Starved (None, ticks', e')
    | Raised (_, ticks', e') => Raised (None, ticks', e')
    end.

(** [retrieve_descriptors]: one [get_metadata], no loop and no timeout
    parameter. *)
Definition retrieve_descriptors (key : string) (ticks : list tick) (e : env)
  : outcome (option descs * list tick * env) :=
  match ticks with
  | [] => Starved (None, [], e)
  | t :: ticks' =>
      let '(serialized_b64, e1) := tcp_get key t e in
      if truthy serialized_b64 then
        match serialized_b64 with
        | Some (JStr s) =>
            match b64decode s with
            | Some serialized => Done (deserialize_descs serialized, ticks', e1)
            | None => Raised (None, ticks', e1)
            end
        | _ => Raised (None, ticks', e1)
        end
      else Done (None, ticks', e1)
  end.

End Agent.

(** The key is not there (with a true value) at any poll of the schedule. *)
Fixpoint absent_throughout (key : string) (md : gmap string json)
    (ticks : list tick) : bool :=
  match ticks with
  | [] => true
  | t :: ticks' =>
      let md' := serve (arrivals t) md in
      negb (truthy (get_metadata key md')) && absent_throughout key md' ticks'
  end.

(** The number of polls a timeout leaves room for. *)
Definition max_polls (timeout : Z) : nat :=
  Z.to_nat ((timeout + POLL_INTERVAL - 1) / POLL_INTERVAL).

(** The time the calls and sleeps of the given polls take beyond the poll
    interval itself. *)
Definition overrun (ticks : list tick) : Z :=
  foldr (fun t acc => Z.of_N (latency t) + Z.of_N (oversleep t) + acc) 0 ticks.

(** The retrieval contract in the words of the specification: a retrieval
    that comes back empty-handed does so only once [timeout] has elapsed. *)
Definition gives_up_only_after {R : Type} (timeout : Z)
    (retrieve : list tick -> env -> outcome (option R * list tick * env))
  : Prop :=
  forall ticks e ticks' e',
    retrieve ticks e = Done (None, ticks', e') ->
    timeout <= now e' - now e.

(** The calls of [n] polls that miss. *)
Definition poll_calls (key : string) (n : nat) : list call :=
  concat (replicate n [Call_get_metadata key; Call_sleep POLL_INTERVAL]).

End MetadataUtils.

(** ** The descriptor exchange over notifications

    The same two loops stand in [receiver_process] / [sender_process] of
    [nixl_sender_receiver.py] and in [target_process] /
    [initiator_process] of [nixl_api_2proc.py]; only the peer's name
    differs.  [inbox] lists what the successive [get_new_notifs()] calls
    return, [sent] what [send_notif] was called with, oldest first. *)

Module Handshake.

(** ["peer" in notifs and b"READY" in notifs["peer"]]. *)
Definition has_ready (peer : string) (notifs : gmap string (list string))
  : bool :=
  match notifs !! peer with
  | Some msgs => bool_decide ("READY" ∈ msgs)
  | None => false
  end.

(** [while not got_ready] of the side that holds the descriptors. *)
Fixpoint wait_for_ready (peer : string)
    (inbox : list (gmap string (list string))) (sent : list (string * string))
  : outcome (list (gmap string (list string)) * list (string * string)) :=
  let sent1 := sent ++ [(peer, "READY")] in
  match inbox with
  | [] => Starved ([], sent1)
  | notifs :: inbox' =>
      if has_ready peer notifs then Done (inbox', sent1)
      else wait_for_ready peer inbox' sent1
  end.

(** The loop, then [send_notif(peer, b"DESCS:" + serialized_descs)]. *)
Definition send_descs_when_ready (peer serialized_descs : string)
    (inbox : list (gmap string (list string))) (sent : list (string * string))
  : outcome (list (gmap string (list string)) * list (string * string)) :=
  match wait_for_ready peer inbox sent with
  | Done (inbox', sent') =>
      Done (inbox', sent' ++ [(peer, "DESCS:" +:+ serialized_descs)])
  | Starved r => Starved r
  | Raised r => Raised r
  end.

Section Requester.

Variable descs : Type.
(** [agent.deserialize_descs]; [None] is Python's [None]. *)
Variable deserialize_descs : string -> option descs.

(** [for msg in notifs[peer]: if msg.startswith(b"DESCS:"): ...; break]. *)
Fixpoint scan_msgs (msgs : list string) : option descs :=
  match msgs with
  | [] => None
  | msg :: msgs' =>
      if Py.startswith msg "DESCS:"
      then deserialize_descs (Py.bytes_from 6 msg)
      else scan_msgs msgs'
  end.

Definition scan_notifs (peer : string) (notifs : gmap string (list string))
  : option descs :=
  match notifs !! peer with
  | Some msgs => scan_msgs msgs
  | None => None
  end.

(** [for _ in range(3)]: up to [n] drains, stopping at the first that
    yields descriptors. *)
Fixpoint check_descs (n : nat) (peer : string)
    (inbox : list (gmap string (list string)))
  : outcome (option descs * list (gmap string (list string))) :=
  match n with
  | O => Done (None, inbox)
  | S n' =>
      match inbox with
      | [] => Starved (None, [])
      | notifs :: inbox' =>
          match scan_notifs peer notifs with
          | Some d => Done (Some d, inbox')
          | None => check_descs n' peer inbox'
          end
      end
  end.

(** [while receiver_buffers_descs is None]; [fuel] bounds the iterations and
    is never what ends a run started by [request_descs]. *)
Fixpoint request_loop (fuel : nat) (peer : string) (ready_count : Z)
    (inbox : list (gmap string (list string))) (sent : list (string * string))
  : outcome (option descs * list (gmap string (list string))
             * list (string * string)) :=
  match fuel with
  | O => Starved (None, inbox, sent)
  | S fuel' =>
      let sent1 :=
        if ready_count mod 5 =? 0 then sent ++ [(peer, "READY")] else sent in
      match check_descs 3 peer inbox with
      | Done (Some d, inbox') => Done (Some d, inbox', sent1)
      | Done (None, inbox') =>
          request_loop fuel' peer (ready_count + 1) inbox' sent1
      | Starved (_, inbox') => Starved (None, inbox', sent1)
      | Raised (_, inbox') => Raised (None, inbox', sent1)
      end
  end.

Definition request_descs (peer : string)
    (inbox : list (gmap string (list string))) (sent : list (string * string))
  : outcome (option descs * list (gmap string (list string))
             * list (string * string)) :=
  request_loop (S (length inbox)) peer 0 inbox sent.

End Requester.

(** No message from [peer] in this drain starts with [DESCS:]. *)
Definition no_descs (peer : string) (notifs : gmap string (list string))
  : bool :=
  match notifs !! peer with
  | Some msgs => forallb (fun m => negb (Py.startswith m "DESCS:")) msgs
  | None => true
  end.

(** The exit of the requesting loop in the words of the specification:
    whenever a message with the prefix [DESCS:] appears in the history,
    the loop ends with the deserialized rest of the first such message. *)
Definition ends_with_first_descs (descs : Type)
    (deserialize_descs : string -> option descs) (peer : string) : Prop :=
  forall (pre post : list (gmap string (list string)))
         (d : gmap string (list string)) (l1 l2 : list string) (m : string)
         (sent : list (string * string)),
    Forall (fun n => no_descs peer n = true) pre ->
    d !! peer = Some (l1 ++ m :: l2) ->
    Forall (fun x => Py.startswith x "DESCS:" = false) l1 ->
    Py.startswith m "DESCS:" = true ->
    exists rest sent',
      request_descs descs deserialize_descs peer (pre ++ d :: post) sent
      = Done (deserialize_descs (Py.bytes_from 6 m), rest, sent').

(** How many of the turns [ready_count, ready_count + n) send [READY]. *)
Fixpoint ready_sends (ready_count : Z) (n : nat) : nat :=
  match n with
  | O => O
  | S n' =>
      ((if (ready_count mod 5 =? 0)%Z then 1 else 0)
       + ready_sends (ready_count + 1)%Z n')%nat
  end.

End Handshake.

(** ** 2proc/nixl_api_2proc.py *)

Module TwoProc.

(** The etcd branch of [target_process]. *)
Definition target_exchange :=
  Handshake.send_descs_when_ready "initiator".

(** The etcd branch of [initiator_process]. *)
Definition initiator_exchange (descs : Type)
    (deserialize_descs : string -> option descs) :=
  Handshake.request_descs descs deserialize_descs "target".

End TwoProc.

(** ** send_recv/nixl_sender_receiver.py *)

Module SenderReceiver.

Import MemoryUtils.

(** Module-level constants, with the values they get at import. *)
Definition NUM_BUFFERS : Z := 64.
Definition BUFFER_SIZE : Z := 16 * 1024 * 1024.
Definition NUM_TRANSFERS : Z := 1000.
Definition PROGRESS_UPDATE_INTERVAL : Z := Z.max 1 (NUM_BUFFERS / 4).
Definition BACKPRESSURE_THRESHOLD : Z := NUM_BUFFERS - 4.
Definition HEAD_OFFSET : Z := 0.
Definition TAIL_OFFSET : Z := 1.
Definition BUFFER_BASE_OFFSET : Z := 2.
Definition BUFFER_ENTRY_SIZE : Z := BUFFER_SIZE.
Definition TOTAL_MEMORY_SIZE : Z :=
  BUFFER_BASE_OFFSET + NUM_BUFFERS * BUFFER_ENTRY_SIZE.
Definition SENTINEL : Z := 0xFFFFFFFFFFFFFFFF.

(** The three globals [run_test] assigns before it starts the two
    processes; the derived constants above are not recomputed. *)
Record globals : Type := {
  num_buffers : Z;
  buffer_size : Z;
  num_transfers : Z
}.

Definition default_globals : globals :=
  {| num_buffers := NUM_BUFFERS;
     buffer_size := BUFFER_SIZE;
     num_transfers := NUM_TRANSFERS |}.

Definition get_buffer_offset (i : Z) : Z :=
  BUFFER_BASE_OFFSET + i * BUFFER_ENTRY_SIZE.

(** The etcd branches of the two processes. *)
Definition receiver_exchange :=
  Handshake.send_descs_when_ready "sender".

Definition sender_exchange (descs : Type)
    (deserialize_descs : string -> option descs) :=
  Handshake.request_descs descs deserialize_descs "receiver".

(** *** receiver_process *)

(** Remote writes of slot headers, as (address, value), that land in the
    receiver's memory before one of its header reads. *)
Definition land (pokes : list (Z * Z)) (m : memory) : memory :=
  fold_left (fun m p => poke_uint64 m (fst p) (snd p)) pokes m.

Record receiver_state : Type := {
  r_mem : memory;
  transfers_received : Z;
  progress_updates_sent : Z;
  sequence_mismatches : Z;
  r_sent : list (string * string)
}.

Definition receiver_init (m : memory) : receiver_state :=
  {| r_mem := m;
     transfers_received := 0;
     progress_updates_sent := 0;
     sequence_mismatches := 0;
     r_sent := [] |}.

(** [for i in range(NUM_BUFFERS): write_uint64(..., 0xFFFFFFFFFFFFFFFF)]. *)
Definition init_headers (g : globals) (memory_addr : Z) (m : memory)
  : option memory :=
  foldl (fun om i =>
           m ← om;
           write_uint64 m
             (memory_addr + BUFFER_BASE_OFFSET + i * BUFFER_ENTRY_SIZE)
             SENTINEL)
        (Some m) (seqZ 0 (num_buffers g)).

Inductive poll_result : Type :=
| Arrived (seq : Z) (m : memory) (sched : list (list (Z * Z)))
| No_more (m : memory).

(** [while True: seq = read_uint64(buffer_offset); if seq ==
    transfers_received: break]. *)
Fixpoint poll_header (buffer_offset expected : Z)
    (sched : list (list (Z * Z))) (m : memory) : poll_result :=
  match sched with
  | [] => No_more m
  | pokes :: sched' =>
      let m1 := land pokes m in
      let seq := read_uint64 m1 buffer_offset in
      if seq =? expected then Arrived seq m1 sched'
      else poll_header buffer_offset expected sched' m1
  end.

(** One turn of [while transfers_received < NUM_TRANSFERS]. *)
Definition receiver_iteration (g : globals) (memory_addr : Z)
    (sender_name : string) (sched : list (list (Z * Z))) (s : receiver_state)
  : outcome (receiver_state * list (list (Z * Z))) :=
  if num_buffers g =? 0 then Raised (s, sched)
  else
    let buffer_base_addr := memory_addr + BUFFER_BASE_OFFSET in
    let buffer_idx := transfers_received s mod num_buffers g in
    let buffer_offset := buffer_base_addr + buffer_idx * BUFFER_ENTRY_SIZE in
    match poll_header buffer_offset (transfers_received s) sched (r_mem s) with
    | No_more m =>
        Starved ({| r_mem := m;
                    transfers_received := transfers_received s;
                    progress_updates_sent := progress_updates_sent s;
                    sequence_mismatches := sequence_mismatches s;
                    r_sent := r_sent s |}, [])
    | Arrived seq m sched' =>
        let mismatches :=
          if negb (seq =? transfers_received s)
          then sequence_mismatches s + 1
          else sequence_mismatches s in
        match write_uint64 m buffer_offset SENTINEL with
        | None =>
            Raised ({| r_mem := m;
                       transfers_received := transfers_received s;
                       progress_updates_sent := progress_updates_sent s;
                       sequence_mismatches := mismatches;
                       r_sent := r_sent s |}, sched')
        | Some m' =>
            let received := transfers_received s + 1 in
            if received mod PROGRESS_UPDATE_INTERVAL =? 0 then
              Done ({| r_mem := m';
                       transfers_received := received;
                       progress_updates_sent := progress_updates_sent s + 1;
                       sequence_mismatches := mismatches;
                       r_sent := r_sent s ++
                                 [(sender_name, "P:" +:+ Py.str received)] |},
                    sched')
            else
              Done ({| r_mem := m';
                       transfers_received := received;
                       progress_updates_sent := progress_updates_sent s;
                       sequence_mismatches := mismatches;
                       r_sent := r_sent s |}, sched')
        end
    end.

Fixpoint receiver_turns (n : nat) (g : globals) (memory_addr : Z)
    (sender_name : string) (sched : list (list (Z * Z))) (s : receiver_state)
  : outcome (receiver_state * list (list (Z * Z))) :=
  match n with
  | O => Done (s, sched)
  | S n' =>
      match receiver_iteration g memory_addr sender_name sched s with
      | Done (s', sched') =>
          receiver_turns n' g memory_addr sender_name sched' s'
      | stopped => stopped
      end
  end.

(** [while transfers_received < NUM_TRANSFERS]: every turn that does not
    stop the run adds one to the counter, so the turns left are the
    difference. *)
Definition receiver_loop (g : globals) (memory_addr : Z)
    (sender_name : string) (sched : list (list (Z * Z))) (s : receiver_state)
  : outcome (receiver_state * list (list (Z * Z))) :=
  receiver_turns (Z.to_nat (num_transfers g - transfers_received s))
    g memory_addr sender_name sched s.

(** What accepting transfer [i] makes the receiver send. *)
Definition progress_note (sender_name : string) (i : Z)
  : list (string * string) :=
  if (i + 1) mod PROGRESS_UPDATE_INTERVAL =? 0
  then [(sender_name, "P:" +:+ Py.str (i + 1))]
  else [].

(** *** sender_process *)

Inductive xfer_state : Type := PROC | DONE | ERR.

(** What [check_xfer_state] does: return a state or raise. *)
Inductive check_result : Type :=
| State (st : xfer_state)
| Exception.

(** The calls into the engine, and the assignments to [ahead_count] and
    [receiver_progress], in program order.  A transfer handle is named by
    the slot it was made for; [Ev_transfer] also notes the values of
    [transfers_sent] and [receiver_progress] at the call. *)
Inductive event : Type :=
| Ev_ahead (ahead_count : Z)
| Ev_progress (progress : Z)
| Ev_check_xfer_state (slot : Z) (r : check_result)
| Ev_transfer (slot sent progress : Z) (r : xfer_state)
| Ev_release_xfer_handle (slot : Z)
| Ev_release_dlist_handle (local : bool)
| Ev_deregister_memory
| Ev_free.

Record sender_state : Type := {
  s_mem : memory;
  transfers_sent : Z;
  receiver_progress : Z;
  backpressure_checks : Z;
  backpressure_waits : Z;
  max_ahead : Z;
  trace : list event
}.

(** The answers of the outside world to the sender's calls, in call order:
    to [get_new_notifs()], to [check_xfer_state] and to [transfer]. *)
Record sender_env : Type := {
  inbox : list (gmap string (list string));
  xfer_states : list check_result;
  transfer_results : list xfer_state
}.

(** The values assigned to [receiver_progress] along a trace, oldest
    first. *)
Definition progress_values (tr : list event) : list Z :=
  omap (fun ev => match ev with Ev_progress p => Some p | _ => None end) tr.

(** What the backpressure gate promises of an event: a value of
    [ahead_count] is at most the threshold, and a transfer is issued with
    [transfers_sent - receiver_progress] below it. *)
Definition within_backpressure (ev : event) : Prop :=
  match ev with
  | Ev_ahead ahead_count => ahead_count <= BACKPRESSURE_THRESHOLD
  | Ev_transfer _ sent progress _ => sent - progress < BACKPRESSURE_THRESHOLD
  | _ => True
  end.

(** An event that is not the issue of a transfer. *)
Definition quiet (ev : event) : Prop :=
  match ev with
  | Ev_transfer _ _ _ _ => False
  | _ => True
  end.

(** An event that is not the issue of a transfer that failed. *)
Definition no_err (ev : event) : Prop :=
  match ev with
  | Ev_transfer _ _ _ ERR => False
  | _ => True
  end.

(** The events of waiting for one slot's handle: polls that answer
    [PROC], then one poll that does not. *)
Definition drained (slot : Z) (evs : list event) : Prop :=
  exists (k : nat) (r : check_result),
    evs = replicate k (Ev_check_xfer_state slot (State PROC))
          ++ [Ev_check_xfer_state slot r] /\
    r <> State PROC.

Definition sender_init (m : memory) : sender_state :=
  {| s_mem := m;
     transfers_sent := 0;
     receiver_progress := 0;
     backpressure_checks := 0;
     backpressure_waits := 0;
     max_ahead := 0;
     trace := [] |}.

Definition log (ev : event) (s : sender_state) : sender_state :=
  {| s_mem := s_mem s;
     transfers_sent := transfers_sent s;
     receiver_progress := receiver_progress s;
     backpressure_checks := backpressure_checks s;
     backpressure_waits := backpressure_waits s;
     max_ahead := max_ahead s;
     trace := trace s ++ [ev] |}.

(** [receiver_progress = progress]. *)
Definition set_progress (progress : Z) (s : sender_state) : sender_state :=
  {| s_mem := s_mem s;
     transfers_sent := transfers_sent s;
     receiver_progress := progress;
     backpressure_checks := backpressure_checks s;
     backpressure_waits := backpressure_waits s;
     max_ahead := max_ahead s;
     trace := trace s ++ [Ev_progress progress] |}.

(** [for msg in notifs[receiver_name]]: the body is the same at both
    places that drain progress notifications.  [Raised] is the
    [ValueError] of [int(msg[2:])]. *)
Fixpoint update_progress (msgs : list string) (s : sender_state)
  : outcome sender_state :=
  match msgs with
  | [] => Done s
  | msg :: msgs' =>
      if Py.startswith msg "P:" then
        match Py.int (Py.bytes_from 2 msg) with
        | None => Raised s
        | Some progress =>
            if receiver_progress s <? progress
            then update_progress msgs' (set_progress progress s)
            else update_progress msgs' s
        end
      else update_progress msgs' s
  end.

(** [if receiver_name in notifs: for msg in notifs[receiver_name]: ...]. *)
Definition drain_progress (receiver_name : string)
    (notifs : gmap string (list string)) (s : sender_state)
  : outcome sender_state :=
  match notifs !! receiver_name with
  | Some msgs => update_progress msgs s
  | None => Done s
  end.

(** [while ahead_count >= BACKPRESSURE_THRESHOLD], entered with the
    condition true. *)
Fixpoint backpressure_wait (receiver_name : string)
    (inbox : list (gmap string (list string))) (s : sender_state)
  : outcome (sender_state * list (gmap string (list string))) :=
  match inbox with
  | [] => Starved (s, [])
  | notifs :: inbox' =>
      match drain_progress receiver_name notifs s with
      | Done s1 =>
          let ahead_count := transfers_sent s1 - receiver_progress s1 in
          let s2 := log (Ev_ahead ahead_count) s1 in
          if BACKPRESSURE_THRESHOLD <=? ahead_count then
            backpressure_wait receiver_name inbox'
              {| s_mem := s_mem s2;
                 transfers_sent := transfers_sent s2;
                 receiver_progress := receiver_progress s2;
                 backpressure_checks := backpressure_checks s2;
                 backpressure_waits := backpressure_waits s2 + 1;
                 max_ahead := max_ahead s2;
                 trace := trace s2 |}
          else Done (s2, inbox')
      | Starved s1 => Starved (s1, inbox')
      | Raised s1 => Raised (s1, inbox')
      end
  end.

(** The backpressure check at the head of a turn. *)
Definition backpressure_gate (receiver_name : string)
    (inbox : list (gmap string (list string))) (s : sender_state)
  : outcome (sender_state * list (gmap string (list string))) :=
  let ahead_count := transfers_sent s - receiver_progress s in
  let s1 := log (Ev_ahead ahead_count) s in
  let s2 :=
    {| s_mem := s_mem s1;
       transfers_sent := transfers_sent s1;
       receiver_progress := receiver_progress s1;
       backpressure_checks := backpressure_checks s1;
       backpressure_waits := backpressure_waits s1;
       max_ahead := if max_ahead s1 <? ahead_count then ahead_count
                    else max_ahead s1;
       trace := trace s1 |} in
  if BACKPRESSURE_THRESHOLD <=? ahead_count then
    backpressure_wait receiver_name inbox
      {| s_mem := s_mem s2;
         transfers_sent := transfers_sent s2;
         receiver_progress := receiver_progress s2;
         backpressure_checks := backpressure_checks s2 + 1;
         backpressure_waits := backpressure_waits s2;
         max_ahead := max_ahead s2;
         trace := trace s2 |}
  else Done (s2, inbox).

(** [try: while check_xfer_state(handle) == "PROC": pass
     except Exception: pass]. *)
Fixpoint wait_xfer (slot : Z) (states : list check_result) (s : sender_state)
  : outcome (sender_state * list check_result) :=
  match states with
  | [] => Starved (s, [])
  | r :: states' =>
      let s1 := log (Ev_check_xfer_state slot r) s in
      match r with
      | State PROC => wait_xfer slot states' s1
      | _ => Done (s1, states')
      end
  end.

(** The opportunistic drain after a transfer was issued. *)
Definition refresh_progress (receiver_name : string)
    (inbox : list (gmap string (list string))) (s : sender_state)
  : outcome (sender_state * list (gmap string (list string))) :=
  if transfers_sent s mod PROGRESS_UPDATE_INTERVAL =? 0 then
    match inbox with
    | [] => Starved (s, [])
    | notifs :: inbox' =>
        match drain_progress receiver_name notifs s with
        | Done s1 => Done (s1, inbox')
        | Starved s1 => Starved (s1, inbox')
        | Raised s1 => Raised (s1, inbox')
        end
    end
  else Done (s, inbox).

(** One turn of [while transfers_sent < NUM_TRANSFERS]; the boolean is
    [true] when the turn left the loop through [break]. *)
Definition sender_iteration (g : globals) (buffers_addr : Z)
    (receiver_name : string) (env : sender_env) (s : sender_state)
  : outcome (bool * sender_state * sender_env) :=
  if num_buffers g =? 0 then Raised (false, s, env)
  else
    let buffer_idx := transfers_sent s mod num_buffers g in
    match seqZ 0 (num_buffers g) !! Z.to_nat buffer_idx with
    | None => Raised (false, s, env)
    | Some slot =>
        match backpressure_gate receiver_name (inbox env) s with
        | Starved (s1, inbox1) =>
            Starved (false, s1,
                     {| inbox := inbox1; xfer_states := xfer_states env;
                        transfer_results := transfer_results env |})
        | Raised (s1, inbox1) =>
            Raised (false, s1,
                    {| inbox := inbox1; xfer_states := xfer_states env;
                       transfer_results := transfer_results env |})
        | Done (s1, inbox1) =>
            match wait_xfer slot (xfer_states env) s1 with
            | Starved (s2, states2) =>
                Starved (false, s2,
                         {| inbox := inbox1; xfer_states := states2;
                            transfer_results := transfer_results env |})
            | Raised (s2, states2) =>
                Raised (false, s2,
                        {| inbox := inbox1; xfer_states := states2;
                           transfer_results := transfer_results env |})
            | Done (s2, states2) =>
                let buffer_offset :=
                  buffers_addr + buffer_idx * buffer_size g in
                match write_uint64 (s_mem s2) buffer_offset
                        (transfers_sent s2) with
                | None =>
                    Raised (false, s2,
                            {| inbox := inbox1; xfer_states := states2;
                               transfer_results := transfer_results env |})
                | Some m3 =>
                    let s3 :=
                      {| s_mem := m3;
                         transfers_sent := transfers_sent s2;
                         receiver_progress := receiver_progress s2;
                         backpressure_checks := backpressure_checks s2;
                         backpressure_waits := backpressure_waits s2;
                         max_ahead := max_ahead s2;
                         trace := trace s2 |} in
                    match transfer_results env with
                    | [] =>
                        Starved (false, s3,
                                 {| inbox := inbox1; xfer_states := states2;
                                    transfer_results := [] |})
                    | state :: results' =>
                        let s4 :=
                          log (Ev_transfer slot (transfers_sent s3)
                                 (receiver_progress s3) state) s3 in
                        match state with
                        | ERR =>
                            Done (true, s4,
                                  {| inbox := inbox1; xfer_states := states2;
                                     transfer_results := results' |})
                        | _ =>
                            let s5 :=
                              {| s_mem := s_mem s4;
                                 transfers_sent := transfers_sent s4 + 1;
                                 receiver_progress := receiver_progress s4;
                                 backpressure_checks := backpressure_checks s4;
                                 backpressure_waits := backpressure_waits s4;
                                 max_ahead := max_ahead s4;
                                 trace := trace s4 |} in
                            match refresh_progress receiver_name inbox1 s5 with
                            | Done (s6, inbox2) =>
                                Done (false, s6,
                                      {| inbox := inbox2;
                                         xfer_states := states2;
                                         transfer_results := results' |})
                            | Starved (s6, inbox2) =>
                                Starved (false, s6,
                                         {| inbox := inbox2;
                                            xfer_states := states2;
                                            transfer_results := results' |})
                            | Raised (s6, inbox2) =>
                                Raised (false, s6,
                                        {| inbox := inbox2;
                                           xfer_states := states2;
                                           transfer_results := results' |})
                            end
                        end
                    end
                end
            end
        end
    end.

Fixpoint sender_turns (n : nat) (g : globals) (buffers_addr : Z)
    (receiver_name : string) (env : sender_env) (s : sender_state)
  : outcome (sender_state * sender_env) :=
  match n with
  | O => Done (s, env)
  | S n' =>
      match sender_iteration g buffers_addr receiver_name env s with
      | Done (false, s', env') =>
          sender_turns n' g buffers_addr receiver_name env' s'
      | Done (true, s', env') => Done (s', env')
      | Starved (_, s', env') => Starved (s', env')
      | Raised (_, s', env') => Raised (s', env')
      end
  end.

(** [while transfers_sent < NUM_TRANSFERS]. *)
Definition sender_loop (g : globals) (buffers_addr : Z)
    (receiver_name : string) (env : sender_env) (s : sender_state)
  : outcome (sender_state * sender_env) :=
  sender_turns (Z.to_nat (num_transfers g - transfers_sent s))
    g buffers_addr receiver_name env s.

(** [for i in range(NUM_BUFFERS)]: wait for every slot's handle. *)
Fixpoint drain_handles (slots : list Z) (states : list check_result)
    (s : sender_state) : outcome (sender_state * list check_result) :=
  match slots with
  | [] => Done (s, states)
  | slot :: slots' =>
      match wait_xfer slot states s with
      | Done (s', states') => drain_handles slots' states' s'
      | stopped => stopped
      end
  end.

(** The calls of the cleanup block at the end of [sender_process]. *)
Definition cleanup_events (g : globals) : list event :=
  (Ev_release_xfer_handle <$> seqZ 0 (num_buffers g)) ++
  [Ev_release_dlist_handle true; Ev_release_dlist_handle false;
   Ev_deregister_memory; Ev_free].

Definition cleanup (g : globals) (s : sender_state) : sender_state :=
  {| s_mem := s_mem s;
     transfers_sent := transfers_sent s;
     receiver_progress := receiver_progress s;
     backpressure_checks := backpressure_checks s;
     backpressure_waits := backpressure_waits s;
     max_ahead := max_ahead s;
     trace := trace s ++ cleanup_events g |}.

(** [sender_process] from the main loop to its end. *)
Definition sender_stream (g : globals) (buffers_addr : Z)
    (receiver_name : string) (env : sender_env) (s : sender_state)
  : outcome (sender_state * sender_env) :=
  match sender_loop g buffers_addr receiver_name env s with
  | Done (s1, env1) =>
      match drain_handles (seqZ 0 (num_buffers g)) (xfer_states env1) s1 with
      | Done (s2, states2) =>
          Done (cleanup g s2,
                {| inbox := inbox env1; xfer_states := states2;
                   transfer_results := transfer_results env1 |})
      | Starved (s2, states2) =>
          Starved (s2,
                   {| inbox := inbox env1; xfer_states := states2;
                      transfer_results := transfer_results env1 |})
      | Raised (s2, states2) =>
          Raised (s2,
                  {| inbox := inbox env1; xfer_states := states2;
                     transfer_results := transfer_results env1 |})
      end
  | stopped => stopped
  end.

(** The facts that hold of the sender's variables and trace at every
    point of a run. *)
Definition inv4 (sent progress mx : Z) (tr : list event) : Prop :=
  sent - progress <= BACKPRESSURE_THRESHOLD /\
  mx <= BACKPRESSURE_THRESHOLD /\
  Forall within_backpressure tr /\
  StronglySorted Z.lt (0 :: progress_values tr) /\
  Forall (fun p => p <= progress) (0 :: progress_values tr) /\
  last (0 :: progress_values tr) = Some progress.

Definition sender_inv (s : sender_state) : Prop :=
  inv4 (transfers_sent s) (receiver_progress s) (max_ahead s) (trace s).

(** The state a turn of the loop ends in. *)
Definition turn_state (o : outcome (bool * sender_state * sender_env))
  : sender_state := snd (fst (outcome_state o)).

End SenderReceiver.

(** ** utils/tcp_server.py: the server singleton *)

Module TcpServerStart.

(** [start_server]: [instance] is [_server_instance], [bind_ok] tells
    whether creating the socket server succeeds ([false] is its
    [OSError]).  The result is the new [_server_instance] and the value
    returned. *)
Definition start_server (port : Z) (bind_ok : bool) (instance : option Z)
  : option Z * bool :=
  match instance with
  | None => if bind_ok then (Some port, true) else (None, false)
  | Some _ => (instance, false)
  end.

(** Successive calls, each with its port and the fate of its bind; the
    values returned, in call order. *)
Fixpoint start_server_calls (calls : list (Z * bool)) (instance : option Z)
  : option Z * list bool :=
  match calls with
  | [] => (instance, [])
  | (port, bind_ok) :: calls' =>
      let '(instance1, r) := start_server port bind_ok instance in
      let '(instance2, rs) := start_server_calls calls' instance1 in
      (instance2, r :: rs)
  end.

End TcpServerStart.

(** ** utils/metadata_utils.py: the server along a schedule *)

Module ServerHistory.

Import TcpServer MetadataUtils.

(** The server state after the requests of all the given polls. *)
Definition serve_all (ticks : list tick) (md : gmap string json)
  : gmap string json :=
  fold_left (fun md t => serve (arrivals t) md) ticks md.

(** The calls of [n] polls of the built-in branch that find the metadata
    not yet loaded. *)
Definition check_calls (name : string) (n : nat) : list call :=
  concat (replicate n [Call_check_remote_metadata name;
                       Call_sleep POLL_INTERVAL]).

End ServerHistory.

(** ** utils/tcp_server.py and utils/metadata_utils.py: the answer on the
    socket

    The client functions read the server's answer with one
    [s.recv(4096)].  The handler writes its answer, one line, with a single
    [write]; the model takes it that the bytes of that line, up to the 4096
    asked for, are what the one [recv] returns. *)

Module Wire.

Import TcpServer MetadataUtils.

(** The characters [json.dumps] writes for one character of a str, with
    [ensure_ascii] left at its default: two for the quote, the backslash
    and the short escapes of backspace, tab, newline, form feed and
    carriage return; six, a [\uXXXX], for every other character outside
    the range from the space to the tilde; one for the rest. *)
Definition escaped_len (c : ascii) : nat :=
  let n := nat_of_ascii c in
  if ((n =? 34) || (n =? 92) || (n =? 8) || (n =? 9) || (n =? 10)
      || (n =? 12) || (n =? 13))%nat
  then 2%nat
  else if ((n <? 32) || (126 <? n))%nat then 6%nat else 1%nat.

(** [len(json.dumps(v))]. *)
Definition dumps_len (v : json) : nat :=
  match v with
  | JNull => 4
  | JNum n => String.length (Py.str n)
  | JStr s => 2 + sum_list (escaped_len <$> list_ascii_of_string s)
  end.

(** [len(json.dumps(response))] for the answers of the handler:
    [{"status": "OK"}], [{"status": "OK", "value": ...}] and
    [{"status": "ERROR", "message": ...}]. *)
Definition answer_len (r : response) : nat :=
  match r with
  | OK => 16
  | OK_value value => 27 + dumps_len value
  | ERROR message => 32 + dumps_len (JStr message)
  end.

Definition RECV_SIZE : nat := 4096.

(** [json.loads(s.recv(4096).decode().strip())].  A JSON text of at most
    4096 bytes is read whole (only the newline after it may stay behind)
    and parses to the answer sent; a longer one is cut before its closing
    brace and [json.loads] raises [JSONDecodeError], which is [None]. *)
Definition recv (r : response) : option response :=
  if (answer_len r <=? RECV_SIZE)%nat then Some r else None.

(** [get_metadata] as the client runs it: [None] is the
    [JSONDecodeError], [Some x] the value returned. *)
Definition get_metadata (key : string) (_metadata : gmap string json)
  : option (option json) :=
  match recv (snd (handle (GET key) _metadata)) with
  | Some (OK_value value) => Some (Some value)
  | Some _ => Some None
  | None => None
  end.

(** The handler's answer to a [GET] on [key] whose lookup gave [found]. *)
Definition reply (key : string) (found : option json) : response :=
  match found with
  | Some JNull | None => ERROR ("Key '" +:+ key +:+ "' not found")
  | Some value => OK_value value
  end.

(** One lookup during a poll: the requests of the other clients arrive
    first. *)
Definition tcp_get (key : string) (t : tick) (e : env)
  : option (option json) * env :=
  let md := serve (arrivals t) (server e) in
  (get_metadata key md,
   {| now := now e + Z.of_N (latency t);
      server := md;
      calls := calls e ++ [Call_get_metadata key] |}).

(** [while not metadata_b64 and (time.time() - start_wait) < timeout];
    [Raised] is the [JSONDecodeError] of a lookup. *)
Fixpoint wait_tcp (key : string) (timeout start_wait : Z) (ticks : list tick)
    (metadata_b64 : option json) (e : env)
  : outcome (option json * list tick * env) :=
  if negb (truthy metadata_b64) && (now e - start_wait <? timeout) then
    match ticks with
    | [] => Starved (metadata_b64, [], e)
    | t :: ticks' =>
        match tcp_get key t e with
        | (None, e1) => Raised (metadata_b64, ticks', e1)
        | (Some v, e1) =>
            let e2 := if truthy v then e1 else sleep POLL_INTERVAL t e1 in
            wait_tcp key timeout start_wait ticks' v e2
        end
    end
  else Done (metadata_b64, ticks, e).

Section Agent.

(** The agent's methods and [base64.b64decode] are external, as in
    [MetadataUtils]. *)
Variable descs : Type.
Variable b64decode : string -> option string.
Variable add_remote_agent : string -> string.
Variable deserialize_descs : string -> option descs.

(** [retrieve_agent_metadata] with the lookups of its TCP branch read from
    the socket. *)
Definition retrieve_agent_metadata (key : string) (timeout : Z)
    (use_nixl_builtin : bool) (remote_agent_name : option string)
    (ticks : list tick) (e : env)
  : outcome (option string * list tick * env) :=
  if use_nixl_builtin then
    match remote_agent_name with
    | None => Done (None, ticks, e)
    | Some name =>
        if String.eqb name "" then Done (None, ticks, e)
        else
          let e0 := {| now := now e; server := server e;
                       calls := calls e ++
                                [Call_fetch_remote_metadata name key] |} in
          match wait_builtin name timeout (now e0) ticks e0 with
          | Done (true, ticks', e') => Done (Some name, ticks', e')
          | Done (false, ticks', e') => Done (None, ticks', e')
          | Starved (_, ticks', e') => Starved (None, ticks', e')
          | Raised (_, ticks', e') => Raised (None, ticks', e')
          end
    end
  else
    match wait_tcp key timeout (now e) ticks None e with
    | Done (metadata_b64, ticks', e') =>
        if truthy metadata_b64 then
          match metadata_b64 with
          | Some (JStr s) =>
              match b64decode s with
              | Some metadata =>
                  Done (Some (add_remote_agent metadata), ticks', e')
              | None => Raised (None, ticks', e')
              end
          | _ => Raised (None, ticks', e')
          end
        else Done (None, ticks', e')
    | Starved (_, ticks', e') => Starved (None, ticks', e')
    | Raised (_, ticks', e') => Raised (None, ticks', e')
    end.

(** [retrieve_descriptors] with its lookup read from the socket. *)
Definition retrieve_descriptors (key : string) (ticks : list tick) (e : env)
  : outcome (option descs * list tick * env) :=
  match ticks with
  | [] => Starved (None, [], e)
  | t :: ticks' =>
      match tcp_get key t e with
      | (None, e1) => Raised (None, ticks', e1)
      | (Some serialized_b64, e1) =>
          if truthy serialized_b64 then
            match serialized_b64 with
            | Some (JStr s) =>
                match b64decode s with
                | Some serialized =>
                    Done (deserialize_descs serialized, ticks', e1)
                | None => Raised (None, ticks', e1)
                end
            | _ => Raised (None, ticks', e1)
            end
          else Done (None, ticks', e1)
      end
  end.

End Agent.

End Wire.

(** ** utils/metadata_utils.py: publishing *)

Module Publish.

Import TcpServer.

(** What a publishing call does besides writing to the TCP server. *)
Inductive publish_call : Type :=
| Call_send_partial_agent_metadata (label : string)
| Call_set_metadata (key : string) (value : json).

Section Agent.

(** The agent's methods and [base64.b64encode] are external. *)
Variable descs : Type.
Variable reg_descs_t : Type.
Variable b64encode : string -> string.
Variable get_agent_metadata : string.
Variable get_serialized_descs : descs -> string.

(** [publish_agent_metadata] on the server state: the new state and the
    calls made. *)
Definition publish_agent_metadata (key : string) (use_nixl_builtin : bool)
    (reg_descs : option reg_descs_t) (_metadata : gmap string json)
  : gmap string json * list publish_call :=
  if use_nixl_builtin then
    match reg_descs with
    | None => (_metadata, [])
    | Some _ => (_metadata, [Call_send_partial_agent_metadata key])
    end
  else
    let metadata_b64 := JStr (b64encode get_agent_metadata) in
    (fst (set_metadata key metadata_b64 _metadata),
     [Call_set_metadata key metadata_b64]).

(** [publish_descriptors]. *)
Definition publish_descriptors (xfer_descs : descs) (key : string)
    (_metadata : gmap string json) : gmap string json * list publish_call :=
  let serialized_b64 := JStr (b64encode (get_serialized_descs xfer_descs)) in
  (fst (set_metadata key serialized_b64 _metadata),
   [Call_set_metadata key serialized_b64]).

End Agent.

End Publish.

(** ** send_recv/nixl_sender_receiver.py: the buffers of the two sides *)

Module Layout.

Import SenderReceiver.

(** A descriptor [(address, length, device)]. *)
Definition region : Type := Z * Z * Z.

Definition base (r : region) : Z := fst (fst r).
Definition len (r : region) : Z := snd (fst r).

(** [memory_reg_desc] of [receiver_process], without its label. *)
Definition receiver_reg_desc (memory_addr : Z) : region :=
  (memory_addr, TOTAL_MEMORY_SIZE, 0).

(** [buffers_xfer_desc] of [receiver_process]. *)
Definition buffers_xfer_desc (g : globals) (memory_addr : Z) : list region :=
  (fun i => (memory_addr + BUFFER_BASE_OFFSET + i * BUFFER_ENTRY_SIZE,
             buffer_size g, 0))
    <$> seqZ 0 (num_buffers g).

(** [buffers_size], [buffers_reg_desc] and [local_buffer_list] of
    [sender_process]. *)
Definition buffers_size (g : globals) : Z := num_buffers g * buffer_size g.

Definition buffers_reg_desc (g : globals) (buffers_addr : Z) : region :=
  (buffers_addr, buffers_size g, 0).

Definition local_buffer_list (g : globals) (buffers_addr : Z) : list region :=
  (fun i => (buffers_addr + i * buffer_size g, buffer_size g, 0))
    <$> seqZ 0 (num_buffers g).

(** The address the receiver polls and resets for transfer [i], and the
    address the sender writes the header of transfer [i] to. *)
Definition receiver_header_addr (g : globals) (memory_addr i : Z) : Z :=
  memory_addr + BUFFER_BASE_OFFSET + (i mod num_buffers g) * BUFFER_ENTRY_SIZE.

Definition sender_header_addr (g : globals) (buffers_addr i : Z) : Z :=
  buffers_addr + (i mod num_buffers g) * buffer_size g.

(** The remote writes of a producer in step with the consumer: the header
    of transfer [i] lands in its slot right before the consumer's next
    read, for the [n] transfers from [first] on. *)
Definition lockstep (g : globals) (memory_addr first n : Z)
  : list (list (Z * Z)) :=
  (fun i => [(receiver_header_addr g memory_addr i, i)]) <$> seqZ first n.

(** Each slot of the sender's ring holds, in its first eight bytes, the
    index of the last of the first [n] transfers that used it. *)
Definition latest_headers (g : globals) (buffers_addr : Z)
    (m : MemoryUtils.memory) (n : Z) : Prop :=
  forall i, 0 <= i -> n - num_buffers g <= i < n ->
    MemoryUtils.read_uint64 m (sender_header_addr g buffers_addr i) = i.

(** [r1] lies inside [r2]; [r1] and [r2] share no byte. *)
Definition inside (r1 r2 : region) : Prop :=
  base r2 <= base r1 /\ base r1 + len r1 <= base r2 + len r2.

Definition apart (r1 r2 : region) : Prop :=
  base r1 + len r1 <= base r2 \/ base r2 + len r2 <= base r1.

End Layout.

(** ** send_recv/nixl_sender_receiver.py: reading the sender's trace *)

Module SenderTrace.

Import SenderReceiver.

(** The transfers issued along a trace: slot, index and result of each
    [transfer] call, oldest first. *)
Definition issued (tr : list event) : list (Z * Z * xfer_state) :=
  omap (fun ev => match ev with
                  | Ev_transfer slot sent _ r => Some (slot, sent, r)
                  | _ => None
                  end) tr.

(** The [n] transfers from [first] on over a ring of [num_buffers] slots,
    each with the slot it belongs to. *)
Definition round_robin (num_buffers first n : Z) : list (Z * Z) :=
  (fun i => (i mod num_buffers, i)) <$> seqZ first n.

(** Every issue of a transfer comes right after a [check_xfer_state] of
    the same slot that did not answer ["PROC"]; [prev] is the event before
    the first of [tr]. *)
Fixpoint gated_from (prev : option event) (tr : list event) : Prop :=
  match tr with
  | [] => True
  | ev :: tr' =>
      match ev with
      | Ev_transfer slot _ _ _ =>
          exists r0, prev = Some (Ev_check_xfer_state slot r0)
                     /\ r0 <> State PROC
      | _ => True
      end /\ gated_from (Some ev) tr'
  end.

(** The counts the well-formed progress messages of a drain carry. *)
Definition reported (msgs : list string) : list Z :=
  omap (fun msg => if Py.startswith msg "P:"
                   then Py.int (Py.bytes_from 2 msg) else None) msgs.

(** A message the drain can take: not a progress message, or one whose
    count parses. *)
Definition well_formed (msg : string) : Prop :=
  Py.startswith msg "P:" = true -> is_Some (Py.int (Py.bytes_from 2 msg)).

(** The interpreter's cap on the digits of an int literal,
    [sys.int_max_str_digits], at its default. *)
Definition INT_MAX_STR_DIGITS : nat := 4300.

Fixpoint digit_count (cs : list ascii) : nat :=
  match cs with
  | [] => 0
  | c :: cs' =>
      match Py.digit_of c with
      | Some _ => S (digit_count cs')
      | None => digit_count cs'
      end
  end.

(** [int(b)] with the cap: a literal of more than 4300 digits is a
    [ValueError] like a malformed one. *)
Definition int_capped (b : string) : option Z :=
  if (INT_MAX_STR_DIGITS <? digit_count (list_ascii_of_string b))%nat
  then None
  else Py.int b.

(** A message short enough for [int(msg[2:])] to stay within the cap: two
    bytes of prefix and at most 4300 more. *)
Definition within_digit_cap (msg : string) : Prop :=
  (String.length msg <= 2 + INT_MAX_STR_DIGITS)%nat.

(** An engine that finishes every transfer at once, next to a receiver
    that never reports: [a] empty answers to [get_new_notifs], [b] answers
    ["DONE"] to [check_xfer_state], [c] answers ["DONE"] to [transfer]. *)
Definition silent_env (a b c : nat) : sender_env :=
  {| inbox := replicate a ∅;
     xfer_states := replicate b (State DONE);
     transfer_results := replicate c DONE |}.

End SenderTrace.

(** ** 2proc/nixl_api_2proc.py: after the exchange *)

Module TwoProcRun.

Import SenderReceiver.

(** *** target_process *)

Inductive target_call : Type :=
| T_check_remote_xfer_done (uuid : string) (answer : bool)
| T_sleep
| T_deregister_memory
| T_free.

(** [while not check_remote_xfer_done("initiator", uuid): sleep(0.001)];
    [answers] are what the successive calls return. *)
Fixpoint wait_remote_done (uuid : string) (answers : list bool)
    (calls : list target_call) : outcome (list bool * list target_call) :=
  match answers with
  | [] => Starved ([], calls)
  | a :: answers' =>
      let calls1 := calls ++ [T_check_remote_xfer_done uuid a] in
      if a then Done (answers', calls1)
      else wait_remote_done uuid answers' (calls1 ++ [T_sleep])
  end.

(** [target_process] from "Wait for initiator to complete transfers". *)
Definition target_wait (answers : list bool) (calls : list target_call)
  : outcome (list bool * list target_call) :=
  match wait_remote_done "UUID1" answers calls with
  | Done (answers1, calls1) =>
      match wait_remote_done "UUID2" answers1 calls1 with
      | Done (answers2, calls2) =>
          Done (answers2, calls2 ++ [T_deregister_memory; T_free])
      | stopped => stopped
      end
  | stopped => stopped
  end.

(** *** initiator_process *)

Inductive initiator_call : Type :=
| I_initialize_xfer (ok : bool)
| I_transfer (handle : Z) (r : xfer_state)
| I_check_xfer_state (handle : Z) (r : xfer_state)
| I_sleep
| I_prep_xfer_dlist (local : bool) (ok : bool)
| I_make_prepped_xfer (ok : bool)
| I_release_xfer_handle (handle : Z)
| I_release_dlist_handle (local : bool)
| I_remove_remote_agent
| I_deregister_memory
| I_free.

(** The engine's answers to the initiator: whether each handle is
    created, and the states returned by [transfer] and by
    [check_xfer_state], in call order. *)
Record initiator_env : Type := {
  xfer_handle_1_ok : bool;
  local_prep_ok : bool;
  remote_prep_ok : bool;
  xfer_handle_2_ok : bool;
  transfers : list xfer_state;
  checks : list xfer_state
}.

(** How [initiator_process] ends: it runs to the cleanup, or leaves early
    through one of its [return]s. *)
Inductive ending : Type :=
| Complete
| Returned_early.

(** [while not init_done: state = check_xfer_state(handle); ...;
    time.sleep(0.001)].  [true] when the loop ended on ["DONE"], [false]
    when it left through [return] on ["ERR"]. *)
Fixpoint wait_transfer (handle : Z) (states : list xfer_state)
    (calls : list initiator_call)
  : outcome (bool * list xfer_state * list initiator_call) :=
  match states with
  | [] => Starved (false, [], calls)
  | state :: states' =>
      let calls1 := calls ++ [I_check_xfer_state handle state] in
      match state with
      | ERR => Done (false, states', calls1)
      | DONE => Done (true, states', calls1 ++ [I_sleep])
      | PROC => wait_transfer handle states' (calls1 ++ [I_sleep])
      end
  end.

(** Issue a transfer and wait for it: [transfer], the test for ["ERR"],
    then the wait loop. *)
Definition run_transfer (handle : Z) (results states : list xfer_state)
    (calls : list initiator_call)
  : outcome (bool * list xfer_state * list xfer_state
             * list initiator_call) :=
  match results with
  | [] => Starved (false, [], states, calls)
  | state :: results' =>
      let calls1 := calls ++ [I_transfer handle state] in
      match state with
      | ERR => Done (false, results', states, calls1)
      | _ =>
          match wait_transfer handle states calls1 with
          | Done (ok, states', calls2) => Done (ok, results', states', calls2)
          | Starved (_, states', calls2) =>
              Starved (false, results', states', calls2)
          | Raised (_, states', calls2) =>
              Raised (false, results', states', calls2)
          end
      end
  end.

(** [initiator_process] from "Transfer 1" to its end.  [Raised] is the
    [AssertionError] of a prep handle that is 0. *)
Definition initiator_transfers (env : initiator_env)
  : outcome (ending * list initiator_call) :=
  let calls0 := [I_initialize_xfer (xfer_handle_1_ok env)] in
  if negb (xfer_handle_1_ok env) then Done (Returned_early, calls0)
  else
    match run_transfer 1 (transfers env) (checks env) calls0 with
    | Starved (_, _, _, calls1) => Starved (Returned_early, calls1)
    | Raised (_, _, _, calls1) => Raised (Returned_early, calls1)
    | Done (false, _, _, calls1) => Done (Returned_early, calls1)
    | Done (true, results1, states1, calls1) =>
        let calls2 :=
          calls1 ++ [I_prep_xfer_dlist true (local_prep_ok env);
                     I_prep_xfer_dlist false (remote_prep_ok env)] in
        if negb (local_prep_ok env && remote_prep_ok env)
        then Raised (Returned_early, calls2)
        else
          let calls3 := calls2 ++ [I_make_prepped_xfer (xfer_handle_2_ok env)] in
          if negb (xfer_handle_2_ok env) then Done (Returned_early, calls3)
          else
            match run_transfer 2 results1 states1 calls3 with
            | Starved (_, _, _, calls4) => Starved (Returned_early, calls4)
            | Raised (_, _, _, calls4) => Raised (Returned_early, calls4)
            | Done (false, _, _, calls4) => Done (Returned_early, calls4)
            | Done (true, _, _, calls4) =>
                Done (Complete,
                      calls4 ++
                      [I_release_xfer_handle 1; I_release_xfer_handle 2;
                       I_release_dlist_handle true;
                       I_release_dlist_handle false;
                       I_remove_remote_agent; I_deregister_memory; I_free])
            end
    end.

(** A call that frees a handle, the memory or the peer. *)
Definition releases (c : initiator_call) : bool :=
  match c with
  | I_release_xfer_handle _ | I_release_dlist_handle _
  | I_remove_remote_agent | I_deregister_memory | I_free => true
  | _ => false
  end.

(** The calls of [k] turns of a wait loop that found the transfer not yet
    finished: on the target's side, and on the initiator's. *)
Definition unfinished (uuid : string) (k : nat) : list target_call :=
  concat (replicate k [T_check_remote_xfer_done uuid false; T_sleep]).

Definition pending (handle : Z) (k : nat) : list initiator_call :=
  concat (replicate k [I_check_xfer_state handle PROC; I_sleep]).

(** The issue of the transfer of a given handle. *)
Definition issues (handle : Z) (c : initiator_call) : bool :=
  match c with
  | I_transfer h _ => h =? handle
  | _ => false
  end.

End TwoProcRun.

(** ** Decimal numerals, for [str] and [int] *)

Module Numerals.

(** The number a decimal numeral denotes, read from its first digit on
    with [acc] for the digits already read. *)
Fixpoint uint_val (acc : Z) (d : Decimal.uint) : Z :=
  match d with
  | Decimal.Nil => acc
  | Decimal.D0 l => uint_val (10 * acc + 0) l
  | Decimal.D1 l => uint_val (10 * acc + 1) l
  | Decimal.D2 l => uint_val (10 * acc + 2) l
  | Decimal.D3 l => uint_val (10 * acc + 3) l
  | Decimal.D4 l => uint_val (10 * acc + 4) l
  | Decimal.D5 l => uint_val (10 * acc + 5) l
  | Decimal.D6 l => uint_val (10 * acc + 6) l
  | Decimal.D7 l => uint_val (10 * acc + 7) l
  | Decimal.D8 l => uint_val (10 * acc + 8) l
  | Decimal.D9 l => uint_val (10 * acc + 9) l
  end.

(** The characters of a decimal numeral. *)
Definition digit_chars (d : Decimal.uint) : list ascii :=
  list_ascii_of_string (NilEmpty.string_of_uint d).

End Numerals.

(** ** Concrete runs used as examples *)

Module Scenarios.

Import TcpServer MetadataUtils.

(** A poll during which nothing else happens and no time is lost. *)
Definition quiet_tick : tick :=
  {| arrivals := []; latency := 0; oversleep := 0; loaded := false |}.

(** A poll that takes 2 ms and finds nothing new on the server. *)
Definition slow_tick : tick :=
  {| arrivals := []; latency := 2; oversleep := 0; loaded := false |}.

(** The receiver's descriptors reach the server only before the second
    poll. *)
Definition late_publish : list tick :=
  [ slow_tick;
    {| arrivals := [SET "receiver_buffers_desc" (JStr "ZGVzY3M=")];
       latency := 2; oversleep := 0; loaded := false |} ].

Definition fresh_env : env :=
  {| now := 0; server := ∅; calls := [] |}.

(** Receiver memory with every byte set: each header reads as the
    sentinel. *)
Definition all_ones : MemoryUtils.memory := fun _ => xff.

Definition one_transfer : SenderReceiver.globals :=
  {| SenderReceiver.num_buffers := 64;
     SenderReceiver.buffer_size := 1024;
     SenderReceiver.num_transfers := 1 |}.

Definition receiver_addr : Z := 4096.

(** The address of the header of slot 0 in the receiver's memory. *)
Definition slot0 : Z := receiver_addr + SenderReceiver.get_buffer_offset 0.

(** The receiver waits for transfer 0 in slot 0.  Its first read finds the
    header of transfer 64, the next user of the slot; a later read finds
    0. *)
Definition overrun_then_expected : list (list (Z * Z)) :=
  [ [(slot0, 64)]; [(slot0, 0)] ].

(** The header of transfer 64 stays in slot 0. *)
Definition overrun_for_good : list (list (Z * Z)) :=
  [ [(slot0, 64)]; []; []; [] ].

(** The producer feeds the header of transfer [i] into its slot right
    before the receiver's [i]-th read: a ring of 4 slots, 16 transfers. *)
Definition ring_of_four : SenderReceiver.globals :=
  {| SenderReceiver.num_buffers := 4;
     SenderReceiver.buffer_size := 1024;
     SenderReceiver.num_transfers := 16 |}.

Definition in_step : list (list (Z * Z)) :=
  (fun i => [(receiver_addr + SenderReceiver.get_buffer_offset (i mod 4), i)])
    <$> seqZ 0 16.

Definition zeroed : MemoryUtils.memory := fun _ => x00.

Definition sender_addr : Z := 8192.

(** Ten transfers over 4 slots; the third issue fails.  The handles of the
    three turns were never used before; in the drain slot 0 is still in
    flight at the first poll. *)
Definition ten_transfers : SenderReceiver.globals :=
  {| SenderReceiver.num_buffers := 4;
     SenderReceiver.buffer_size := 1024;
     SenderReceiver.num_transfers := 10 |}.

Definition third_issue_fails : SenderReceiver.sender_env :=
  {| SenderReceiver.inbox := [];
     SenderReceiver.xfer_states :=
       [ SenderReceiver.Exception; SenderReceiver.Exception;
         SenderReceiver.Exception;
         SenderReceiver.State SenderReceiver.PROC;
         SenderReceiver.State SenderReceiver.DONE;
         SenderReceiver.State SenderReceiver.DONE;
         SenderReceiver.State SenderReceiver.ERR;
         SenderReceiver.Exception ];
     SenderReceiver.transfer_results :=
       [ SenderReceiver.PROC; SenderReceiver.DONE; SenderReceiver.ERR ] |}.

(** 62 transfers over the default ring while the receiver's reports are
    slow to come in: nothing at the drains after transfers 16, 32 and 48,
    and at the gate of transfer 60 first nothing, then three reports out
    of order, one of them twice. *)
Definition sixty_two : SenderReceiver.globals :=
  {| SenderReceiver.num_buffers := 64;
     SenderReceiver.buffer_size := 1024;
     SenderReceiver.num_transfers := 62 |}.

Definition slow_reports : SenderReceiver.sender_env :=
  {| SenderReceiver.inbox :=
       [ ∅; ∅; ∅; ∅;
         {[ "receiver" := ["P:32"; "P:16"; "P:48"; "P:32"] ]} ];
     SenderReceiver.xfer_states :=
       replicate 62 SenderReceiver.Exception
       ++ replicate 64 (SenderReceiver.State SenderReceiver.DONE);
     SenderReceiver.transfer_results := replicate 62 SenderReceiver.PROC |}.

End Scenarios.

(** ** Concrete values for the socket *)

Module WireScenarios.

(** A string of 4100 letters, as a base64 text of some 3 kB of metadata
    would be: its answer does not fit one [recv(4096)]. *)
Definition long_value : string :=
  string_of_list_ascii (replicate 4100 "a"%char).

(** A base64 text of ordinary size. *)
Definition short_value : string := "bWV0YWRhdGE=".

End WireScenarios.

(** * Properties *)

(** ** Memory: loads after stores *)

Section MemoryFacts.

Import MemoryUtils.

Lemma Z_of_byte_of_Z z : Z_of_byte (byte_of_Z z) = z mod 256.
Proof.
  unfold Z_of_byte, byte_of_Z.
  assert (Hr : 0 <= z mod 256 < 256) by (apply Z.mod_pos_bound; lia).
  destruct (Byte.of_N (Z.to_N (z mod 256))) as [b|] eqn:E.
  - apply Byte.to_of_N in E. rewrite E. lia.
  - apply Byte.of_N_None_iff in E. lia.
Qed.

Lemma Z_of_byte_range b : 0 <= Z_of_byte b < 256.
Proof.
  unfold Z_of_byte. pose proof (Byte.to_N_bounded b). lia.
Qed.

Lemma decode_encode_le n v : decode_le (encode_le n v) = v mod 256 ^ Z.of_nat n.
Proof.
  revert v. induction n as [|n IH]; intros v.
  - simpl. now rewrite Z.mod_1_r.
  - cbn [encode_le decode_le]. rewrite IH, Z_of_byte_of_Z.
    rewrite Z.mod_mod by lia.
    replace (Z.of_nat (S n)) with (1 + Z.of_nat n) by lia.
    rewrite Z.pow_add_r, Z.pow_1_r by lia.
    rewrite Z.rem_mul_r by lia. reflexivity.
Qed.

Lemma decode_le_range bs : 0 <= decode_le bs < 256 ^ Z.of_nat (length bs).
Proof.
  induction bs as [|b bs IH].
  - simpl. lia.
  - cbn [decode_le length]. pose proof (Z_of_byte_range b).
    replace (Z.of_nat (S (length bs))) with (1 + Z.of_nat (length bs)) by lia.
    rewrite Z.pow_add_r, Z.pow_1_r by lia. nia.
Qed.

Lemma store_bytes_below m addr bs a :
  a < addr -> store_bytes m addr bs a = m a.
Proof.
  revert m addr. induction bs as [|b bs IH]; intros m addr Ha; [reflexivity|].
  cbn [store_bytes]. rewrite IH by lia.
  destruct (Z.eqb_spec a addr); [lia | reflexivity].
Qed.

Lemma store_bytes_above m addr bs a :
  addr + Z.of_nat (length bs) <= a -> store_bytes m addr bs a = m a.
Proof.
  revert m addr. induction bs as [|b bs IH]; intros m addr Ha; [reflexivity|].
  cbn [store_bytes length] in *. rewrite IH by lia.
  destruct (Z.eqb_spec a addr); [lia | reflexivity].
Qed.

Lemma load_store_bytes m addr bs :
  load_bytes (store_bytes m addr bs) addr (length bs) = bs.
Proof.
  revert m addr. induction bs as [|b bs IH]; intros m addr; [reflexivity|].
  cbn [store_bytes length load_bytes]. f_equal.
  - rewrite store_bytes_below by lia. now rewrite Z.eqb_refl.
  - apply IH.
Qed.

Lemma load_bytes_ext m1 m2 addr n :
  (forall a, addr <= a < addr + Z.of_nat n -> m1 a = m2 a) ->
  load_bytes m1 addr n = load_bytes m2 addr n.
Proof.
  revert addr. induction n as [|n IH]; intros addr H; [reflexivity|].
  cbn [load_bytes]. f_equal; [apply H; lia | apply IH; intros; apply H; lia].
Qed.

Lemma length_encode_le n v : length (encode_le n v) = n.
Proof. revert v. induction n; intros; simpl; auto. Qed.

Lemma read_poke_uint64 m addr v :
  read_uint64 (poke_uint64 m addr v) addr = v mod 2 ^ 64.
Proof.
  unfold read_uint64, poke_uint64.
  pose proof (load_store_bytes m addr (encode_le 8 v)) as H.
  rewrite length_encode_le in H. rewrite H.
  now rewrite decode_encode_le.
Qed.

Lemma read_poke_uint64_other m addr v a :
  a + 8 <= addr \/ addr + 8 <= a ->
  read_uint64 (poke_uint64 m addr v) a = read_uint64 m a.
Proof.
  intros H. unfold read_uint64, poke_uint64. f_equal.
  apply load_bytes_ext. intros x Hx.
  destruct H.
  - apply store_bytes_below. lia.
  - apply store_bytes_above. rewrite length_encode_le. lia.
Qed.

Lemma read_uint64_range m addr : 0 <= read_uint64 m addr <= UINT64_MAX.
Proof.
  unfold read_uint64, UINT64_MAX.
  pose proof (decode_le_range (load_bytes m addr 8)) as H.
  assert (length (load_bytes m addr 8) = 8%nat) by reflexivity.
  rewrite H0 in H. change (256 ^ Z.of_nat 8) with 18446744073709551616 in H.
  lia.
Qed.

Lemma write_uint64_Some m addr v :
  0 <= v <= UINT64_MAX -> write_uint64 m addr v = Some (poke_uint64 m addr v).
Proof.
  intros [H1 H2]. unfold write_uint64.
  apply Z.leb_le in H1, H2. now rewrite H1, H2.
Qed.

End MemoryFacts.

(** ** The sequence header round trip *)

Section HeaderRoundTrip.

Import MemoryUtils.

Lemma sentinel_is_uint64_max : SenderReceiver.SENTINEL = UINT64_MAX.
Proof. reflexivity. Qed.

(** C10: [write_uint64] followed by [read_uint64] at the same address gives
    back every value [v] of [0 .. 2^64 - 1] exactly.  The all-ones
    sentinel is one of these values, so it round-trips too, and for a
    transfer count [T < 2^64 - 1] every sequence number below [T] reads
    back as something other than the sentinel. *)
Theorem write_read_uint64_roundtrip (m : memory) (addr v : Z) :
  0 <= v < 2 ^ 64 ->
  exists m' ms,
    write_uint64 m addr v = Some m' /\
    read_uint64 m' addr = v /\
    write_uint64 m addr SenderReceiver.SENTINEL = Some ms /\
    read_uint64 ms addr = SenderReceiver.SENTINEL /\
    SenderReceiver.SENTINEL = 2 ^ 64 - 1 /\
    forall T, T < 2 ^ 64 - 1 -> v < T ->
      read_uint64 m' addr <> read_uint64 ms addr.
Proof.
  intros Hv.
  assert (Hmax : UINT64_MAX = 2 ^ 64 - 1) by reflexivity.
  exists (poke_uint64 m addr v), (poke_uint64 m addr SenderReceiver.SENTINEL).
  rewrite sentinel_is_uint64_max.
  rewrite !write_uint64_Some by lia.
  rewrite !read_poke_uint64.
  rewrite (Z.mod_small v) by lia.
  rewrite (Z.mod_small UINT64_MAX) by (rewrite Hmax; lia).
  repeat split; try reflexivity.
  intros T HT HvT. lia.
Qed.

Lemma write_read_uint64_roundtrip_witness :
  exists m' ms,
    write_uint64 (fun _ => x00) 4096 5 = Some m' /\
    read_uint64 m' 4096 = 5 /\
    write_uint64 (fun _ => x00) 4096 SenderReceiver.SENTINEL = Some ms /\
    read_uint64 ms 4096 = SenderReceiver.SENTINEL /\
    SenderReceiver.SENTINEL = 2 ^ 64 - 1 /\
    forall T, T < 2 ^ 64 - 1 -> 5 < T ->
      read_uint64 m' 4096 <> read_uint64 ms 4096.
Proof.
  apply (write_read_uint64_roundtrip (fun _ => x00) 4096 5). lia.
Defined.

(** A value outside the range is refused, not truncated. *)
Lemma write_uint64_out_of_range m addr v :
  v < 0 \/ 2 ^ 64 <= v -> write_uint64 m addr v = None.
Proof.
  intros H. unfold write_uint64.
  destruct (Z.leb_spec 0 v); [|reflexivity].
  destruct (Z.leb_spec v UINT64_MAX); [|reflexivity].
  unfold UINT64_MAX in *. lia.
Qed.

End HeaderRoundTrip.

(** ** The key-value store of the TCP server *)

Section StoreFrame.

Import TcpServer.

Lemma get_metadata_lookup (md1 md2 : gmap string json) k :
  md1 !! k = md2 !! k -> get_metadata k md1 = get_metadata k md2.
Proof.
  intros H. unfold get_metadata, handle. rewrite H.
  now destruct (md2 !! k) as [[| |]|].
Qed.

Lemma get_metadata_Some (md : gmap string json) k v :
  get_metadata k md = Some v -> md !! k = Some v.
Proof.
  unfold get_metadata, handle.
  destruct (md !! k) as [[| |]|]; simpl; congruence.
Qed.

(** C9: a [SET] on key [k1] leaves every other key [k2] as it was: the
    stored value, the whole answer to [GET k2] and what the client reads
    are unchanged, the value just written is found under [k1] only, and a
    [GET k2] answers [v] only if [v] was already stored under [k2]. *)
Theorem set_leaves_other_keys (md : gmap string json) (k1 k2 : string)
    (v : json) :
  k1 <> k2 ->
  let md' := fst (handle (SET k1 v) md) in
  md' !! k1 = Some v /\
  md' !! k2 = md !! k2 /\
  snd (handle (GET k2) md') = snd (handle (GET k2) md) /\
  fst (handle (GET k2) md') = md' /\
  get_metadata k2 md' = get_metadata k2 md /\
  (md !! k2 <> Some v -> snd (handle (GET k2) md') <> OK_value v).
Proof.
  intros Hne. cbn [handle fst].
  assert (Hk : (<[k1:=v]> md : gmap string json) !! k2 = md !! k2)
    by (now apply lookup_insert_ne).
  split; [apply lookup_insert_eq|].
  split; [exact Hk|].
  unfold get_metadata. cbn [handle]. rewrite Hk.
  destruct (md !! k2) as [[| |]|]; simpl; repeat split; congruence.
Qed.

Lemma set_leaves_other_keys_witness :
  let md : gmap string json := {[ "target_meta" := JStr "dGFyZ2V0" ]} in
  let md' := fst (handle (SET "initiator_meta" (JStr "aW5pdA==")) md) in
  md' !! "initiator_meta" = Some (JStr "aW5pdA==") /\
  md' !! "target_meta" = md !! "target_meta" /\
  snd (handle (GET "target_meta") md') = snd (handle (GET "target_meta") md) /\
  fst (handle (GET "target_meta") md') = md' /\
  get_metadata "target_meta" md' = get_metadata "target_meta" md /\
  (md !! "target_meta" <> Some (JStr "aW5pdA==") ->
   snd (handle (GET "target_meta") md') <> OK_value (JStr "aW5pdA==")).
Proof.
  apply (set_leaves_other_keys
           {[ "target_meta" := JStr "dGFyZ2V0" ]}
           "initiator_meta" "target_meta" (JStr "aW5pdA==")).
  discriminate.
Defined.


(** The same over any run of the server: requests that never write [k]
    nor clear the store leave [k] alone. *)
Lemma serve_leaves_untouched (reqs : list request) (md : gmap string json) k :
  forallb (fun r => negb (touches k r)) reqs = true ->
  serve reqs md !! k = md !! k.
Proof.
  revert md. induction reqs as [|r reqs IH]; intros md H; [reflexivity|].
  cbn [forallb] in H. apply andb_true_iff in H as [Hr Hrs].
  unfold serve in *. cbn [fold_left]. rewrite IH by exact Hrs.
  destruct r as [key value|key| |cmd]; cbn in *.
  - apply lookup_insert_ne. apply negb_true_iff, String.eqb_neq in Hr. exact Hr.
  - now destruct (md !! key) as [[| |]|].
  - discriminate.
  - reflexivity.
Qed.

End StoreFrame.

(** ** Retrieval from the metadata store *)

Section Retrieval.

Import TcpServer MetadataUtils.

Variable descs : Type.
Variable b64decode : string -> option string.
Variable add_remote_agent : string -> string.
Variable deserialize_descs : string -> option descs.


Lemma poll_calls_S key n :
  poll_calls key (S n) =
  [Call_get_metadata key; Call_sleep POLL_INTERVAL] ++ poll_calls key n.
Proof. reflexivity. Qed.

Lemma polls_left_step (timeout elapsed d : Z) :
  elapsed < timeout -> 0 <= d ->
  (S (Z.to_nat ((timeout - (elapsed + POLL_INTERVAL + d) + POLL_INTERVAL - 1)
                / POLL_INTERVAL))
   <= Z.to_nat ((timeout - elapsed + POLL_INTERVAL - 1) / POLL_INTERVAL))%nat.
Proof.
  unfold POLL_INTERVAL. intros Hlt Hd.
  assert ((timeout - (elapsed + 100 + d) + 100 - 1) / 100
          <= (timeout - elapsed + 100 - 1) / 100 - 1).
  { replace (timeout - elapsed + 100 - 1)
      with ((timeout - elapsed - 1) + 1 * 100) by lia.
    rewrite Z.div_add by lia.
    replace ((timeout - elapsed - 1) / 100 + 1 - 1)
      with ((timeout - elapsed - 1) / 100) by lia.
    apply Z.div_le_mono; lia. }
  assert (1 <= (timeout - elapsed + 100 - 1) / 100).
  { apply Z.div_le_lower_bound; lia. }
  lia.
Qed.


(** The loop leaves with a false value only when the time is up. *)
Lemma wait_tcp_done key timeout start ticks v e v' ticks' e' :
  wait_tcp key timeout start ticks v e = Done (v', ticks', e') ->
  truthy v' = true \/ timeout <= now e' - start.
Proof.
  revert v e. induction ticks as [|t ticks IH]; intros v e; cbn [wait_tcp].
  - destruct (truthy v) eqn:Hv; cbn [negb andb].
    + intros [= <- <- <-]. now left.
    + destruct (Z.ltb_spec (now e - start) timeout); [discriminate|].
      intros [= <- <- <-]. now right.
  - destruct (truthy v) eqn:Hv; cbn [negb andb].
    + intros [= <- <- <-]. now left.
    + destruct (Z.ltb_spec (now e - start) timeout).
      * destruct (tcp_get key t e) as [v1 e1]. apply IH.
      * intros [= <- <- <-]. now right.
Qed.


(** The built-in branch: while the engine has not loaded the remote
    agent's metadata the loop polls every 0.1 s and gives up when the time
    is up. *)
Lemma wait_builtin_never_loaded name timeout start ticks :
  forall e,
    Forall (fun t => loaded t = false) ticks ->
    (Z.to_nat ((timeout - (now e - start) + POLL_INTERVAL - 1) / POLL_INTERVAL)
     <= length ticks)%nat ->
    exists n e',
      wait_builtin name timeout start ticks e = Done (false, drop n ticks, e') /\
      (n <= Z.to_nat ((timeout - (now e - start) + POLL_INTERVAL - 1)
                      / POLL_INTERVAL))%nat /\
      timeout <= now e' - start /\
      now e' = now e + POLL_INTERVAL * Z.of_nat n + overrun (take n ticks).
Proof.
  induction ticks as [|t ticks IH]; intros e Hno Hlen; cbn [wait_builtin].
  - destruct (Z.ltb_spec (now e - start) timeout) as [Hlt|Hge].
    + exfalso. cbn [length] in Hlen.
      assert (1 <= (timeout - (now e - start) + POLL_INTERVAL - 1)
                   / POLL_INTERVAL)
        by (unfold POLL_INTERVAL; apply Z.div_le_lower_bound; lia).
      lia.
    + exists 0%nat, e. cbn. repeat split; try done; lia.
  - destruct (Z.ltb_spec (now e - start) timeout) as [Hlt|Hge].
    + apply Forall_cons in Hno as [Ht Hno].
      unfold check_remote_metadata. rewrite Ht.
      set (e2 := sleep POLL_INTERVAL t _).
      pose proof (polls_left_step timeout (now e - start)
                    (Z.of_N (latency t) + Z.of_N (oversleep t)) Hlt
                    ltac:(lia)) as Hstep.
      assert (Hnow : now e2 - start =
                     now e - start + POLL_INTERVAL
                     + (Z.of_N (latency t) + Z.of_N (oversleep t)))
        by (subst e2; cbn; lia).
      destruct (IH e2 Hno) as (n & e' & Hrun & Hn & Hup & Htime).
      * rewrite Hnow. cbn [length] in Hlen. lia.
      * exists (S n), e'. rewrite Hrun.
        repeat split; try done.
        -- rewrite Hnow in Hn. lia.
        -- rewrite Htime. subst e2. cbn [now sleep take overrun foldr].
           fold (overrun (take n ticks)). lia.
    + exists 0%nat, e. cbn. repeat split; try done; lia.
Qed.

(** [retrieve_agent_metadata] over the TCP server keeps the contract. *)
Lemma retrieve_agent_metadata_gives_up_only_after key timeout :
  gives_up_only_after timeout
    (retrieve_agent_metadata b64decode add_remote_agent key timeout false None).
Proof.
  intros ticks e ticks' e'. unfold retrieve_agent_metadata.
  destruct (wait_tcp key timeout (now e) ticks None e)
    as [[[v t1] e1]|[[v t1] e1]|[[v t1] e1]] eqn:Hrun; try discriminate.
  apply wait_tcp_done in Hrun.
  destruct (truthy v) eqn:Hv.
  - destruct v as [[| |s]|]; try discriminate.
    destruct (b64decode s); discriminate.
  - intros [= <- <-]. destruct Hrun; [discriminate | assumption].
Qed.


End Retrieval.


(** The run behind the witness: five polls, 100 ms apart, then [None]. *)
Example retrieve_agent_metadata_half_second :
  exists e',
    MetadataUtils.retrieve_agent_metadata Some id "sender_metadata" 500
      false None (replicate 5 Scenarios.quiet_tick) Scenarios.fresh_env
    = Done (None, [], e') /\
    MetadataUtils.now e' = 500 /\
    MetadataUtils.calls e' = MetadataUtils.poll_calls "sender_metadata" 5.
Proof. eexists. split; [vm_compute; reflexivity|]. split; reflexivity. Qed.


(** ** The descriptor exchange *)

Section Holder.

Import Handshake.

Lemma wait_for_ready_shape (peer : string)
    (inbox : list (gmap string (list string))) :
  forall sent : list (string * string),
    match wait_for_ready peer inbox sent with
    | Done (inbox', sent') =>
        exists pre notifs,
          inbox = pre ++ notifs :: inbox' /\
          Forall (fun n => has_ready peer n = false) pre /\
          has_ready peer notifs = true /\
          sent' = sent ++ replicate (S (length pre)) (peer, "READY")
    | Starved (inbox', sent') =>
        inbox' = [] /\
        Forall (fun n => has_ready peer n = false) inbox /\
        sent' = sent ++ replicate (S (length inbox)) (peer, "READY")
    | Raised _ => False
    end.
Proof.
  induction inbox as [|notifs inbox IH]; intros sent; cbn [wait_for_ready].
  - repeat split. constructor.
  - destruct (has_ready peer notifs) eqn:Hr.
    + exists [], notifs. repeat split; [constructor | exact Hr].
    + specialize (IH (sent ++ [(peer, "READY")])).
      destruct (wait_for_ready peer inbox (sent ++ [(peer, "READY")]))
        as [[inbox' sent']|[inbox' sent']|r]; [| |exact IH].
      * destruct IH as (pre & n & -> & Hpre & Hn & ->).
        exists (notifs :: pre), n. repeat split.
        -- now constructor.
        -- exact Hn.
        -- now rewrite <- app_assoc.
      * destruct IH as (-> & Hall & ->).
        repeat split; [now constructor | now rewrite <- app_assoc].
Qed.

(** C4: in every execution of the holder's exchange that runs to its end,
    the notifications sent are one [READY] per loop turn, the turns being
    the drains up to and including the first that holds the peer's
    [READY], followed by exactly one [DESCS:<payload>] and nothing else.
    An execution cut short has sent only [READY]s, one per turn, and has
    seen no [READY] from the peer.  This is the loop of [receiver_process]
    (peer ["sender"]) and of [target_process] (peer ["initiator"]). *)
Theorem holder_sends_ready_until_ready_then_descs_once
    (peer serialized_descs : string)
    (inbox : list (gmap string (list string)))
    (sent : list (string * string)) :
  "DESCS:" +:+ serialized_descs <> "READY" /\
  match send_descs_when_ready peer serialized_descs inbox sent with
  | Done (inbox', sent') =>
      exists pre notifs,
        inbox = pre ++ notifs :: inbox' /\
        Forall (fun n => has_ready peer n = false) pre /\
        has_ready peer notifs = true /\
        sent' = sent ++ replicate (S (length pre)) (peer, "READY")
                     ++ [(peer, "DESCS:" +:+ serialized_descs)]
  | Starved (inbox', sent') =>
      inbox' = [] /\
      Forall (fun n => has_ready peer n = false) inbox /\
      sent' = sent ++ replicate (S (length inbox)) (peer, "READY")
  | Raised _ => False
  end.
Proof.
  split; [discriminate|].
  unfold send_descs_when_ready.
  pose proof (wait_for_ready_shape peer inbox sent) as H.
  destruct (wait_for_ready peer inbox sent)
    as [[inbox' sent']|[inbox' sent']|r]; [| exact H | exact H].
  destruct H as (pre & n & -> & Hpre & Hn & ->).
  exists pre, n. repeat split; try assumption.
  now rewrite <- app_assoc.
Qed.

(** The exchange ends as soon as a drain holds the peer's [READY]. *)
Lemma holder_finishes (peer serialized_descs : string)
    (pre post : list (gmap string (list string)))
    (notifs : gmap string (list string)) (sent : list (string * string)) :
  Forall (fun n => has_ready peer n = false) pre ->
  has_ready peer notifs = true ->
  send_descs_when_ready peer serialized_descs (pre ++ notifs :: post) sent
  = Done (post,
          sent ++ replicate (S (length pre)) (peer, "READY")
               ++ [(peer, "DESCS:" +:+ serialized_descs)]).
Proof.
  intros Hpre Hn. unfold send_descs_when_ready.
  assert (Hw : wait_for_ready peer (pre ++ notifs :: post) sent
               = Done (post, sent ++ replicate (S (length pre)) (peer, "READY"))).
  { revert sent. induction Hpre as [|n0 pre Hn0 Hpre IH]; intros sent.
    - cbn. now rewrite Hn.
    - cbn [app wait_for_ready]. rewrite Hn0, IH.
      cbn [length replicate]. now rewrite <- app_assoc. }
  rewrite Hw. now rewrite <- app_assoc.
Qed.

End Holder.

Example receiver_exchange_run :
  SenderReceiver.receiver_exchange "blob"
    [ ∅; {[ "sender" := ["HELLO"] ]}; {[ "sender" := ["READY"; "READY"] ]};
      {[ "sender" := ["READY"] ]} ] []
  = Done ([ {[ "sender" := ["READY"] ]} ],
          [ ("sender", "READY"); ("sender", "READY"); ("sender", "READY");
            ("sender", "DESCS:blob") ]).
Proof. vm_compute. reflexivity. Qed.

Example target_exchange_run :
  TwoProc.target_exchange "blob" [ {[ "initiator" := ["READY"] ]} ] []
  = Done ([], [ ("initiator", "READY"); ("initiator", "DESCS:blob") ]).
Proof. vm_compute. reflexivity. Qed.

Section Requester.

Import Handshake.

Variable descs : Type.
Variable deserialize_descs : string -> option descs.

Local Abbreviation scan_msgs := (scan_msgs descs deserialize_descs).
Local Abbreviation scan_notifs := (scan_notifs descs deserialize_descs).
Local Abbreviation check_descs := (check_descs descs deserialize_descs).
Local Abbreviation request_loop := (request_loop descs deserialize_descs).
Local Abbreviation request_descs := (request_descs descs deserialize_descs).


Lemma startswith_split (p s : string) :
  Py.startswith s p = true -> s = p +:+ Py.bytes_from (String.length p) s.
Proof.
  unfold Py.startswith. revert s.
  induction p as [|a p IH]; intros s H; [reflexivity|].
  destruct s as [|b s]; [discriminate|].
  cbn in H. destruct (ascii_dec a b) as [->|]; [|discriminate].
  change (String b s = String b (p +:+ Py.bytes_from (String.length p) s)).
  f_equal. now apply IH.
Qed.

Lemma scan_msgs_first (l1 l2 : list string) (m : string) :
  Forall (fun x => Py.startswith x "DESCS:" = false) l1 ->
  Py.startswith m "DESCS:" = true ->
  scan_msgs (l1 ++ m :: l2) = deserialize_descs (Py.bytes_from 6 m).
Proof.
  intros Hl1 Hm. induction Hl1 as [|x l1 Hx Hl1 IH].
  - cbn [app Handshake.scan_msgs]. now rewrite Hm.
  - cbn [app Handshake.scan_msgs]. now rewrite Hx.
Qed.

Lemma scan_msgs_none (msgs : list string) :
  forallb (fun m => negb (Py.startswith m "DESCS:")) msgs = true ->
  scan_msgs msgs = None.
Proof.
  induction msgs as [|m msgs IH]; [reflexivity|].
  cbn [forallb Handshake.scan_msgs]. intros H.
  apply andb_true_iff in H as [Hm Hrest]. apply negb_true_iff in Hm.
  rewrite Hm. now apply IH.
Qed.

Lemma no_descs_scan peer notifs :
  no_descs peer notifs = true -> scan_notifs peer notifs = None.
Proof.
  unfold no_descs, Handshake.scan_notifs.
  destruct (notifs !! peer); [apply scan_msgs_none | reflexivity].
Qed.


Lemma ready_sends_closed (rc : Z) (n : nat) :
  0 <= rc ->
  Z.of_nat (ready_sends rc n) = (rc + Z.of_nat n + 4) / 5 - (rc + 4) / 5.
Proof.
  revert rc. induction n as [|n IH]; intros rc Hrc.
  - cbn [ready_sends]. change (Z.of_nat 0) with 0. rewrite Z.add_0_r. lia.
  - cbn [ready_sends]. rewrite Nat2Z.inj_add, IH by lia.
    replace (rc + 1 + Z.of_nat n + 4) with (rc + Z.of_nat (S n) + 4) by lia.
    assert (Hstep : (rc + 1 + 4) / 5 - (rc + 4) / 5
                    = Z.of_nat (if rc mod 5 =? 0 then 1%nat else 0%nat)).
    { destruct (Z.eqb_spec (rc mod 5) 0) as [H0|Hn0];
        cbn; Z.to_euclidean_division_equations; lia. }
    lia.
Qed.

Lemma ready_sends_from_zero (q : nat) :
  ready_sends 0 (S q) = S (q / 5).
Proof.
  apply Nat2Z.inj. rewrite ready_sends_closed by lia.
  rewrite (Nat2Z.inj_succ (q / 5)), Nat2Z.inj_div, (Nat2Z.inj_succ q).
  change (Z.of_nat 5) with 5.
  replace (0 + Z.succ (Z.of_nat q) + 4) with (Z.of_nat q + 1 * 5) by lia.
  rewrite Z.div_add by lia. change ((0 + 4) / 5) with 0. lia.
Qed.

Lemma div3_SSS (n : nat) : (S (S (S n)) / 3 = S (n / 3))%nat.
Proof.
  replace (S (S (S n))) with (n + 1 * 3)%nat by lia.
  rewrite Nat.div_add by lia. lia.
Qed.

Lemma request_loop_finds (peer : string) (d : gmap string (list string))
    (post : list (gmap string (list string))) (v : descs) :
  scan_notifs peer d = Some v ->
  forall (fuel : nat) (pre : list (gmap string (list string)))
         (rc : Z) (sent : list (string * string)),
    Forall (fun n => scan_notifs peer n = None) pre ->
    (length pre / 3 < fuel)%nat ->
    request_loop fuel peer rc (pre ++ d :: post) sent
    = Done (Some v, post,
            sent ++ replicate (ready_sends rc (S (length pre / 3)))
                      (peer, "READY")).
Proof.
  intros Hd. induction fuel as [|fuel IH]; intros pre rc sent Hpre Hfuel;
    [lia|].
  cbn [Handshake.request_loop].
  destruct pre as [|a [|b [|c pre]]].
  - cbn [app Handshake.check_descs]. rewrite Hd. cbn.
    destruct (rc mod 5 =? 0); cbn; [reflexivity | now rewrite app_nil_r].
  - apply Forall_cons in Hpre as [Ha _].
    cbn [app Handshake.check_descs]. rewrite Ha, Hd. cbn.
    destruct (rc mod 5 =? 0); cbn; [reflexivity | now rewrite app_nil_r].
  - apply Forall_cons in Hpre as [Ha Hpre].
    apply Forall_cons in Hpre as [Hb _].
    cbn [app Handshake.check_descs]. rewrite Ha, Hb, Hd. cbn.
    destruct (rc mod 5 =? 0); cbn; [reflexivity | now rewrite app_nil_r].
  - apply Forall_cons in Hpre as [Ha Hpre].
    apply Forall_cons in Hpre as [Hb Hpre].
    apply Forall_cons in Hpre as [Hc Hpre].
    cbn [app Handshake.check_descs]. rewrite Ha, Hb, Hc.
    cbn [length] in *. rewrite div3_SSS in *.
    rewrite IH by (assumption || lia).
    cbn [ready_sends]. f_equal. f_equal.
    destruct (rc mod 5 =? 0); cbn [Nat.add replicate].
    + now rewrite <- app_assoc.
    + reflexivity.
Qed.

(** C5, as the code has it: the requesting side sends [READY] on the loop
    turns whose number is a multiple of 5 and on no other; every turn
    drains up to three times and scans the drained messages of the peer
    for the prefix [DESCS:].  When the first such message of the history
    is [m] and the deserializer returns descriptors, not [None], for the
    rest of [m] after its 6-byte prefix, the loop ends with these
    descriptors, having left the later drains unread and having sent one
    [READY] for every fifth turn.  This is the loop of [sender_process]
    (peer ["receiver"]) and of [initiator_process] (peer ["target"]). *)
Theorem requester_returns_first_descs (peer : string)
    (pre post : list (gmap string (list string)))
    (d : gmap string (list string)) (l1 l2 : list string) (m : string)
    (v : descs) (sent : list (string * string)) :
  Forall (fun n => no_descs peer n = true) pre ->
  d !! peer = Some (l1 ++ m :: l2) ->
  Forall (fun x => Py.startswith x "DESCS:" = false) l1 ->
  Py.startswith m "DESCS:" = true ->
  deserialize_descs (Py.bytes_from 6 m) = Some v ->
  m = "DESCS:" +:+ Py.bytes_from 6 m /\
  request_descs peer (pre ++ d :: post) sent
  = Done (Some v, post,
          sent ++ replicate (S (length pre / 3 / 5)) (peer, "READY")).
Proof.
  intros Hpre Hd Hl1 Hm Hv. split.
  - now apply (startswith_split "DESCS:" m).
  - unfold Handshake.request_descs.
    rewrite (request_loop_finds peer d post v).
    + now rewrite ready_sends_from_zero.
    + unfold Handshake.scan_notifs. rewrite Hd.
      now rewrite scan_msgs_first.
    + eapply Forall_impl; [exact Hpre|]. intros n. apply no_descs_scan.
    + rewrite length_app. cbn [length].
      assert (length pre / 3 <= length pre)%nat
        by (apply Nat.Div0.div_le_upper_bound; lia).
      lia.
Qed.

(** The turns that send [READY] are those numbered 0, 5, 10, ... *)
Lemma ready_sends_one_turn (rc : Z) :
  ready_sends rc 1 = if rc mod 5 =? 0 then 1%nat else 0%nat.
Proof. cbn. lia. Qed.

End Requester.

Lemma requester_returns_first_descs_witness :
  let d : gmap string (list string) :=
    {[ "receiver" := ["P:16"; "DESCS:blob"; "DESCS:other"] ]} in
  "DESCS:blob" = "DESCS:" +:+ Py.bytes_from 6 "DESCS:blob" /\
  Handshake.request_descs string Some "receiver"
    ([∅; {[ "receiver" := ["READY"] ]}] ++ d :: [∅]) []
  = Done (Some "blob", [∅],
          [] ++ replicate (S (length [(∅ : gmap string (list string));
                                      {[ "receiver" := ["READY"] ]}] / 3 / 5))
                  ("receiver", "READY")).
Proof.
  apply (requester_returns_first_descs string Some "receiver"
           [∅; {[ "receiver" := ["READY"] ]}] [∅]
           {[ "receiver" := ["P:16"; "DESCS:blob"; "DESCS:other"] ]}
           ["P:16"] ["DESCS:other"] "DESCS:blob" "blob" []).
  - repeat constructor.
  - reflexivity.
  - repeat constructor.
  - reflexivity.
  - reflexivity.
Defined.

(** C5 as stated fails when the deserializer returns [None] for the rest
    of the first [DESCS:] message.  The scan of a drain stops at that
    message, so a later [DESCS:] message of the same drain is never looked
    at and the loop is still polling when the history ends; when the next
    [DESCS:] message comes in a later drain, the loop ends with the
    descriptors of that one, not with what the first one deserialized
    to. *)
Lemma first_descs_message_may_not_end_the_loop :
  let deserialize_descs :=
    fun s : string => if String.eqb s "good" then Some 1 else None in
  Py.startswith "DESCS:bad" "DESCS:" = true /\
  deserialize_descs (Py.bytes_from 6 "DESCS:bad") = None /\
  Handshake.request_descs Z deserialize_descs "target"
    [ {[ "target" := ["DESCS:bad"; "DESCS:good"] ]} ] []
  = Starved (None, [], [("target", "READY")]) /\
  Handshake.request_descs Z deserialize_descs "target"
    [ {[ "target" := ["DESCS:bad"] ]}; {[ "target" := ["DESCS:good"] ]} ] []
  = Done (Some 1, [], [("target", "READY")]) /\
  ~ Handshake.ends_with_first_descs Z deserialize_descs "target".
Proof.
  cbn zeta. split; [reflexivity|]. split; [reflexivity|].
  split; [vm_compute; reflexivity|]. split; [vm_compute; reflexivity|].
  intros H.
  destruct (H [] [ {[ "target" := ["DESCS:good"] ]} ]
              {[ "target" := ["DESCS:bad"] ]} [] [] "DESCS:bad" [])
    as (rest & sent' & Hrun).
  - constructor.
  - reflexivity.
  - constructor.
  - reflexivity.
  - vm_compute in Hrun. discriminate.
Qed.

(** Sixteen turns without an answer: [READY] goes out on turns 0, 5, 10
    and 15 only. *)
Example sender_exchange_throttles_ready :
  SenderReceiver.sender_exchange string Some
    (replicate 45 ∅ ++ [ {[ "receiver" := ["DESCS:blob"] ]} ]) []
  = Done (Some "blob", [], replicate 4 ("receiver", "READY")).
Proof. vm_compute. reflexivity. Qed.

Example initiator_exchange_run :
  TwoProc.initiator_exchange string Some
    [ {[ "target" := ["READY"] ]}; {[ "target" := ["DESCS:xy"; "DESCS:z"] ]} ]
    []
  = Done (Some "xy", [], [("target", "READY")]).
Proof. vm_compute. reflexivity. Qed.

(** ** The consumer loop *)

Section Receiver.

Import MemoryUtils SenderReceiver.

(** [Py.str n] is the decimal numeral of [n]: reading it back as one gives
    [n]. *)
Lemma str_is_the_decimal_numeral (n : Z) :
  Z.of_int <$> NilZero.int_of_string (Py.str n) = Some n.
Proof.
  unfold Py.str. pose proof (DecimalZ.of_to n) as Hn.
  destruct (Z.to_int n) as [u|u] eqn:E.
  - destruct u;
      try (rewrite NilZero.isi by discriminate;
           cbn [fmap option_fmap option_map]; now rewrite Hn).
    rewrite NilZero.isi_posnil. cbn. cbn in Hn. now rewrite <- Hn.
  - destruct u;
      try (rewrite NilZero.isi by discriminate;
           cbn [fmap option_fmap option_map]; now rewrite Hn).
    rewrite NilZero.isi_negnil. cbn. cbn in Hn. now rewrite <- Hn.
Qed.

Lemma poll_header_arrived addr expected sched m seq m' sched' :
  poll_header addr expected sched m = Arrived seq m' sched' ->
  seq = expected.
Proof.
  revert m. induction sched as [|pokes sched IH]; intros m; cbn [poll_header].
  - discriminate.
  - destruct (Z.eqb_spec (read_uint64 (land pokes m) addr) expected) as [E|E].
    + intros [= <- _ _]. exact E.
    + apply IH.
Qed.

Lemma write_sentinel m addr :
  write_uint64 m addr SENTINEL = Some (poke_uint64 m addr SENTINEL).
Proof. reflexivity. Qed.

(** What one turn of the loop does to the counters and to the sends. *)
Lemma receiver_iteration_effect g memory_addr sender_name sched s :
  let o := receiver_iteration g memory_addr sender_name sched s in
  let s' := fst (outcome_state o) in
  sequence_mismatches s' = sequence_mismatches s /\
  (if is_done o
   then transfers_received s' = transfers_received s + 1 /\
        r_sent s' = r_sent s ++ progress_note sender_name (transfers_received s) /\
        progress_updates_sent s' =
          progress_updates_sent s
          + Z.of_nat (length (progress_note sender_name (transfers_received s)))
   else transfers_received s' = transfers_received s /\
        r_sent s' = r_sent s /\
        progress_updates_sent s' = progress_updates_sent s).
Proof.
  cbn zeta. unfold receiver_iteration.
  destruct (num_buffers g =? 0); [cbn; auto|].
  destruct (poll_header _ _ sched (r_mem s)) as [seq m sched'|m] eqn:Hp;
    [|cbn; auto].
  apply poll_header_arrived in Hp. subst seq.
  rewrite Z.eqb_refl. cbn [negb]. rewrite write_sentinel.
  unfold progress_note.
  destruct ((transfers_received s + 1) mod PROGRESS_UPDATE_INTERVAL =? 0);
    cbn; repeat split; try reflexivity; try lia.
  now rewrite app_nil_r.
Qed.

Lemma receiver_turns_effect g memory_addr sender_name n :
  forall sched s,
    let o := receiver_turns n g memory_addr sender_name sched s in
    let s' := fst (outcome_state o) in
    sequence_mismatches s' = sequence_mismatches s /\
    transfers_received s <= transfers_received s'
      <= transfers_received s + Z.of_nat n /\
    r_sent s' =
      r_sent s ++
      flat_map (progress_note sender_name)
        (seqZ (transfers_received s)
           (transfers_received s' - transfers_received s)) /\
    progress_updates_sent s' =
      progress_updates_sent s
      + Z.of_nat (length (flat_map (progress_note sender_name)
           (seqZ (transfers_received s)
              (transfers_received s' - transfers_received s)))) /\
    (is_done o = true ->
     transfers_received s' = transfers_received s + Z.of_nat n).
Proof.
  induction n as [|n IH]; intros sched s; cbn zeta.
  - cbn [receiver_turns outcome_state fst is_done].
    rewrite Z.sub_diag, (seqZ_nil _ 0) by lia.
    cbn [flat_map length Z.of_nat]. rewrite app_nil_r.
    repeat split; try reflexivity; lia.
  - cbn [receiver_turns].
    pose proof (receiver_iteration_effect g memory_addr sender_name sched s)
      as Hit. cbn zeta in Hit.
    destruct (receiver_iteration g memory_addr sender_name sched s)
      as [[s1 sched1]|[s1 sched1]|[s1 sched1]];
      cbn [outcome_state fst is_done] in Hit |- *.
    + destruct Hit as (Hm & Htr & Hsent & Hups).
      specialize (IH sched1 s1). cbn zeta in IH.
      destruct IH as (IHm & IHtr & IHsent & IHups & IHdone).
      set (o := receiver_turns n g memory_addr sender_name sched1 s1) in *.
      set (s' := fst (outcome_state o)) in *.
      assert (Hseq : seqZ (transfers_received s)
                       (transfers_received s' - transfers_received s)
                     = transfers_received s ::
                       seqZ (transfers_received s1)
                         (transfers_received s' - transfers_received s1)).
      { rewrite seqZ_cons by lia. rewrite Htr. f_equal. f_equal; lia. }
      rewrite Hseq. cbn [flat_map].
      repeat split; try lia.
      * rewrite IHsent, Hsent. now rewrite <- app_assoc.
      * rewrite IHups, Hups, length_app. lia.
      * intros Hd. rewrite IHdone by exact Hd. lia.
    + destruct Hit as (Hm & Htr & Hsent & Hups).
      rewrite Htr, Z.sub_diag, (seqZ_nil _ 0) by lia.
      cbn [flat_map length Z.of_nat]. rewrite app_nil_r.
      repeat split; try assumption; try lia; discriminate.
    + destruct Hit as (Hm & Htr & Hsent & Hups).
      rewrite Htr, Z.sub_diag, (seqZ_nil _ 0) by lia.
      cbn [flat_map length Z.of_nat]. rewrite app_nil_r.
      repeat split; try assumption; try lia; discriminate.
Qed.

(** C8: the transfers the consumer loop accepts are those numbered from
    its start value up to the value of [transfers_received] it ends with,
    in order; for each accepted [i] it sends one notification to the
    sender, ["P:"] followed by the decimal rendering of [i + 1], when
    [i + 1] is a multiple of the progress interval, and nothing otherwise.
    A loop that runs to its end has accepted every index below
    [num_transfers]. *)
Theorem receiver_progress_notifications (g : globals) (memory_addr : Z)
    (sender_name : string) (sched : list (list (Z * Z)))
    (s : receiver_state) :
  let o := receiver_loop g memory_addr sender_name sched s in
  let s' := fst (outcome_state o) in
  transfers_received s <= transfers_received s' /\
  r_sent s' =
    r_sent s ++
    flat_map
      (fun i => if (i + 1) mod PROGRESS_UPDATE_INTERVAL =? 0
                then [(sender_name, "P:" +:+ Py.str (i + 1))]
                else [])
      (seqZ (transfers_received s)
         (transfers_received s' - transfers_received s)) /\
  progress_updates_sent s' - progress_updates_sent s =
    Z.of_nat (length (r_sent s')) - Z.of_nat (length (r_sent s)) /\
  (is_done o = true ->
   transfers_received s' = Z.max (transfers_received s) (num_transfers g)).
Proof.
  cbn zeta. unfold receiver_loop.
  pose proof (receiver_turns_effect g memory_addr sender_name
                (Z.to_nat (num_transfers g - transfers_received s)) sched s)
    as H. cbn zeta in H.
  destruct H as (_ & Htr & Hsent & Hups & Hdone).
  split; [lia|]. split; [exact Hsent|]. split.
  - rewrite Hups. rewrite Hsent at 1. rewrite length_app. lia.
  - intros Hd. rewrite Hdone by exact Hd. lia.
Qed.

(** The mismatch counter never moves, whatever the headers read. *)
Lemma receiver_never_counts_a_mismatch (g : globals) (memory_addr : Z)
    (sender_name : string) (sched : list (list (Z * Z)))
    (s : receiver_state) :
  sequence_mismatches
    (fst (outcome_state (receiver_loop g memory_addr sender_name sched s)))
  = sequence_mismatches s.
Proof.
  unfold receiver_loop.
  apply (receiver_turns_effect g memory_addr sender_name
           (Z.to_nat (num_transfers g - transfers_received s)) sched s).
Qed.

End Receiver.

(** C1 at a failing input: the receiver expects transfer 0 in slot 0, its
    first read of the header returns 64, a value that is neither the
    expected index nor the sentinel, and its second read returns 0.  The
    loop accepts the transfer and ends with [sequence_mismatches = 0]: the
    read of 64 was not counted. *)
Theorem receiver_overrun_goes_uncounted :
  let m0 := Scenarios.all_ones in
  let first_read :=
    MemoryUtils.read_uint64
      (SenderReceiver.land [(Scenarios.slot0, 64)] m0) Scenarios.slot0 in
  first_read = 64 /\
  first_read <> 0 /\
  first_read <> SenderReceiver.SENTINEL /\
  exists s',
    SenderReceiver.receiver_loop Scenarios.one_transfer
      Scenarios.receiver_addr "sender" Scenarios.overrun_then_expected
      (SenderReceiver.receiver_init m0) = Done (s', []) /\
    SenderReceiver.transfers_received s' = 1 /\
    SenderReceiver.sequence_mismatches s' = 0.
Proof.
  cbn zeta. split; [vm_compute; reflexivity|].
  split; [vm_compute; discriminate|].
  split; [vm_compute; discriminate|].
  eexists. split; [vm_compute; reflexivity|]. split; reflexivity.
Qed.

(** When the wrong header stays, the loop spins on it without counting. *)
Example receiver_spins_on_overrun :
  exists s',
    SenderReceiver.receiver_loop Scenarios.one_transfer
      Scenarios.receiver_addr "sender" Scenarios.overrun_for_good
      (SenderReceiver.receiver_init Scenarios.all_ones) = Starved (s', []) /\
    SenderReceiver.transfers_received s' = 0 /\
    SenderReceiver.sequence_mismatches s' = 0.
Proof.
  eexists. split; [vm_compute; reflexivity|]. split; reflexivity.
Qed.

(** ** The producer loop: backpressure and progress *)

Section SenderInvariant.

Import MemoryUtils SenderReceiver.

Local Abbreviation K := BACKPRESSURE_THRESHOLD.

Ltac conj := repeat match goal with |- _ /\ _ => split end.

Lemma threshold_nonneg : 0 <= K.
Proof. discriminate. Qed.


Lemma sender_inv_init m : sender_inv (sender_init m).
Proof.
  unfold sender_inv, inv4. cbn. pose proof threshold_nonneg.
  repeat split; try lia; repeat constructor; lia.
Qed.

Lemma progress_values_snoc tr ev :
  progress_values (tr ++ [ev]) =
  progress_values tr ++
  match ev with Ev_progress p => [p] | _ => [] end.
Proof.
  unfold progress_values. rewrite omap_app. f_equal. now destruct ev.
Qed.

Lemma inv4_log sent progress mx tr ev :
  inv4 sent progress mx tr ->
  within_backpressure ev ->
  (forall p, ev <> Ev_progress p) ->
  inv4 sent progress mx (tr ++ [ev]).
Proof.
  intros (Ha & Hm & Hev & Hs & Hle & Hl) Hok Hnp.
  unfold inv4. rewrite progress_values_snoc.
  assert (Hnil : match ev with Ev_progress p => [p] | _ => [] end = [])
    by (destruct ev; try reflexivity; now destruct (Hnp progress0)).
  rewrite Hnil, app_nil_r. repeat split; try assumption.
  apply Forall_app. split; [assumption | now constructor].
Qed.

Lemma inv4_progress sent progress mx tr p :
  inv4 sent progress mx tr ->
  progress < p ->
  inv4 sent p mx (tr ++ [Ev_progress p]).
Proof.
  intros (Ha & Hm & Hev & Hs & Hle & Hl) Hlt.
  unfold inv4. rewrite progress_values_snoc.
  change (0 :: progress_values tr ++ [p])
    with ((0 :: progress_values tr) ++ [p]).
  repeat split; try assumption; try lia.
  - apply Forall_app. split; [assumption | now repeat constructor].
  - apply StronglySorted_app_2; [|assumption|repeat constructor].
    intros x1 x2 Hx1 Hx2. apply list_elem_of_singleton in Hx2. subst x2.
    rewrite Forall_forall in Hle. specialize (Hle x1 Hx1). lia.
  - apply Forall_app. split.
    + eapply Forall_impl; [exact Hle|]. intros x Hx. cbn in Hx. lia.
    + repeat constructor. lia.
  - apply last_snoc.
Qed.

Lemma inv4_weaken sent sent' progress mx mx' tr :
  inv4 sent progress mx tr ->
  sent' - progress <= K -> mx' <= K ->
  inv4 sent' progress mx' tr.
Proof.
  intros (Ha & Hm & Hrest) Hs Hmx. unfold inv4. tauto.
Qed.

Lemma update_progress_inv msgs :
  forall s,
    sender_inv s ->
    let s' := outcome_state (update_progress msgs s) in
    sender_inv s' /\
    transfers_sent s' = transfers_sent s /\
    receiver_progress s <= receiver_progress s'.
Proof.
  induction msgs as [|msg msgs IH]; intros s Hinv; cbn zeta.
  - cbn. conj; [assumption | reflexivity | lia].
  - cbn [update_progress].
    destruct (Py.startswith msg "P:"); [|now apply IH].
    destruct (Py.int (Py.bytes_from 2 msg)) as [progress|].
    + destruct (Z.ltb_spec (receiver_progress s) progress) as [Hlt|Hge].
      * destruct (IH (set_progress progress s)) as (Hi & Ht & Hp).
        { unfold sender_inv, set_progress. cbn.
          eapply inv4_progress; [exact Hinv | exact Hlt]. }
        conj; [assumption | rewrite Ht; reflexivity | cbn in Hp; lia].
      * now apply IH.
    + cbn. conj; [assumption | reflexivity | lia].
Qed.

Lemma drain_progress_inv name notifs s :
  sender_inv s ->
  let s' := outcome_state (drain_progress name notifs s) in
  sender_inv s' /\
  transfers_sent s' = transfers_sent s /\
  receiver_progress s <= receiver_progress s'.
Proof.
  intros Hinv. unfold drain_progress.
  destruct (notifs !! name) as [msgs|].
  - now apply update_progress_inv.
  - cbn. conj; [assumption | reflexivity | lia].
Qed.

Lemma backpressure_wait_inv name inbox :
  forall s,
    sender_inv s ->
    let o := backpressure_wait name inbox s in
    let s' := fst (outcome_state o) in
    sender_inv s' /\
    transfers_sent s' = transfers_sent s /\
    (is_done o = true ->
     transfers_sent s' - receiver_progress s' < K).
Proof.
  induction inbox as [|notifs inbox IH]; intros s Hinv; cbn zeta.
  - cbn. conj; [assumption | reflexivity | discriminate].
  - cbn [backpressure_wait].
    pose proof (drain_progress_inv name notifs s Hinv) as Hd.
    cbn zeta in Hd.
    destruct (drain_progress name notifs s) as [s1|s1|s1];
      cbn [outcome_state] in Hd; destruct Hd as (Hi1 & Ht1 & Hp1).
    + assert (Hi2 : sender_inv
                      (log (Ev_ahead (transfers_sent s1 - receiver_progress s1))
                         s1)).
      { unfold sender_inv, log. cbn. apply inv4_log; try assumption.
        - cbn. apply Hi1.
        - discriminate. }
      destruct (Z.leb_spec K (transfers_sent s1 - receiver_progress s1))
        as [Hge|Hlt].
      * match goal with
        | |- context [backpressure_wait name inbox ?s2] =>
            destruct (IH s2) as (Hi & Ht & Hdone)
        end.
        { exact Hi2. }
        conj; [assumption | rewrite Ht; cbn; lia | assumption].
      * cbn. conj; [exact Hi2 | assumption | intros _; lia].
    + cbn. conj; [assumption | assumption | discriminate].
    + cbn. conj; [assumption | assumption | discriminate].
Qed.

Lemma backpressure_gate_inv name inbox s :
  sender_inv s ->
  let o := backpressure_gate name inbox s in
  let s' := fst (outcome_state o) in
  sender_inv s' /\
  transfers_sent s' = transfers_sent s /\
  (is_done o = true ->
   transfers_sent s' - receiver_progress s' < K).
Proof.
  intros Hinv. cbn zeta. unfold backpressure_gate.
  assert (Hahead : transfers_sent s - receiver_progress s <= K)
    by apply Hinv.
  set (ahead := transfers_sent s - receiver_progress s) in *.
  assert (Hi1 : inv4 (transfers_sent s) (receiver_progress s)
                  (if max_ahead s <? ahead then ahead else max_ahead s)
                  (trace s ++ [Ev_ahead ahead])).
  { apply inv4_log; [|exact Hahead|discriminate].
    eapply inv4_weaken; [exact Hinv| exact Hahead |].
    destruct (max_ahead s <? ahead); [exact Hahead | apply Hinv]. }
  destruct (Z.leb_spec K ahead) as [Hge|Hlt].
  - match goal with
    | |- context [backpressure_wait name inbox ?s2] =>
        destruct (backpressure_wait_inv name inbox s2) as (Hi & Ht & Hdone)
    end.
    { exact Hi1. }
    conj; [assumption | rewrite Ht; reflexivity | assumption].
  - cbn. conj; [exact Hi1 | reflexivity | intros _; lia].
Qed.

Lemma wait_xfer_inv slot states :
  forall s,
    sender_inv s ->
    let s' := fst (outcome_state (wait_xfer slot states s)) in
    sender_inv s' /\
    transfers_sent s' = transfers_sent s /\
    receiver_progress s' = receiver_progress s /\
    s_mem s' = s_mem s.
Proof.
  induction states as [|r states IH]; intros s Hinv; cbn zeta.
  - cbn. conj; assumption || reflexivity.
  - cbn [wait_xfer].
    assert (Hi1 : sender_inv (log (Ev_check_xfer_state slot r) s)).
    { unfold sender_inv, log. cbn.
      apply inv4_log; [assumption | exact I | discriminate]. }
    destruct r as [[| |]|]; try (cbn; conj; assumption || reflexivity).
    destruct (IH _ Hi1) as (Hi & Ht & Hp & Hm).
    conj; [assumption | rewrite Ht | rewrite Hp | rewrite Hm]; reflexivity.
Qed.

Lemma refresh_progress_inv name inbox s :
  sender_inv s ->
  let s' := fst (outcome_state (refresh_progress name inbox s)) in
  sender_inv s' /\ transfers_sent s' = transfers_sent s.
Proof.
  intros Hinv. cbn zeta. unfold refresh_progress.
  destruct (transfers_sent s mod PROGRESS_UPDATE_INTERVAL =? 0);
    [|cbn; now split].
  destruct inbox as [|notifs inbox]; [cbn; now split|].
  pose proof (drain_progress_inv name notifs s Hinv) as Hd. cbn zeta in Hd.
  destruct (drain_progress name notifs s) as [s1|s1|s1];
    cbn in Hd |- *; tauto.
Qed.


Lemma sender_iteration_inv g buffers_addr name env s :
  sender_inv s ->
  sender_inv (turn_state (sender_iteration g buffers_addr name env s)).
Proof.
  intros Hinv. unfold sender_iteration, turn_state.
  destruct (num_buffers g =? 0); [exact Hinv|].
  destruct (seqZ 0 (num_buffers g) !! _) as [slot|]; [|exact Hinv].
  pose proof (backpressure_gate_inv name (inbox env) s Hinv) as Hg.
  cbn zeta in Hg.
  destruct (backpressure_gate name (inbox env) s)
    as [[s1 inbox1]|[s1 inbox1]|[s1 inbox1]];
    cbn [outcome_state fst snd is_done] in Hg |- *;
    destruct Hg as (Hi1 & Ht1 & Hlt1); try exact Hi1.
  specialize (Hlt1 eq_refl).
  pose proof (wait_xfer_inv slot (xfer_states env) s1 Hi1) as Hw.
  cbn zeta in Hw.
  destruct (wait_xfer slot (xfer_states env) s1)
    as [[s2 states2]|[s2 states2]|[s2 states2]];
    cbn [outcome_state fst snd] in Hw |- *;
    destruct Hw as (Hi2 & Ht2 & Hp2 & Hm2); try exact Hi2.
  destruct (write_uint64 (s_mem s2) _ (transfers_sent s2)) as [m3|];
    [|exact Hi2].
  destruct (transfer_results env) as [|state results']; [exact Hi2|].
  assert (Hi4 : inv4 (transfers_sent s2) (receiver_progress s2) (max_ahead s2)
                  (trace s2 ++
                   [Ev_transfer slot (transfers_sent s2)
                      (receiver_progress s2) state])).
  { apply inv4_log; [exact Hi2 | cbn; lia | discriminate]. }
  assert (Hi5 : inv4 (transfers_sent s2 + 1) (receiver_progress s2)
                  (max_ahead s2)
                  (trace s2 ++
                   [Ev_transfer slot (transfers_sent s2)
                      (receiver_progress s2) state])).
  { eapply inv4_weaken; [exact Hi4 | lia | apply Hi2]. }
  destruct state; cbn [log trace transfers_sent receiver_progress max_ahead
                         s_mem backpressure_checks backpressure_waits];
    try exact Hi4.
  all: match goal with
       | |- context [refresh_progress ?nm ?ib ?s5] =>
           pose proof (refresh_progress_inv nm ib s5 Hi5) as Hr;
           cbn zeta in Hr;
           destruct (refresh_progress nm ib s5)
             as [[s6 inbox2]|[s6 inbox2]|[s6 inbox2]];
           cbn [outcome_state fst snd] in Hr |- *; apply Hr
       end.
Qed.

Lemma sender_turns_inv g buffers_addr name n :
  forall env s,
    sender_inv s ->
    sender_inv
      (fst (outcome_state (sender_turns n g buffers_addr name env s))).
Proof.
  induction n as [|n IH]; intros env s Hinv; [exact Hinv|].
  cbn [sender_turns].
  pose proof (sender_iteration_inv g buffers_addr name env s Hinv) as Hit.
  unfold turn_state in Hit.
  destruct (sender_iteration g buffers_addr name env s)
    as [[[[|] s1] env1]|[[b s1] env1]|[[b s1] env1]];
    cbn [outcome_state fst snd] in Hit |- *; try exact Hit.
  now apply IH.
Qed.

Lemma drain_handles_inv slots :
  forall states s,
    sender_inv s ->
    sender_inv (fst (outcome_state (drain_handles slots states s))).
Proof.
  induction slots as [|slot slots IH]; intros states s Hinv; [exact Hinv|].
  cbn [drain_handles].
  pose proof (wait_xfer_inv slot states s Hinv) as Hw. cbn zeta in Hw.
  destruct (wait_xfer slot states s)
    as [[s1 states1]|[s1 states1]|[s1 states1]];
    cbn [outcome_state fst] in Hw |- *; destruct Hw as (Hi & _).
  - now apply IH.
  - exact Hi.
  - exact Hi.
Qed.

Lemma cleanup_inv g s : sender_inv s -> sender_inv (cleanup g s).
Proof.
  unfold sender_inv, cleanup, cleanup_events. cbn.
  generalize (transfers_sent s) (receiver_progress s) (max_ahead s) (trace s).
  intros sent progress mx tr Hinv.
  rewrite app_assoc.
  assert (Hrel : inv4 sent progress mx
                   (tr ++ (Ev_release_xfer_handle <$> seqZ 0 (num_buffers g)))).
  { induction (seqZ 0 (num_buffers g)) as [|x l IHl] using rev_ind.
    - cbn. now rewrite app_nil_r.
    - rewrite fmap_app, app_assoc. cbn.
      apply inv4_log; [exact IHl | exact I | discriminate]. }
  change [Ev_release_dlist_handle true; Ev_release_dlist_handle false;
          Ev_deregister_memory; Ev_free]
    with ([Ev_release_dlist_handle true] ++ [Ev_release_dlist_handle false]
          ++ [Ev_deregister_memory] ++ [Ev_free]).
  rewrite !app_assoc.
  repeat (apply inv4_log; [| exact I | discriminate]).
  exact Hrel.
Qed.

Lemma sender_stream_inv g buffers_addr name env s :
  sender_inv s ->
  sender_inv (fst (outcome_state (sender_stream g buffers_addr name env s))).
Proof.
  intros Hinv. unfold sender_stream, sender_loop.
  pose proof (sender_turns_inv g buffers_addr name
                (Z.to_nat (num_transfers g - transfers_sent s)) env s Hinv)
    as H1.
  destruct (sender_turns _ g buffers_addr name env s)
    as [[s1 env1]|[s1 env1]|[s1 env1]];
    cbn [outcome_state fst] in H1 |- *; try exact H1.
  pose proof (drain_handles_inv (seqZ 0 (num_buffers g)) (xfer_states env1)
                s1 H1) as H2.
  destruct (drain_handles _ (xfer_states env1) s1)
    as [[s2 st2]|[s2 st2]|[s2 st2]];
    cbn [outcome_state fst] in H2 |- *; try exact H2.
  now apply cleanup_inv.
Qed.

(** C2: in every run of the producer from its initial state, whatever the
    notifications, transfer states and results, each transfer is issued
    with [transfers_sent - receiver_progress] below the threshold [K], and
    every value [ahead_count] takes, at the head of a turn or inside the
    gate, is at most [K]: the lead never exceeds [K], so a fortiori never
    by more than one issue.  The same holds of the variables when the run
    stops, and of [max_ahead]. *)
Theorem backpressure_bounds_the_lead (g : globals) (buffers_addr : Z)
    (receiver_name : string) (env : sender_env) (m : memory) :
  let s' :=
    fst (outcome_state
           (sender_stream g buffers_addr receiver_name env (sender_init m))) in
  (forall slot i progress r,
     Ev_transfer slot i progress r ∈ trace s' ->
     i - progress < BACKPRESSURE_THRESHOLD) /\
  (forall ahead_count,
     Ev_ahead ahead_count ∈ trace s' ->
     ahead_count <= BACKPRESSURE_THRESHOLD /\
     ahead_count <= BACKPRESSURE_THRESHOLD + 1) /\
  max_ahead s' <= BACKPRESSURE_THRESHOLD /\
  transfers_sent s' - receiver_progress s' <= BACKPRESSURE_THRESHOLD.
Proof.
  cbn zeta.
  pose proof (sender_stream_inv g buffers_addr receiver_name env
                (sender_init m) (sender_inv_init m)) as Hinv.
  destruct Hinv as (Ha & Hm & Hev & _).
  rewrite Forall_forall in Hev.
  split; [|split; [|split]]; try assumption.
  - intros slot i progress r Hin. exact (Hev _ Hin).
  - intros a Hin. pose proof (Hev _ Hin) as H. cbn in H. lia.
Qed.

Lemma strictly_increasing_non_decreasing (l : list Z) :
  StronglySorted Z.lt l -> StronglySorted Z.le l.
Proof.
  induction 1 as [|x l Hs IH Hx]; constructor.
  - exact IH.
  - eapply Forall_impl; [exact Hx|]. intros y Hy. cbn in Hy. lia.
Qed.

(** C3: in every run of the producer the values [receiver_progress]
    takes, from its initial 0 through every assignment at either drain
    site, are strictly increasing, hence non-decreasing, whatever
    notifications are delivered and in whatever order; the variable holds
    the last of them. *)
Theorem receiver_progress_is_monotone (g : globals) (buffers_addr : Z)
    (receiver_name : string) (env : sender_env) (m : memory) :
  let s' :=
    fst (outcome_state
           (sender_stream g buffers_addr receiver_name env (sender_init m))) in
  let history := 0 :: progress_values (trace s') in
  StronglySorted Z.lt history /\
  StronglySorted Z.le history /\
  last history = Some (receiver_progress s').
Proof.
  cbn zeta.
  pose proof (sender_stream_inv g buffers_addr receiver_name env
                (sender_init m) (sender_inv_init m)) as Hinv.
  destruct Hinv as (_ & _ & _ & Hs & _ & Hl).
  split; [exact Hs|]. split; [|exact Hl].
  now apply strictly_increasing_non_decreasing.
Qed.

(** One drain: the variable only moves up, by values found in the
    messages. *)
Lemma update_progress_monotone (msgs : list string) (s : sender_state) :
  receiver_progress s
  <= receiver_progress (outcome_state (update_progress msgs s)).
Proof.
  revert s. induction msgs as [|msg msgs IH]; intros s;
    cbn [update_progress outcome_state]; [lia|].
  destruct (Py.startswith msg "P:"); [|apply IH].
  destruct (Py.int (Py.bytes_from 2 msg)) as [p|];
    [|cbn [outcome_state]; lia].
  destruct (Z.ltb_spec (receiver_progress s) p); [|apply IH].
  etransitivity; [|apply IH]. cbn. lia.
Qed.

End SenderInvariant.

(** ** The producer loop: a failed issue and the shutdown drain *)

Section SenderShutdown.

Import MemoryUtils SenderReceiver.

Lemma quiet_no_err ev : quiet ev -> no_err ev.
Proof. destruct ev; cbn; try tauto. Qed.

Lemma update_progress_trace msgs :
  forall s s',
    update_progress msgs s = Done s' ->
    transfers_sent s' = transfers_sent s /\
    exists new, trace s' = trace s ++ new /\ Forall quiet new.
Proof.
  induction msgs as [|msg msgs IH]; intros s s'; cbn [update_progress].
  - intros [= <-]. split; [reflexivity|]. exists []. now rewrite app_nil_r.
  - destruct (Py.startswith msg "P:"); [|apply IH].
    destruct (Py.int (Py.bytes_from 2 msg)) as [p|]; [|discriminate].
    destruct (receiver_progress s <? p); [|apply IH].
    intros H. apply IH in H. cbn in H.
    destruct H as (Ht & new & Htr & Hq). split; [exact Ht|].
    exists (Ev_progress p :: new). split.
    + rewrite Htr, <- app_assoc. reflexivity.
    + constructor; [exact I | exact Hq].
Qed.

Lemma drain_progress_trace name notifs s s' :
  drain_progress name notifs s = Done s' ->
  transfers_sent s' = transfers_sent s /\
  exists new, trace s' = trace s ++ new /\ Forall quiet new.
Proof.
  unfold drain_progress. destruct (notifs !! name).
  - apply update_progress_trace.
  - intros [= <-]. split; [reflexivity|]. exists []. now rewrite app_nil_r.
Qed.

Lemma backpressure_wait_trace name inbox :
  forall s s' inbox',
    backpressure_wait name inbox s = Done (s', inbox') ->
    transfers_sent s' = transfers_sent s /\
    exists new, trace s' = trace s ++ new /\ Forall quiet new.
Proof.
  induction inbox as [|notifs inbox IH]; intros s s' inbox';
    cbn [backpressure_wait]; [discriminate|].
  destruct (drain_progress name notifs s) as [s1|s1|s1] eqn:Hd;
    try discriminate.
  apply drain_progress_trace in Hd as (Ht1 & new1 & Htr1 & Hq1).
  destruct (BACKPRESSURE_THRESHOLD <=? _).
  - intros H. apply IH in H. cbn in H.
    destruct H as (Ht & new & Htr & Hq). split; [lia|].
    exists (new1 ++ Ev_ahead (transfers_sent s1 - receiver_progress s1) :: new).
    split.
    + rewrite Htr, Htr1, <- !app_assoc. reflexivity.
    + apply Forall_app. split; [exact Hq1|]. constructor; [exact I|exact Hq].
  - intros [= <- <-]. cbn. split; [exact Ht1|].
    exists (new1 ++ [Ev_ahead (transfers_sent s1 - receiver_progress s1)]).
    split.
    + rewrite Htr1, <- app_assoc. reflexivity.
    + apply Forall_app. split; [exact Hq1|]. repeat constructor.
Qed.

Lemma backpressure_gate_trace name inbox s s' inbox' :
  backpressure_gate name inbox s = Done (s', inbox') ->
  transfers_sent s' = transfers_sent s /\
  exists new, trace s' = trace s ++ new /\ Forall quiet new.
Proof.
  unfold backpressure_gate. destruct (BACKPRESSURE_THRESHOLD <=? _).
  - intros H. apply backpressure_wait_trace in H. cbn in H.
    destruct H as (Ht & new & Htr & Hq). split; [exact Ht|].
    exists (Ev_ahead (transfers_sent s - receiver_progress s) :: new). split.
    + rewrite Htr, <- app_assoc. reflexivity.
    + constructor; [exact I|exact Hq].
  - intros [= <- <-]. cbn. split; [reflexivity|].
    eexists. split; [reflexivity|]. repeat constructor.
Qed.

Lemma wait_xfer_trace slot states :
  forall s s' states',
    wait_xfer slot states s = Done (s', states') ->
    transfers_sent s' = transfers_sent s /\
    exists new, trace s' = trace s ++ new /\ drained slot new.
Proof.
  induction states as [|r states IH]; intros s s' states';
    cbn [wait_xfer]; [discriminate|].
  assert (Hstop : r <> State PROC ->
                  Done (log (Ev_check_xfer_state slot r) s, states)
                  = Done (s', states') ->
                  transfers_sent s' = transfers_sent s /\
                  exists new, trace s' = trace s ++ new /\ drained slot new).
  { intros Hr [= <- <-]. cbn. split; [reflexivity|].
    eexists. split; [reflexivity|]. exists 0%nat, r. now split. }
  destruct r as [[| |]|]; try (apply Hstop; discriminate).
  intros H. apply IH in H. cbn in H.
  destruct H as (Ht & new & Htr & k & r & -> & Hr). split; [exact Ht|].
  eexists. split.
  - rewrite Htr, <- app_assoc. reflexivity.
  - exists (S k), r. now split.
Qed.

Lemma drained_quiet slot evs : drained slot evs -> Forall quiet evs.
Proof.
  intros (k & r & -> & _). apply Forall_app. split.
  - apply Forall_forall. intros ev Hin.
    apply elem_of_replicate in Hin as [-> _]. exact I.
  - repeat constructor.
Qed.

Lemma refresh_progress_trace name inbox s s' inbox' :
  refresh_progress name inbox s = Done (s', inbox') ->
  transfers_sent s' = transfers_sent s /\
  exists new, trace s' = trace s ++ new /\ Forall quiet new.
Proof.
  unfold refresh_progress.
  destruct (transfers_sent s mod PROGRESS_UPDATE_INTERVAL =? 0).
  - destruct inbox as [|notifs inbox]; [discriminate|].
    destruct (drain_progress name notifs s) as [s1|s1|s1] eqn:Hd;
      try discriminate.
    intros [= <- <-]. now apply drain_progress_trace in Hd.
  - intros [= <- <-]. split; [reflexivity|]. exists [].
    now rewrite app_nil_r.
Qed.

(** One turn that runs to its end: either it leaves the loop on a failed
    issue, which is then its last event and leaves [transfers_sent] as it
    was, or it issued a transfer that did not fail and counted it. *)
Lemma sender_iteration_trace g buffers_addr name env s b s' env' :
  sender_iteration g buffers_addr name env s = Done (b, s', env') ->
  exists new slot progress r,
    Forall quiet new /\
    if b then
      r = ERR /\
      transfers_sent s' = transfers_sent s /\
      trace s' = trace s ++ new
                 ++ [Ev_transfer slot (transfers_sent s) progress r]
    else
      r <> ERR /\
      transfers_sent s' = transfers_sent s + 1 /\
      exists new2,
        Forall quiet new2 /\
        trace s' = trace s ++ new
                   ++ Ev_transfer slot (transfers_sent s) progress r :: new2.
Proof.
  unfold sender_iteration.
  destruct (num_buffers g =? 0); [discriminate|].
  destruct (seqZ 0 (num_buffers g) !! _) as [slot|]; [|discriminate].
  destruct (backpressure_gate name (inbox env) s)
    as [[s1 inbox1]|[s1 inbox1]|[s1 inbox1]] eqn:Hg; try discriminate.
  apply backpressure_gate_trace in Hg as (Ht1 & new1 & Htr1 & Hq1).
  destruct (wait_xfer slot (xfer_states env) s1)
    as [[s2 states2]|[s2 states2]|[s2 states2]] eqn:Hw; try discriminate.
  apply wait_xfer_trace in Hw as (Ht2 & new2 & Htr2 & Hdr).
  apply drained_quiet in Hdr.
  destruct (write_uint64 (s_mem s2) _ (transfers_sent s2)) as [m3|];
    [|discriminate].
  destruct (transfer_results env) as [|state results']; [discriminate|].
  assert (Hq12 : Forall quiet (new1 ++ new2))
    by (apply Forall_app; now split).
  assert (Htr12 : trace s2 = trace s ++ new1 ++ new2)
    by (rewrite Htr2, Htr1, <- app_assoc; reflexivity).
  assert (Hts : transfers_sent s2 = transfers_sent s) by lia.
  destruct state.
  1, 2: cbn [log trace transfers_sent receiver_progress max_ahead s_mem
              backpressure_checks backpressure_waits];
        match goal with
        | |- context [refresh_progress ?nm ?ib ?s5] =>
            destruct (refresh_progress nm ib s5)
              as [[s6 inbox2]|[s6 inbox2]|[s6 inbox2]] eqn:Hr;
            try discriminate
        end;
        apply refresh_progress_trace in Hr as (Ht6 & new6 & Htr6 & Hq6);
        cbn in Ht6, Htr6;
        intros [= <- <- <-];
        eexists (new1 ++ new2), slot, (receiver_progress s2), _;
        (split; [exact Hq12|]);
        (split;
         [|split;
           [lia
           |exists new6; split;
            [exact Hq6
            |rewrite Htr6, Htr12, Hts, <- !app_assoc; reflexivity]]]);
        discriminate.
  intros [= <- <- <-]. cbn.
  exists (new1 ++ new2), slot, (receiver_progress s2), ERR.
  split; [exact Hq12|]. split; [reflexivity|]. split; [exact Hts|].
  rewrite Htr12, Hts, <- !app_assoc. reflexivity.
Qed.

(** The loop that runs to its end: no issue failed, or the failed issue is
    the last event and [transfers_sent] is its index. *)
Lemma sender_turns_trace g buffers_addr name n :
  forall env s s' env',
    sender_turns n g buffers_addr name env s = Done (s', env') ->
    exists new,
      trace s' = trace s ++ new /\
      (Forall no_err new \/
       exists new' slot progress,
         new = new' ++ [Ev_transfer slot (transfers_sent s') progress ERR] /\
         Forall no_err new').
Proof.
  induction n as [|n IH]; intros env s s' env'; cbn [sender_turns].
  - intros [= <- <-]. exists []. rewrite app_nil_r. split; [reflexivity|].
    left. constructor.
  - destruct (sender_iteration g buffers_addr name env s)
      as [[[b s1] env1]|[[b s1] env1]|[[b s1] env1]] eqn:Hit;
      try discriminate.
    apply sender_iteration_trace in Hit
      as (new & slot & progress & r & Hq & Hit).
    pose proof (Forall_impl _ _ _ Hq quiet_no_err) as Hne.
    destruct b.
    + destruct Hit as (-> & Hts & Htr). intros [= <- <-].
      exists (new ++ [Ev_transfer slot (transfers_sent s) progress ERR]).
      split; [exact Htr|]. right.
      exists new, slot, progress. rewrite Hts. now split.
    + destruct Hit as (Hr & Hts & new2 & Hq2 & Htr).
      pose proof (Forall_impl _ _ _ Hq2 quiet_no_err) as Hne2.
      intros H. apply IH in H as (new3 & Htr3 & Hcase).
      assert (Hhead : Forall no_err
                        (new ++ Ev_transfer slot (transfers_sent s) progress r
                             :: new2)).
      { apply Forall_app. split; [exact Hne|].
        constructor; [now destruct r | exact Hne2]. }
      exists ((new ++ Ev_transfer slot (transfers_sent s) progress r :: new2)
              ++ new3).
      split; [rewrite Htr3, Htr, <- !app_assoc; reflexivity|].
      destruct Hcase as [Hall|(new' & slot' & progress' & -> & Hall)].
      * left. apply Forall_app. now split.
      * right. eexists _, slot', progress'. rewrite app_assoc.
        split; [reflexivity|]. apply Forall_app. now split.
Qed.

Lemma drain_handles_trace slots :
  forall states s s' states',
    drain_handles slots states s = Done (s', states') ->
    transfers_sent s' = transfers_sent s /\
    exists segs,
      trace s' = trace s ++ concat segs /\ Forall2 drained slots segs.
Proof.
  induction slots as [|slot slots IH]; intros states s s' states';
    cbn [drain_handles].
  - intros [= <- <-]. split; [reflexivity|]. exists [].
    cbn. rewrite app_nil_r. split; [reflexivity | constructor].
  - destruct (wait_xfer slot states s)
      as [[s1 states1]|[s1 states1]|[s1 states1]] eqn:Hw; try discriminate.
    apply wait_xfer_trace in Hw as (Ht1 & new1 & Htr1 & Hd1).
    intros H. apply IH in H as (Ht & segs & Htr & Hall).
    split; [lia|]. exists (new1 :: segs). split.
    + cbn [concat]. rewrite Htr, Htr1, <- app_assoc. reflexivity.
    + now constructor.
Qed.

(** A list holds at most one element that fails [Q], so a split around
    such an element is the only one. *)
Lemma split_at_the_only (Q : event -> Prop) (x y : event) :
  forall l1 l2 l1' l2' : list event,
    l1 ++ x :: l2 = l1' ++ y :: l2' ->
    ~ Q x -> Forall Q l1' -> Forall Q l2' ->
    l1 = l1' /\ x = y /\ l2 = l2'.
Proof.
  induction l1 as [|a l1 IH]; intros l2 l1' l2' Heq Hx H1 H2.
  - destruct l1' as [|b l1']; cbn in Heq.
    + injection Heq as -> ->. auto.
    + injection Heq as -> _. apply Forall_cons in H1 as [Hb _]. tauto.
  - destruct l1' as [|b l1']; cbn in Heq.
    + injection Heq as -> <-. exfalso. apply Hx.
      apply Forall_app in H2 as [_ H2].
      now apply Forall_cons in H2 as [H2 _].
    + injection Heq as -> Heq. apply Forall_cons in H1 as [_ H1].
      destruct (IH _ _ _ Heq Hx H1 H2) as (-> & -> & ->). auto.
Qed.

Lemma cleanup_events_quiet g : Forall quiet (cleanup_events g).
Proof.
  unfold cleanup_events. apply Forall_app. split.
  - apply Forall_fmap. apply Forall_forall. intros; exact I.
  - repeat constructor.
Qed.

Lemma concat_drained_quiet slots segs :
  Forall2 drained slots segs -> Forall quiet (concat segs).
Proof.
  induction 1 as [|slot seg slots segs Hd _ IH]; [constructor|].
  cbn [concat]. apply Forall_app. split; [|exact IH].
  now apply drained_quiet in Hd.
Qed.

(** C7: in a run of the producer that comes to its end, when an issue
    returned ["ERR"] that issue is the last the loop makes: the final
    [transfers_sent] is the index the failed transfer was issued with (it
    was not counted), nothing after it is an issue, and what follows is
    the shutdown drain, slot by slot from 0 to [num_buffers - 1], each
    slot's handle polled as long as it answers ["PROC"] and once more,
    and only then the releases of the cleanup block. *)
Theorem failed_issue_stops_loop_then_drains (g : globals) (buffers_addr : Z)
    (receiver_name : string) (env env' : sender_env) (m : memory)
    (s' : sender_state) (pre post : list event) (slot i progress : Z) :
  sender_stream g buffers_addr receiver_name env (sender_init m)
  = Done (s', env') ->
  trace s' = pre ++ Ev_transfer slot i progress ERR :: post ->
  transfers_sent s' = i /\
  Forall no_err pre /\
  Forall quiet post /\
  exists segs,
    post = concat segs ++ cleanup_events g /\
    Forall2 drained (seqZ 0 (num_buffers g)) segs.
Proof.
  unfold sender_stream, sender_loop. intros Hrun Hsplit.
  destruct (sender_turns _ g buffers_addr receiver_name env (sender_init m))
    as [[s1 env1]|[s1 env1]|[s1 env1]] eqn:Hloop; try discriminate.
  apply sender_turns_trace in Hloop as (new & Htr1 & Hcase).
  cbn [sender_init trace app] in Htr1.
  destruct (drain_handles _ (xfer_states env1) s1)
    as [[s2 st2]|[s2 st2]|[s2 st2]] eqn:Hdrain; try discriminate.
  apply drain_handles_trace in Hdrain as (Ht2 & segs & Htr2 & Hsegs).
  injection Hrun as <- _. cbn [cleanup trace transfers_sent] in *.
  rewrite Htr2, Htr1 in Hsplit.
  pose proof (concat_drained_quiet _ _ Hsegs) as Hqsegs.
  pose proof (cleanup_events_quiet g) as Hqclean.
  assert (Hqtail : Forall quiet (concat segs ++ cleanup_events g))
    by (apply Forall_app; now split).
  destruct Hcase as [Hall|(new' & slot' & progress' & -> & Hall)].
  - exfalso.
    assert (Hwhole : Forall no_err ((new ++ concat segs) ++ cleanup_events g)).
    { rewrite <- app_assoc. apply Forall_app. split; [exact Hall|].
      eapply Forall_impl; [exact Hqtail | apply quiet_no_err]. }
    rewrite Hsplit in Hwhole. apply Forall_app in Hwhole as [_ Hwhole].
    apply Forall_cons in Hwhole as [Hbad _]. exact Hbad.
  - rewrite <- !app_assoc in Hsplit. cbn [app] in Hsplit. symmetry in Hsplit.
    apply (split_at_the_only no_err) in Hsplit
      as (-> & Hev & ->);
      [| intros Hbad; exact Hbad | exact Hall
       | eapply Forall_impl; [exact Hqtail | apply quiet_no_err] ].
    injection Hev as _ Hi _. split; [lia|].
    split; [exact Hall|]. split; [exact Hqtail|].
    exists segs. now split.
Qed.

End SenderShutdown.

(** ** Runs *)

Section Runs.

Import MemoryUtils SenderReceiver Scenarios.

(** Sixteen transfers accepted in order: one progress notification, after
    the sixteenth. *)
Example receiver_in_step :
  exists s',
    receiver_loop ring_of_four receiver_addr "sender" in_step
      (receiver_init all_ones) = Done (s', []) /\
    transfers_received s' = 16 /\
    progress_updates_sent s' = 1 /\
    sequence_mismatches s' = 0 /\
    r_sent s' = [("sender", "P:16")].
Proof.
  eexists. split; [vm_compute; reflexivity|]. repeat split; reflexivity.
Qed.

Example str_renders_decimal :
  Py.str 16 = "16" /\ Py.str 1000 = "1000" /\ Py.int "1000" = Some 1000 /\
  Py.int " +1_000 " = Some 1000 /\ Py.int "1__0" = None /\ Py.int "" = None.
Proof. repeat split; reflexivity. Qed.

(** The gate at transfer 60: the sender is 60 ahead, waits through one
    empty drain, then learns of 48 accepted transfers and goes on. *)
Example sender_held_back :
  exists s' env',
    sender_stream sixty_two sender_addr "receiver" slow_reports
      (sender_init zeroed) = Done (s', env') /\
    transfers_sent s' = 62 /\
    receiver_progress s' = 48 /\
    max_ahead s' = 60 /\
    backpressure_checks s' = 1 /\
    backpressure_waits s' = 1 /\
    progress_values (trace s') = [32; 48] /\
    inbox env' = [] /\ xfer_states env' = [] /\ transfer_results env' = [].
Proof.
  do 2 eexists. split; [vm_compute; reflexivity|]. repeat split; reflexivity.
Qed.

End Runs.

Lemma failed_issue_stops_loop_then_drains_witness :
  let run :=
    SenderReceiver.sender_stream Scenarios.ten_transfers
      Scenarios.sender_addr "receiver" Scenarios.third_issue_fails
      (SenderReceiver.sender_init Scenarios.zeroed) in
  let s' := fst (outcome_state run) in
  let pre :=
    [ SenderReceiver.Ev_ahead 0;
      SenderReceiver.Ev_check_xfer_state 0 SenderReceiver.Exception;
      SenderReceiver.Ev_transfer 0 0 0 SenderReceiver.PROC;
      SenderReceiver.Ev_ahead 1;
      SenderReceiver.Ev_check_xfer_state 1 SenderReceiver.Exception;
      SenderReceiver.Ev_transfer 1 1 0 SenderReceiver.DONE;
      SenderReceiver.Ev_ahead 2;
      SenderReceiver.Ev_check_xfer_state 2 SenderReceiver.Exception ] in
  let post :=
    [ SenderReceiver.Ev_check_xfer_state 0
        (SenderReceiver.State SenderReceiver.PROC);
      SenderReceiver.Ev_check_xfer_state 0
        (SenderReceiver.State SenderReceiver.DONE);
      SenderReceiver.Ev_check_xfer_state 1
        (SenderReceiver.State SenderReceiver.DONE);
      SenderReceiver.Ev_check_xfer_state 2
        (SenderReceiver.State SenderReceiver.ERR);
      SenderReceiver.Ev_check_xfer_state 3 SenderReceiver.Exception;
      SenderReceiver.Ev_release_xfer_handle 0;
      SenderReceiver.Ev_release_xfer_handle 1;
      SenderReceiver.Ev_release_xfer_handle 2;
      SenderReceiver.Ev_release_xfer_handle 3;
      SenderReceiver.Ev_release_dlist_handle true;
      SenderReceiver.Ev_release_dlist_handle false;
      SenderReceiver.Ev_deregister_memory;
      SenderReceiver.Ev_free ] in
  is_done run = true /\
  SenderReceiver.trace s'
  = pre ++ SenderReceiver.Ev_transfer 2 2 0 SenderReceiver.ERR :: post /\
  SenderReceiver.transfers_sent s' = 2 /\
  Forall SenderReceiver.no_err pre /\
  Forall SenderReceiver.quiet post /\
  exists segs,
    post = concat segs ++ SenderReceiver.cleanup_events Scenarios.ten_transfers /\
    Forall2 SenderReceiver.drained
      (seqZ 0 (SenderReceiver.num_buffers Scenarios.ten_transfers)) segs.
Proof.
  cbn zeta. split; [vm_compute; reflexivity|].
  split; [vm_compute; reflexivity|].
  eapply (failed_issue_stops_loop_then_drains Scenarios.ten_transfers
            Scenarios.sender_addr "receiver" Scenarios.third_issue_fails
            (snd (outcome_state
                    (SenderReceiver.sender_stream Scenarios.ten_transfers
                       Scenarios.sender_addr "receiver"
                       Scenarios.third_issue_fails
                       (SenderReceiver.sender_init Scenarios.zeroed))))
            Scenarios.zeroed).
  - vm_compute. reflexivity.
  - vm_compute. reflexivity.
Defined.

(** * Further properties of the code *)

(** ** memory_utils.py *)

Section MemoryMore.

Import MemoryUtils.

(** X1: a [write_uint64] at [addr] changes the eight bytes from [addr] on
    and no other: every byte outside is as before, and a [read_uint64] of
    any eight bytes that do not overlap them returns what it returned
    before. *)
Theorem write_uint64_touches_eight_bytes (m m' : memory) (addr v : Z) :
  write_uint64 m addr v = Some m' ->
  (forall a, a < addr \/ addr + 8 <= a -> m' a = m a) /\
  (forall a, a + 8 <= addr \/ addr + 8 <= a ->
     read_uint64 m' a = read_uint64 m a).
Proof.
  unfold write_uint64.
  destruct ((0 <=? v) && (v <=? UINT64_MAX)); [|discriminate].
  intros H.
  assert (Hm : m' = poke_uint64 m addr v)
    by (unfold poke_uint64; congruence).
  clear H. subst m'. unfold poke_uint64. split.
  - intros a [Ha|Ha].
    + apply store_bytes_below. exact Ha.
    + apply store_bytes_above. rewrite length_encode_le. lia.
  - intros a Ha. exact (read_poke_uint64_other m addr v a Ha).
Qed.

Lemma write_uint64_touches_eight_bytes_witness :
  (forall a, a < 4096 \/ 4096 + 8 <= a ->
     poke_uint64 (fun _ => x2a) 4096 7 a = x2a) /\
  (forall a, a + 8 <= 4096 \/ 4096 + 8 <= a ->
     read_uint64 (poke_uint64 (fun _ => x2a) 4096 7) a
     = read_uint64 (fun _ => x2a) a).
Proof.
  apply (write_uint64_touches_eight_bytes (fun _ => x2a) _ 4096 7).
  reflexivity.
Defined.

(** X3: two headers written at addresses at least eight bytes apart both
    read back, in whichever order they were written. *)
Theorem two_headers_do_not_disturb (m : memory) (a1 a2 v1 v2 : Z) :
  0 <= v1 < 2 ^ 64 -> 0 <= v2 < 2 ^ 64 ->
  a1 + 8 <= a2 \/ a2 + 8 <= a1 ->
  exists m1 m2,
    write_uint64 m a1 v1 = Some m1 /\
    write_uint64 m1 a2 v2 = Some m2 /\
    read_uint64 m2 a1 = v1 /\
    read_uint64 m2 a2 = v2.
Proof.
  intros H1 H2 Hapart.
  assert (Hmax : UINT64_MAX = 2 ^ 64 - 1) by reflexivity.
  exists (poke_uint64 m a1 v1), (poke_uint64 (poke_uint64 m a1 v1) a2 v2).
  rewrite !write_uint64_Some by lia.
  repeat split.
  - rewrite read_poke_uint64_other by lia.
    rewrite read_poke_uint64. apply Z.mod_small. lia.
  - rewrite read_poke_uint64. apply Z.mod_small. lia.
Qed.

Lemma two_headers_do_not_disturb_witness :
  exists m1 m2,
    write_uint64 (fun _ => x00) 4096 3 = Some m1 /\
    write_uint64 m1 4104 (2 ^ 64 - 1) = Some m2 /\
    read_uint64 m2 4096 = 3 /\
    read_uint64 m2 4104 = 2 ^ 64 - 1.
Proof.
  apply (two_headers_do_not_disturb (fun _ => x00) 4096 4104 3 (2 ^ 64 - 1));
    lia.
Defined.

End MemoryMore.

(** ** tcp_server.py *)

Section ServerMore.

Import TcpServer TcpServerStart.

(** What the client reads for a key, from what the store holds under
    it: the value the handler answers with when the JSON text of the
    answer fits the one [recv], a [JSONDecodeError] when it does not. *)
Lemma wire_get_metadata_reply (key : string) (md : gmap string json) :
  Wire.get_metadata key md
  = if (Wire.answer_len (Wire.reply key (md !! key)) <=? Wire.RECV_SIZE)%nat
    then Some (get_metadata key md) else None.
Proof.
  unfold Wire.get_metadata, Wire.recv, Wire.reply, get_metadata.
  cbn [handle].
  destruct (md !! key) as [[|n|s]|]; cbn [snd];
    match goal with
    | |- context [(?a <=? ?b)%nat] => destruct (a <=? b)%nat
    end; reflexivity.
Qed.

(** X4: a [get_metadata] after a [set_metadata] on the same key.  When
    the JSON text of the server's answer has at most 4096 bytes, the
    [SET] is acknowledged and the client gets back the value set, unless
    that value is JSON [null]: the server then answers as for a key that
    was never set, and the client gets [None].  When the value is a
    string and the answer is longer than 4096 bytes, the [SET] is
    acknowledged all the same, and the [get_metadata] that follows raises
    [JSONDecodeError]. *)
Theorem get_after_set (md : gmap string json) (k : string) (v : json) :
  ((Wire.answer_len (Wire.reply k (Some v)) <= Wire.RECV_SIZE)%nat ->
   snd (set_metadata k v md) = true /\
   Wire.get_metadata k (fst (set_metadata k v md))
   = Some (match v with JNull => None | _ => Some v end) /\
   (v = JNull ->
    snd (handle (GET k) (fst (set_metadata k v md)))
    = ERROR ("Key '" +:+ k +:+ "' not found"))) /\
  (forall s,
     v = JStr s ->
     (Wire.RECV_SIZE < Wire.answer_len (Wire.reply k (Some v)))%nat ->
     snd (set_metadata k v md) = true /\
     Wire.get_metadata k (fst (set_metadata k v md)) = None).
Proof.
  assert (Hstored : fst (set_metadata k v md) !! k = Some v).
  { unfold set_metadata. cbn [handle fst]. apply lookup_insert_eq. }
  split.
  - intros Hfit. split; [reflexivity|].
    rewrite wire_get_metadata_reply, Hstored.
    apply Nat.leb_le in Hfit. rewrite Hfit.
    unfold get_metadata. cbn [handle]. rewrite Hstored.
    destruct v; repeat split; try congruence.
  - intros s -> Hlong. split; [reflexivity|].
    rewrite wire_get_metadata_reply, Hstored.
    apply Nat.leb_gt in Hlong. now rewrite Hlong.
Qed.

Lemma get_after_set_witness :
  let k := "target_meta" in
  let short := JStr WireScenarios.short_value in
  let long := JStr WireScenarios.long_value in
  (Wire.answer_len (Wire.reply k (Some short)) <= Wire.RECV_SIZE)%nat /\
  Wire.get_metadata k (fst (set_metadata k short ∅)) = Some (Some short) /\
  (Wire.RECV_SIZE < Wire.answer_len (Wire.reply k (Some long)))%nat /\
  snd (set_metadata k long ∅) = true /\
  Wire.get_metadata k (fst (set_metadata k long ∅)) = None.
Proof.
  cbn zeta.
  assert (Hshort : (Wire.answer_len
                      (Wire.reply "target_meta"
                         (Some (JStr WireScenarios.short_value)))
                    <= Wire.RECV_SIZE)%nat)
    by (apply Nat.leb_le; vm_compute; reflexivity).
  assert (Hlong : (Wire.RECV_SIZE
                   < Wire.answer_len
                       (Wire.reply "target_meta"
                          (Some (JStr WireScenarios.long_value))))%nat)
    by (apply Nat.ltb_lt; vm_compute; reflexivity).
  split; [exact Hshort|].
  split.
  { exact (proj1 (proj2 (proj1 (get_after_set ∅ "target_meta"
                                   (JStr WireScenarios.short_value))
                           Hshort))). }
  split; [exact Hlong|].
  exact (proj2 (get_after_set ∅ "target_meta"
                  (JStr WireScenarios.long_value))
           WireScenarios.long_value eq_refl Hlong).
Defined.

(** X5: reading never writes: a run of requests that are all [GET]s or
    unknown commands leaves the store exactly as it was, found keys and
    missing keys alike. *)
Theorem reads_leave_the_store (reqs : list request)
    (md : gmap string json) :
  forallb (fun r => match r with GET _ | OTHER _ => true | _ => false end)
    reqs = true ->
  serve reqs md = md.
Proof.
  revert md. induction reqs as [|r reqs IH]; intros md H; [reflexivity|].
  cbn [forallb] in H. apply andb_true_iff in H as [Hr Hrs].
  unfold serve in *. cbn [fold_left].
  destruct r as [key value|key| |cmd]; try discriminate.
  - cbn [handle]. destruct (md !! key) as [[| |]|]; now apply IH.
  - now apply IH.
Qed.

Lemma reads_leave_the_store_witness :
  serve [GET "target_meta"; OTHER "PING"; GET "nothing"]
    ({[ "target_meta" := JStr "dGFyZ2V0" ]} : gmap string json)
  = {[ "target_meta" := JStr "dGFyZ2V0" ]}.
Proof.
  apply (reads_leave_the_store
           [GET "target_meta"; OTHER "PING"; GET "nothing"]
           {[ "target_meta" := JStr "dGFyZ2V0" ]}).
  reflexivity.
Defined.

(** X6: over any run of the server, a key keeps its value as long as no
    request sets that key and none clears the store, whatever is done to
    other keys. *)
Theorem key_survives_other_traffic (reqs : list request)
    (md : gmap string json) (k : string) :
  forallb (fun r => negb (touches k r)) reqs = true ->
  get_metadata k (serve reqs md) = get_metadata k md.
Proof.
  intros H. apply get_metadata_lookup. revert md H.
  induction reqs as [|r reqs IH]; intros md H; [reflexivity|].
  cbn [forallb] in H. apply andb_true_iff in H as [Hr Hrs].
  unfold serve in *. cbn [fold_left]. rewrite IH by exact Hrs.
  destruct r as [key value|key| |cmd]; cbn in *.
  - apply lookup_insert_ne. apply negb_true_iff, String.eqb_neq in Hr. exact Hr.
  - now destruct (md !! key) as [[| |]|].
  - discriminate.
  - reflexivity.
Qed.

Lemma key_survives_other_traffic_witness :
  get_metadata "target_meta"
    (serve [SET "initiator_meta" (JStr "aQ=="); GET "target_meta";
            SET "target_descs" (JStr "ZA=="); OTHER "PING"]
       {[ "target_meta" := JStr "dGFyZ2V0" ]})
  = get_metadata "target_meta" {[ "target_meta" := JStr "dGFyZ2V0" ]}.
Proof.
  apply (key_survives_other_traffic
           [SET "initiator_meta" (JStr "aQ=="); GET "target_meta";
            SET "target_descs" (JStr "ZA=="); OTHER "PING"]
           {[ "target_meta" := JStr "dGFyZ2V0" ]} "target_meta").
  reflexivity.
Defined.

(** X7: the last write decides what a key reads as.  After any run of
    requests in which the last one that sets [k] or clears the store is
    [r], whatever came before and whatever was done to other keys after,
    a [get_metadata k] whose answer has at most 4096 bytes of JSON text
    returns the value of [r] when [r] is a [SET] of a value other than
    [null], and [None] when [r] is a [SET] of [null] or a [CLEAR].  When
    [r] set a string and the answer is longer than that, the
    [get_metadata] raises [JSONDecodeError]. *)
Theorem last_write_decides (before after : list request) (r : request)
    (md : gmap string json) (k : string) :
  touches k r = true ->
  forallb (fun r' => negb (touches k r')) after = true ->
  let found := match r with SET _ v => Some v | _ => None end in
  ((Wire.answer_len (Wire.reply k found) <= Wire.RECV_SIZE)%nat ->
   Wire.get_metadata k (serve (before ++ r :: after) md)
   = Some (match found with
           | Some JNull | None => None
           | Some v => Some v
           end)) /\
  (forall s,
     found = Some (JStr s) ->
     (Wire.RECV_SIZE < Wire.answer_len (Wire.reply k found))%nat ->
     Wire.get_metadata k (serve (before ++ r :: after) md) = None).
Proof.
  intros Hr Hafter. cbn zeta.
  assert (Hlook : serve (before ++ r :: after) md !! k
                  = match r with SET _ v => Some v | _ => None end).
  { unfold serve. rewrite fold_left_app. cbn [fold_left].
    fold (serve before md).
    fold (serve after (fst (handle r (serve before md)))).
    rewrite serve_leaves_untouched by exact Hafter.
    destruct r as [key v|key| |cmd]; cbn in Hr; try discriminate.
    - apply String.eqb_eq in Hr. subst key. cbn [handle fst].
      apply lookup_insert_eq.
    - cbn [handle fst]. apply lookup_empty. }
  split.
  - intros Hfit. rewrite wire_get_metadata_reply, Hlook.
    apply Nat.leb_le in Hfit. rewrite Hfit. f_equal.
    unfold get_metadata. cbn [handle]. rewrite Hlook.
    destruct r as [key [| |]|key| |cmd]; reflexivity.
  - intros s Hs Hlong. rewrite wire_get_metadata_reply, Hlook.
    apply Nat.leb_gt in Hlong. now rewrite Hlong.
Qed.

Lemma last_write_decides_witness :
  let before := [SET "target_meta" (JStr "b2xk"); CLEAR] in
  let r := SET "target_meta" (JStr "bmV3") in
  let after := [SET "target_descs" (JStr "ZA=="); GET "target_meta";
                OTHER "PING"] in
  touches "target_meta" r = true /\
  forallb (fun r' => negb (touches "target_meta" r')) after = true /\
  (Wire.answer_len (Wire.reply "target_meta" (Some (JStr "bmV3")))
   <= Wire.RECV_SIZE)%nat /\
  Wire.get_metadata "target_meta" (serve (before ++ r :: after) ∅)
  = Some (Some (JStr "bmV3")).
Proof.
  cbn zeta.
  assert (Hfit : (Wire.answer_len
                    (Wire.reply "target_meta" (Some (JStr "bmV3")))
                  <= Wire.RECV_SIZE)%nat)
    by (apply Nat.leb_le; vm_compute; reflexivity).
  split; [reflexivity|]. split; [reflexivity|]. split; [exact Hfit|].
  exact (proj1 (last_write_decides
                  [SET "target_meta" (JStr "b2xk"); CLEAR]
                  [SET "target_descs" (JStr "ZA=="); GET "target_meta";
                   OTHER "PING"]
                  (SET "target_meta" (JStr "bmV3")) ∅ "target_meta"
                  eq_refl eq_refl)
           Hfit).
Defined.

Lemma start_server_calls_once (calls : list (Z * bool)) :
  forall instance : option Z,
    (length (filter (fun r => r = true)
               (snd (start_server_calls calls instance)))
     <= match instance with None => 1 | Some _ => 0 end)%nat /\
    (is_Some instance ->
     fst (start_server_calls calls instance) = instance).
Proof.
  induction calls as [|[port ok] calls IH]; intros instance.
  - cbn. split; [destruct instance; lia | reflexivity].
  - cbn [start_server_calls]. unfold start_server.
    destruct instance as [p|].
    + destruct (IH (Some p)) as [Hc Hi].
      destruct (start_server_calls calls (Some p)) as [i2 rs] eqn:E.
      cbn [fst snd] in *. split.
      * rewrite filter_cons_False by discriminate. exact Hc.
      * intros _. apply Hi. eauto.
    + destruct ok.
      * destruct (IH (Some port)) as [Hc Hi].
        destruct (start_server_calls calls (Some port)) as [i2 rs] eqn:E.
        cbn [fst snd] in *. split.
        -- rewrite filter_cons_True by reflexivity. cbn [length]. lia.
        -- intros [x Hx]. discriminate.
      * destruct (IH None) as [Hc Hi].
        destruct (start_server_calls calls None) as [i2 rs] eqn:E.
        cbn [fst snd] in *. split.
        -- rewrite filter_cons_False by discriminate. exact Hc.
        -- intros [x Hx]. discriminate.
Qed.

(** X8: the server is a singleton: over any sequence of [start_server]
    calls in one process, whatever ports they name and whether their binds
    succeed, at most one call returns [True]; once an instance exists it is
    kept, so a later call with another port starts nothing. *)
Theorem start_server_is_a_singleton (calls : list (Z * bool)) :
  (length (filter (fun r => r = true)
             (snd (start_server_calls calls None))) <= 1)%nat /\
  forall port,
    fst (start_server_calls calls (Some port)) = Some port /\
    Forall (fun r => r = false) (snd (start_server_calls calls (Some port))).
Proof.
  split; [apply (start_server_calls_once calls None)|].
  intros port. split.
  - apply (start_server_calls_once calls (Some port)). eauto.
  - destruct (start_server_calls_once calls (Some port)) as [Hc _].
    revert Hc. generalize (snd (start_server_calls calls (Some port))).
    intros rs. induction rs as [|[|] rs IHrs]; intros Hc.
    + constructor.
    + rewrite filter_cons_True in Hc by reflexivity. cbn in Hc. lia.
    + rewrite filter_cons_False in Hc by discriminate.
      constructor; [reflexivity | now apply IHrs].
Qed.

End ServerMore.

(** ** metadata_utils.py *)

Section RetrievalMore.

Import TcpServer MetadataUtils ServerHistory Publish.

Variable descs : Type.
Variable reg_descs_t : Type.
Variable b64encode : string -> string.
Variable b64decode : string -> option string.
Variable add_remote_agent : string -> string.
Variable get_agent_metadata : string.
Variable get_serialized_descs : descs -> string.
Variable deserialize_descs : string -> option descs.

Lemma overrun_nonneg (l : list tick) : 0 <= overrun l.
Proof.
  induction l as [|t l IH]; [cbn; lia|].
  change (overrun (t :: l))
    with (Z.of_N (latency t) + Z.of_N (oversleep t) + overrun l).
  lia.
Qed.

Lemma wait_builtin_calls name timeout start ticks :
  forall e r ticks' e',
    wait_builtin name timeout start ticks e = Done (r, ticks', e') ->
    exists new, calls e' = calls e ++ new.
Proof.
  induction ticks as [|t ticks IH]; intros e r ticks' e'; cbn [wait_builtin].
  - destruct (now e - start <? timeout); [discriminate|].
    intros [= <- <- <-]. exists []. now rewrite app_nil_r.
  - destruct (now e - start <? timeout).
    + unfold check_remote_metadata. destruct (loaded t).
      * intros [= <- <- <-]. cbn. eauto.
      * intros H. apply IH in H as (new & ->). cbn.
        rewrite <- !app_assoc. eauto.
    + intros [= <- <- <-]. exists []. now rewrite app_nil_r.
Qed.

Lemma wait_tcp_found key timeout start (ticks : list tick) :
  forall v e v' ticks' e',
    wait_tcp key timeout start ticks v e = Done (v', ticks', e') ->
    truthy v = false -> truthy v' = true ->
    exists pre t,
      ticks = pre ++ t :: ticks' /\
      absent_throughout key (server e) pre = true /\
      v' = get_metadata key (serve (arrivals t) (serve_all pre (server e))) /\
      now e - start + POLL_INTERVAL * Z.of_nat (length pre) + overrun pre
        < timeout /\
      calls e' = calls e ++ poll_calls key (length pre)
                 ++ [Call_get_metadata key] /\
      now e' = now e + POLL_INTERVAL * Z.of_nat (length pre) + overrun pre
               + Z.of_N (latency t).
Proof.
  assert (Hpi : POLL_INTERVAL = 100) by reflexivity.
  induction ticks as [|t0 ticks IH]; intros v e v' ticks' e' Hrun Hv Hv';
    cbn [wait_tcp] in Hrun; rewrite Hv in Hrun; cbn [negb andb] in Hrun.
  - destruct (now e - start <? timeout); [discriminate|].
    injection Hrun as <- _ _. congruence.
  - destruct (Z.ltb_spec (now e - start) timeout) as [Hlt|];
      [|injection Hrun as <- _ _; congruence].
    unfold tcp_get in Hrun. cbn zeta in Hrun.
    destruct (truthy (get_metadata key (serve (arrivals t0) (server e))))
      eqn:Hget.
    + assert (Hstop : forall l e0,
                wait_tcp key timeout start l
                  (get_metadata key (serve (arrivals t0) (server e))) e0
                = Done (get_metadata key (serve (arrivals t0) (server e)),
                        l, e0)).
      { intros l e0. destruct l; cbn [wait_tcp]; rewrite Hget; reflexivity. }
      rewrite Hstop in Hrun. injection Hrun as <- <- <-.
      exists [], t0. cbn [app length absent_throughout calls now].
      change (serve_all [] (server e)) with (server e).
      change (overrun []) with 0.
      repeat split; try reflexivity; lia.
    + apply IH in Hrun; [|exact Hget | exact Hv'].
      destruct Hrun as (pre & t & -> & Habs & -> & Htime & Hcalls & Hnow).
      cbn [sleep server now calls] in *.
      exists (t0 :: pre), t.
      change (serve_all (t0 :: pre) (server e))
        with (serve_all pre (serve (arrivals t0) (server e))).
      change (overrun (t0 :: pre))
        with (Z.of_N (latency t0) + Z.of_N (oversleep t0) + overrun pre).
      rewrite length_cons, Nat2Z.inj_succ.
      split; [reflexivity|]. split.
      { cbn [absent_throughout]. rewrite Hget, Habs. reflexivity. }
      split; [reflexivity|]. split; [rewrite Hpi in Htime |- *; lia|].
      split.
      * rewrite Hcalls, poll_calls_S, <- !app_assoc. reflexivity.
      * rewrite Hnow, Hpi. lia.
Qed.

(** X9: a name returned over the TCP server comes from a value that was
    there.  When [retrieve_agent_metadata] returns a name, the polls it
    used are a run of misses followed by one poll, begun before the
    timeout, at which the server held a non-empty string under the key;
    the name is what [add_remote_agent] gives for the decoding of that
    string.  It made one lookup per poll and slept 0.1 s after every
    miss, and not after the hit. *)
Theorem returned_name_was_on_the_server (key : string) (timeout : Z)
    (ticks ticks' : list tick) (e e' : env) (name : string) :
  retrieve_agent_metadata b64decode add_remote_agent key timeout false None
    ticks e = Done (Some name, ticks', e') ->
  exists pre t s metadata,
    ticks = pre ++ t :: ticks' /\
    absent_throughout key (server e) pre = true /\
    get_metadata key (serve (arrivals t) (serve_all pre (server e)))
      = Some (JStr s) /\
    s <> "" /\
    b64decode s = Some metadata /\
    name = add_remote_agent metadata /\
    POLL_INTERVAL * Z.of_nat (length pre) + overrun pre < timeout /\
    calls e' = calls e ++ poll_calls key (length pre)
               ++ [Call_get_metadata key] /\
    now e' = now e + POLL_INTERVAL * Z.of_nat (length pre) + overrun pre
             + Z.of_N (latency t).
Proof.
  unfold retrieve_agent_metadata.
  destruct (wait_tcp key timeout (now e) ticks None e)
    as [[[v t1] e1]|[[v t1] e1]|[[v t1] e1]] eqn:Hrun; try discriminate.
  destruct (truthy v) eqn:Hv; [|discriminate].
  destruct v as [[| |s]|]; try discriminate.
  destruct (b64decode s) as [metadata|] eqn:Hdec; [|discriminate].
  intros [= <- <- <-].
  apply wait_tcp_found in Hrun; [|reflexivity | exact Hv].
  destruct Hrun as (pre & t & -> & Habs & Hget & Htime & Hcalls & Hnow).
  exists pre, t, s, metadata.
  split; [reflexivity|]. split; [exact Habs|]. split; [now rewrite <- Hget|].
  split.
  { cbn in Hv. apply negb_true_iff, String.eqb_neq in Hv. exact Hv. }
  split; [exact Hdec|]. split; [reflexivity|].
  split; [lia|]. split; [exact Hcalls | exact Hnow].
Qed.

(** A lookup that misses reads the same over the socket, as long as the
    answer to a missing key fits: the other answers that read as false,
    an empty string and a zero, are short. *)
Lemma wire_miss (key : string) (md : gmap string json) :
  truthy (get_metadata key md) = false ->
  (Wire.answer_len (Wire.reply key None) <= Wire.RECV_SIZE)%nat ->
  Wire.get_metadata key md = Some (get_metadata key md).
Proof.
  intros Hmiss Hfit. rewrite wire_get_metadata_reply.
  unfold get_metadata in Hmiss. cbn [handle] in Hmiss.
  apply Nat.leb_le in Hfit.
  destruct (md !! key) as [[|n|s]|]; cbn [snd truthy] in Hmiss.
  - cbn [Wire.reply] in *. now rewrite Hfit.
  - apply negb_false_iff, Z.eqb_eq in Hmiss. subst n. reflexivity.
  - apply negb_false_iff, String.eqb_eq in Hmiss. subst s. reflexivity.
  - now rewrite Hfit.
Qed.

Lemma wire_hit (key : string) (md : gmap string json) (s : string) :
  get_metadata key md = Some (JStr s) ->
  Wire.get_metadata key md
  = if (Wire.answer_len (Wire.reply key (Some (JStr s)))
        <=? Wire.RECV_SIZE)%nat
    then Some (Some (JStr s)) else None.
Proof.
  intros Hget. rewrite wire_get_metadata_reply.
  apply get_metadata_Some in Hget as Hlook. now rewrite Hlook, Hget.
Qed.

Lemma wire_wait_tcp_stops key timeout start (v : option json) :
  truthy v = true ->
  forall ticks e, Wire.wait_tcp key timeout start ticks v e = Done (v, ticks, e).
Proof.
  intros Hv ticks e. destruct ticks; cbn [Wire.wait_tcp]; now rewrite Hv.
Qed.

Lemma wire_wait_tcp_finds key timeout start (s : string) (t : tick)
    (post : list tick) :
  forall (pre : list tick) v e,
    truthy v = false ->
    absent_throughout key (server e) pre = true ->
    get_metadata key (serve (arrivals t) (serve_all pre (server e)))
      = Some (JStr s) ->
    s <> "" ->
    (Wire.answer_len (Wire.reply key None) <= Wire.RECV_SIZE)%nat ->
    now e - start + POLL_INTERVAL * Z.of_nat (length pre) + overrun pre
      < timeout ->
    exists e' v',
      calls e' = calls e ++ poll_calls key (length pre)
                 ++ [Call_get_metadata key] /\
      now e' = now e + POLL_INTERVAL * Z.of_nat (length pre) + overrun pre
               + Z.of_N (latency t) /\
      Wire.wait_tcp key timeout start (pre ++ t :: post) v e
      = if (Wire.answer_len (Wire.reply key (Some (JStr s)))
            <=? Wire.RECV_SIZE)%nat
        then Done (Some (JStr s), post, e')
        else Raised (v', post, e').
Proof.
  assert (Hpi : POLL_INTERVAL = 100) by reflexivity.
  induction pre as [|t0 pre IH]; intros v e Hv Habs Hget Hs Hmissfit Htime.
  - cbn [app Wire.wait_tcp]. rewrite Hv. cbn [negb andb].
    change (serve_all [] (server e)) with (server e) in Hget.
    change (overrun []) with 0 in Htime. cbn [length] in Htime.
    destruct (Z.ltb_spec (now e - start) timeout); [|lia].
    unfold Wire.tcp_get. cbn zeta. rewrite (wire_hit _ _ _ Hget).
    eexists. exists v. split; [|split].
    3:{ destruct (Wire.answer_len _ <=? Wire.RECV_SIZE)%nat.
        - assert (Ht : truthy (Some (JStr s)) = true).
          { cbn. apply negb_true_iff, String.eqb_neq. exact Hs. }
          rewrite Ht. apply wire_wait_tcp_stops. exact Ht.
        - reflexivity. }
    + cbn. reflexivity.
    + cbn. lia.
  - cbn [app Wire.wait_tcp]. rewrite Hv. cbn [negb andb].
    pose proof (overrun_nonneg pre) as Hnn.
    change (serve_all (t0 :: pre) (server e))
      with (serve_all pre (serve (arrivals t0) (server e))) in Hget.
    change (overrun (t0 :: pre))
      with (Z.of_N (latency t0) + Z.of_N (oversleep t0) + overrun pre)
      in Htime |- *.
    rewrite length_cons, Nat2Z.inj_succ in Htime.
    destruct (Z.ltb_spec (now e - start) timeout); [|rewrite Hpi in Htime; lia].
    cbn [absent_throughout] in Habs.
    apply andb_true_iff in Habs as [Hmiss Habs].
    apply negb_true_iff in Hmiss.
    unfold Wire.tcp_get. cbn zeta.
    rewrite (wire_miss _ _ Hmiss Hmissfit), Hmiss.
    set (e2 := sleep POLL_INTERVAL t0 _).
    destruct (IH (get_metadata key (serve (arrivals t0) (server e))) e2)
      as (e' & v' & Hcalls & Hnow & Hrun).
    + exact Hmiss.
    + exact Habs.
    + exact Hget.
    + exact Hs.
    + exact Hmissfit.
    + subst e2. cbn [now sleep]. rewrite Hpi in Htime |- *. lia.
    + exists e', v'. split; [|split].
      * rewrite Hcalls. subst e2. cbn [calls sleep length].
        rewrite poll_calls_S, <- !app_assoc. reflexivity.
      * rewrite Hnow. subst e2. cbn [now sleep].
        rewrite length_cons, Nat2Z.inj_succ, Hpi. lia.
      * exact Hrun.
Qed.

(** X10: a key that appears on the server while the caller polls is found
    at the first poll that follows, provided that poll starts before the
    timeout and the answers fit the client's one [recv(4096)]: the answer
    for a missing key, which carries the key, and the answer that carries
    the value.  After as many misses, each followed by a sleep of 0.1 s,
    as there were polls before, [retrieve_agent_metadata] decodes the
    value and returns the name [add_remote_agent] gives, without sleeping
    again.  When the value's answer is longer than 4096 bytes, that poll
    raises [JSONDecodeError] instead. *)
Theorem found_at_the_first_poll_after_publication (key : string)
    (timeout : Z) (pre post : list tick) (t : tick) (e : env)
    (s metadata : string) :
  absent_throughout key (server e) pre = true ->
  get_metadata key (serve (arrivals t) (serve_all pre (server e)))
    = Some (JStr s) ->
  s <> "" ->
  b64decode s = Some metadata ->
  POLL_INTERVAL * Z.of_nat (length pre) + overrun pre < timeout ->
  (Wire.answer_len (Wire.reply key None) <= Wire.RECV_SIZE)%nat ->
  exists e',
    calls e' = calls e ++ poll_calls key (length pre)
               ++ [Call_get_metadata key] /\
    now e' = now e + POLL_INTERVAL * Z.of_nat (length pre) + overrun pre
             + Z.of_N (latency t) /\
    ((Wire.answer_len (Wire.reply key (Some (JStr s)))
      <= Wire.RECV_SIZE)%nat ->
     Wire.retrieve_agent_metadata b64decode add_remote_agent key timeout
       false None (pre ++ t :: post) e
     = Done (Some (add_remote_agent metadata), post, e')) /\
    ((Wire.RECV_SIZE
      < Wire.answer_len (Wire.reply key (Some (JStr s))))%nat ->
     Wire.retrieve_agent_metadata b64decode add_remote_agent key timeout
       false None (pre ++ t :: post) e
     = Raised (None, post, e')).
Proof.
  intros Habs Hget Hs Hdec Htime Hmissfit.
  destruct (wire_wait_tcp_finds key timeout (now e) s t post pre None e)
    as (e' & v' & Hcalls & Hnow & Hrun); try assumption; try reflexivity;
    [lia|].
  exists e'. split; [exact Hcalls|]. split; [exact Hnow|].
  unfold Wire.retrieve_agent_metadata. rewrite Hrun. split.
  - intros Hfit. apply Nat.leb_le in Hfit. rewrite Hfit.
    assert (Ht : truthy (Some (JStr s)) = true).
    { cbn. apply negb_true_iff, String.eqb_neq. exact Hs. }
    now rewrite Ht, Hdec.
  - intros Hlong. apply Nat.leb_gt in Hlong. now rewrite Hlong.
Qed.

Lemma wait_builtin_polls name timeout start ticks :
  forall e,
    Forall (fun t => loaded t = false) ticks ->
    (Z.to_nat ((timeout - (now e - start) + POLL_INTERVAL - 1) / POLL_INTERVAL)
     <= length ticks)%nat ->
    exists n e',
      wait_builtin name timeout start ticks e = Done (false, drop n ticks, e') /\
      (n <= Z.to_nat ((timeout - (now e - start) + POLL_INTERVAL - 1)
                      / POLL_INTERVAL))%nat /\
      timeout <= now e' - start /\
      now e' = now e + POLL_INTERVAL * Z.of_nat n + overrun (take n ticks) /\
      calls e' = calls e ++ check_calls name n /\
      (n = 0%nat \/
       now e + POLL_INTERVAL * Z.of_nat (n - 1) + overrun (take (n - 1) ticks)
       - start < timeout).
Proof.
  induction ticks as [|t ticks IH]; intros e Hno Hlen; cbn [wait_builtin].
  - destruct (Z.ltb_spec (now e - start) timeout) as [Hlt|Hge].
    + exfalso. cbn [length] in Hlen.
      assert (1 <= (timeout - (now e - start) + POLL_INTERVAL - 1)
                   / POLL_INTERVAL)
        by (unfold POLL_INTERVAL; apply Z.div_le_lower_bound; lia).
      lia.
    + exists 0%nat, e. cbn. rewrite app_nil_r.
      repeat split; try done; try lia; try (now left).
  - destruct (Z.ltb_spec (now e - start) timeout) as [Hlt|Hge].
    + apply Forall_cons in Hno as [Ht Hno].
      unfold check_remote_metadata. rewrite Ht.
      set (e2 := sleep POLL_INTERVAL t _).
      pose proof (polls_left_step timeout (now e - start)
                    (Z.of_N (latency t) + Z.of_N (oversleep t)) Hlt
                    ltac:(lia)) as Hstep.
      assert (Hnow : now e2 - start =
                     now e - start + POLL_INTERVAL
                     + (Z.of_N (latency t) + Z.of_N (oversleep t)))
        by (subst e2; cbn; lia).
      destruct (IH e2 Hno) as (n & e' & Hrun & Hn & Hup & Htime & Hcalls & Hlast).
      * rewrite Hnow. cbn [length] in Hlen. lia.
      * exists (S n), e'. rewrite Hrun.
        split; [reflexivity|]. split; [rewrite Hnow in Hn; lia|].
        split; [exact Hup|]. split.
        { rewrite Htime. subst e2. cbn [now sleep take overrun foldr].
          fold (overrun (take n ticks)). lia. }
        split.
        { rewrite Hcalls. subst e2. cbn [calls sleep].
          unfold check_calls. cbn [replicate concat].
          rewrite <- !app_assoc. reflexivity. }
        right. replace (S n - 1)%nat with n by lia.
        destruct Hlast as [->|Hlast].
        -- cbn [take]. change (overrun []) with 0. lia.
        -- destruct n as [|n']; [cbn [take]; change (overrun []) with 0; lia|].
           replace (S n' - 1)%nat with n' in Hlast by lia.
           change (overrun (take (S n') (t :: ticks)))
             with (Z.of_N (latency t) + Z.of_N (oversleep t)
                   + overrun (take n' ticks)).
           subst e2. cbn [now sleep] in Hlast. lia.
    + exists 0%nat, e. cbn. rewrite app_nil_r.
      repeat split; try done; try lia; try (now left).
Qed.

(** X11: the built-in branch of [retrieve_agent_metadata].  Without a
    remote agent name, or with an empty one, it returns [None] at once and
    calls nothing.  With a name, and while the metadata is not loaded,
    its calls are exactly: [fetch_remote_metadata] once, then [n] times a
    [check_remote_metadata] followed by a sleep of 0.1 s, and nothing
    else.  It returns [None] after these [n] polls, with [n] at most
    [max_polls timeout]; the timeout had not elapsed when the last of
    them began and has elapsed at the end. *)
Theorem builtin_retrieval_gives_up (key name : string) (timeout : Z)
    (ticks : list tick) (e : env) :
  name <> "" ->
  Forall (fun t => loaded t = false) ticks ->
  (max_polls timeout <= length ticks)%nat ->
  retrieve_agent_metadata b64decode add_remote_agent key timeout true None
    ticks e = Done (None, ticks, e) /\
  retrieve_agent_metadata b64decode add_remote_agent key timeout true
    (Some "") ticks e = Done (None, ticks, e) /\
  exists n e',
    retrieve_agent_metadata b64decode add_remote_agent key timeout true
      (Some name) ticks e = Done (None, drop n ticks, e') /\
    (n <= max_polls timeout)%nat /\
    timeout <= now e' - now e /\
    now e' = now e + POLL_INTERVAL * Z.of_nat n + overrun (take n ticks) /\
    calls e' = calls e ++ [Call_fetch_remote_metadata name key]
               ++ check_calls name n /\
    (n = 0%nat \/
     POLL_INTERVAL * Z.of_nat (n - 1) + overrun (take (n - 1) ticks)
     < timeout).
Proof.
  intros Hname Hno Hlen. split; [reflexivity|]. split; [reflexivity|].
  unfold retrieve_agent_metadata.
  apply String.eqb_neq in Hname. rewrite Hname.
  set (e0 := {| now := now e; server := server e;
                calls := calls e ++ [Call_fetch_remote_metadata name key] |}).
  destruct (wait_builtin_polls name timeout (now e0) ticks e0 Hno)
    as (n & e' & Hrun & Hn & Hup & Htime & Hcalls & Hlast).
  { unfold max_polls in Hlen.
    replace (timeout - (now e0 - now e0) + POLL_INTERVAL - 1)
      with (timeout + POLL_INTERVAL - 1) by lia.
    exact Hlen. }
  exists n, e'. rewrite Hrun. split; [reflexivity|].
  split.
  { unfold max_polls.
    replace (timeout + POLL_INTERVAL - 1)
      with (timeout - (now e0 - now e0) + POLL_INTERVAL - 1) by lia.
    exact Hn. }
  split; [exact Hup|]. split; [exact Htime|].
  split.
  { rewrite Hcalls. subst e0. cbn [calls]. now rewrite <- app_assoc. }
  destruct Hlast as [->|Hlast]; [now left|]. right. lia.
Qed.

(** X12: descriptors published with [publish_descriptors] are what
    [retrieve_descriptors] returns for the same key, as long as no request
    in between sets that key or clears the store, the base64 codec gives
    back the serialized blob, and the server's answer, which carries the
    encoded blob, has at most 4096 bytes of JSON text: the result is the
    blob deserialized.  The one exception is a blob whose encoding is the
    empty string, which the retrieval takes for a missing key and answers
    with [None].  When the answer is longer than 4096 bytes, the
    retrieval raises [JSONDecodeError] after its one lookup. *)
Theorem published_descriptors_are_retrieved (xfer_descs : descs)
    (key : string) (md : gmap string json) (t : tick) (ticks : list tick)
    (e : env) :
  server e
  = fst (publish_descriptors descs b64encode get_serialized_descs
           xfer_descs key md) ->
  forallb (fun r => negb (touches key r)) (arrivals t) = true ->
  b64decode (b64encode (get_serialized_descs xfer_descs))
  = Some (get_serialized_descs xfer_descs) ->
  let answer :=
    Wire.reply key
      (Some (JStr (b64encode (get_serialized_descs xfer_descs)))) in
  exists e1,
    calls e1 = calls e ++ [Call_get_metadata key] /\
    ((Wire.answer_len answer <= Wire.RECV_SIZE)%nat ->
     Wire.retrieve_descriptors descs b64decode deserialize_descs key
       (t :: ticks) e
     = Done (if String.eqb (b64encode (get_serialized_descs xfer_descs)) ""
             then None
             else deserialize_descs (get_serialized_descs xfer_descs),
             ticks, e1)) /\
    ((Wire.RECV_SIZE < Wire.answer_len answer)%nat ->
     Wire.retrieve_descriptors descs b64decode deserialize_descs key
       (t :: ticks) e
     = Raised (None, ticks, e1)).
Proof.
  intros Hsrv Hquiet Hcodec. cbn zeta.
  unfold Wire.retrieve_descriptors, Wire.tcp_get. cbn zeta.
  assert (Hget : get_metadata key (serve (arrivals t) (server e))
                 = Some (JStr (b64encode (get_serialized_descs xfer_descs)))).
  { unfold get_metadata. cbn [handle].
    rewrite (serve_leaves_untouched _ _ _ Hquiet), Hsrv.
    unfold publish_descriptors, set_metadata. cbn [handle fst].
    rewrite lookup_insert_eq. reflexivity. }
  rewrite (wire_hit _ _ _ Hget).
  eexists. split; [|split].
  2:{ intros Hfit. apply Nat.leb_le in Hfit. rewrite Hfit. cbn [truthy].
      destruct (String.eqb (b64encode (get_serialized_descs xfer_descs)) "");
        cbn [negb]; [reflexivity|].
      rewrite Hcodec. reflexivity. }
  - reflexivity.
  - intros Hlong. apply Nat.leb_gt in Hlong. rewrite Hlong. reflexivity.
Qed.

(** X13: agent metadata published with [publish_agent_metadata] over the
    TCP server is found by the first poll of [retrieve_agent_metadata] for
    the same key, when no request in between sets that key or clears the
    store, the timeout is positive, the base64 codec gives back the blob
    from a non-empty encoding, and the server's answer, which carries the
    encoded blob, has at most 4096 bytes of JSON text: the caller gets
    the name [add_remote_agent] returns for the published blob, after one
    lookup and no sleep.  When the answer is longer than 4096 bytes, the
    retrieval raises [JSONDecodeError] at that first lookup.  In the
    built-in mode without registration descriptors nothing is
    published. *)
Theorem published_metadata_is_retrieved (key : string)
    (md : gmap string json) (timeout : Z) (t : tick) (ticks : list tick)
    (e : env) :
  server e
  = fst (publish_agent_metadata reg_descs_t b64encode get_agent_metadata
           key false None md) ->
  forallb (fun r => negb (touches key r)) (arrivals t) = true ->
  b64decode (b64encode get_agent_metadata) = Some get_agent_metadata ->
  b64encode get_agent_metadata <> "" ->
  0 < timeout ->
  let answer :=
    Wire.reply key (Some (JStr (b64encode get_agent_metadata))) in
  publish_agent_metadata reg_descs_t b64encode get_agent_metadata
    key true None md = (md, []) /\
  exists e1,
    calls e1 = calls e ++ [Call_get_metadata key] /\
    ((Wire.answer_len answer <= Wire.RECV_SIZE)%nat ->
     Wire.retrieve_agent_metadata b64decode add_remote_agent key timeout
       false None (t :: ticks) e
     = Done (Some (add_remote_agent get_agent_metadata), ticks, e1)) /\
    ((Wire.RECV_SIZE < Wire.answer_len answer)%nat ->
     Wire.retrieve_agent_metadata b64decode add_remote_agent key timeout
       false None (t :: ticks) e
     = Raised (None, ticks, e1)).
Proof.
  intros Hsrv Hquiet Hcodec Hne Htime. cbn zeta. split; [reflexivity|].
  assert (Hget : get_metadata key (serve (arrivals t) (server e))
                 = Some (JStr (b64encode get_agent_metadata))).
  { unfold get_metadata. cbn [handle].
    rewrite (serve_leaves_untouched _ _ _ Hquiet), Hsrv.
    unfold publish_agent_metadata, set_metadata. cbn [handle fst].
    rewrite lookup_insert_eq. reflexivity. }
  unfold Wire.retrieve_agent_metadata. cbn [Wire.wait_tcp truthy negb andb].
  replace (now e - now e) with 0 by lia.
  destruct (Z.ltb_spec 0 timeout); [|lia].
  unfold Wire.tcp_get. cbn zeta. rewrite (wire_hit _ _ _ Hget).
  assert (Ht : truthy (Some (JStr (b64encode get_agent_metadata))) = true).
  { cbn. apply negb_true_iff, String.eqb_neq. exact Hne. }
  eexists. split; [|split].
  2:{ intros Hfit. apply Nat.leb_le in Hfit. rewrite Hfit, Ht.
      rewrite (wire_wait_tcp_stops _ _ _ _ Ht), Ht, Hcodec. reflexivity. }
  - reflexivity.
  - intros Hlong. apply Nat.leb_gt in Hlong. rewrite Hlong. reflexivity.
Qed.

End RetrievalMore.

Section RetrievalWitnesses.

Import TcpServer MetadataUtils ServerHistory Publish Scenarios WireScenarios.

Lemma returned_name_was_on_the_server_witness :
  let o := retrieve_agent_metadata Some id "receiver_buffers_desc"
             DEFAULT_TIMEOUT false None late_publish fresh_env in
  let e' := snd (outcome_state o) in
  o = Done (Some "ZGVzY3M=", [], e') /\
  exists pre t s metadata,
    late_publish = pre ++ t :: [] /\
    absent_throughout "receiver_buffers_desc" (server fresh_env) pre = true /\
    get_metadata "receiver_buffers_desc"
      (serve (arrivals t) (serve_all pre (server fresh_env)))
      = Some (JStr s) /\
    s <> "" /\
    Some s = Some metadata /\
    "ZGVzY3M=" = id metadata /\
    POLL_INTERVAL * Z.of_nat (length pre) + overrun pre < DEFAULT_TIMEOUT /\
    calls e' = calls fresh_env
               ++ poll_calls "receiver_buffers_desc" (length pre)
               ++ [Call_get_metadata "receiver_buffers_desc"] /\
    now e' = now fresh_env + POLL_INTERVAL * Z.of_nat (length pre)
             + overrun pre + Z.of_N (latency t).
Proof.
  cbn zeta. split; [vm_compute; reflexivity|].
  apply (returned_name_was_on_the_server Some id "receiver_buffers_desc"
           DEFAULT_TIMEOUT late_publish [] fresh_env
           (snd (outcome_state
                   (retrieve_agent_metadata Some id "receiver_buffers_desc"
                      DEFAULT_TIMEOUT false None late_publish fresh_env)))
           "ZGVzY3M=").
  vm_compute. reflexivity.
Defined.

Lemma found_at_the_first_poll_after_publication_witness :
  let key := "receiver_buffers_desc" in
  (Wire.answer_len (Wire.reply key None) <= Wire.RECV_SIZE)%nat /\
  (Wire.answer_len (Wire.reply key (Some (JStr "ZGVzY3M=")))
   <= Wire.RECV_SIZE)%nat /\
  exists e',
    Wire.retrieve_agent_metadata Some id key DEFAULT_TIMEOUT
      false None late_publish fresh_env
    = Done (Some "ZGVzY3M=", [], e') /\
    calls e' = calls fresh_env ++ poll_calls key 1
               ++ [Call_get_metadata key] /\
    now e' = now fresh_env + POLL_INTERVAL * 1 + overrun [slow_tick] + 2.
Proof.
  cbn zeta.
  assert (Hmiss : (Wire.answer_len (Wire.reply "receiver_buffers_desc" None)
                   <= Wire.RECV_SIZE)%nat)
    by (apply Nat.leb_le; vm_compute; reflexivity).
  assert (Hhit : (Wire.answer_len
                    (Wire.reply "receiver_buffers_desc"
                       (Some (JStr "ZGVzY3M=")))
                  <= Wire.RECV_SIZE)%nat)
    by (apply Nat.leb_le; vm_compute; reflexivity).
  split; [exact Hmiss|]. split; [exact Hhit|].
  destruct (found_at_the_first_poll_after_publication Some id
              "receiver_buffers_desc" DEFAULT_TIMEOUT [slow_tick] []
              {| arrivals := [SET "receiver_buffers_desc" (JStr "ZGVzY3M=")];
                 latency := 2; oversleep := 0; loaded := false |}
              fresh_env "ZGVzY3M=" "ZGVzY3M="
              eq_refl eq_refl ltac:(discriminate) eq_refl
              ltac:(vm_compute; reflexivity) Hmiss)
    as (e' & Hcalls & Hnow & Hdone & _).
  exists e'. split; [exact (Hdone Hhit)|]. split; [exact Hcalls | exact Hnow].
Defined.

Lemma builtin_retrieval_gives_up_witness :
  let ticks := replicate 5 quiet_tick in
  retrieve_agent_metadata Some id "receiver_metadata" 500 true None
    ticks fresh_env = Done (None, ticks, fresh_env) /\
  retrieve_agent_metadata Some id "receiver_metadata" 500 true (Some "")
    ticks fresh_env = Done (None, ticks, fresh_env) /\
  exists n e',
    retrieve_agent_metadata Some id "receiver_metadata" 500 true
      (Some "receiver") ticks fresh_env = Done (None, drop n ticks, e') /\
    (n <= max_polls 500)%nat /\
    500 <= now e' - now fresh_env /\
    now e' = now fresh_env + POLL_INTERVAL * Z.of_nat n
             + overrun (take n ticks) /\
    calls e' = calls fresh_env
               ++ [Call_fetch_remote_metadata "receiver" "receiver_metadata"]
               ++ check_calls "receiver" n /\
    (n = 0%nat \/
     POLL_INTERVAL * Z.of_nat (n - 1) + overrun (take (n - 1) ticks) < 500).
Proof.
  apply (builtin_retrieval_gives_up Some id "receiver_metadata" "receiver"
           500 (replicate 5 quiet_tick) fresh_env).
  - discriminate.
  - repeat constructor.
  - vm_compute. lia.
Defined.

Lemma published_descriptors_are_retrieved_witness :
  let t := {| arrivals := [SET "initiator_meta" (JStr "aQ==");
                           GET "target_descs"];
              latency := 1; oversleep := 0; loaded := false |} in
  let md : gmap string json := {[ "target_meta" := JStr "bQ==" ]} in
  let e_of := fun blob : string =>
    {| now := 0; server := <[ "target_descs" := JStr blob ]> md;
       calls := [] |} in
  (Wire.answer_len (Wire.reply "target_descs" (Some (JStr short_value)))
   <= Wire.RECV_SIZE)%nat /\
  (exists e1,
     Wire.retrieve_descriptors string Some Some "target_descs" [t]
       (e_of short_value)
     = Done (Some short_value, [], e1)) /\
  (Wire.RECV_SIZE
   < Wire.answer_len (Wire.reply "target_descs" (Some (JStr long_value))))%nat
  /\
  (exists e1,
     Wire.retrieve_descriptors string Some Some "target_descs" [t]
       (e_of long_value)
     = Raised (None, [], e1)).
Proof.
  cbn zeta.
  assert (Hshort : (Wire.answer_len
                      (Wire.reply "target_descs" (Some (JStr short_value)))
                    <= Wire.RECV_SIZE)%nat)
    by (apply Nat.leb_le; vm_compute; reflexivity).
  assert (Hlong : (Wire.RECV_SIZE
                   < Wire.answer_len
                       (Wire.reply "target_descs"
                          (Some (JStr long_value))))%nat)
    by (apply Nat.ltb_lt; vm_compute; reflexivity).
  split; [exact Hshort|]. split.
  { destruct (published_descriptors_are_retrieved string id Some id Some
                short_value "target_descs" {[ "target_meta" := JStr "bQ==" ]}
                {| arrivals := [SET "initiator_meta" (JStr "aQ==");
                                GET "target_descs"];
                   latency := 1; oversleep := 0; loaded := false |} []
                {| now := 0;
                   server := <[ "target_descs" := JStr short_value ]>
                               {[ "target_meta" := JStr "bQ==" ]};
                   calls := [] |}
                eq_refl eq_refl eq_refl)
      as (e1 & _ & Hdone & _).
    exists e1. exact (Hdone Hshort). }
  split; [exact Hlong|].
  destruct (published_descriptors_are_retrieved string id Some id Some
              long_value "target_descs" {[ "target_meta" := JStr "bQ==" ]}
              {| arrivals := [SET "initiator_meta" (JStr "aQ==");
                              GET "target_descs"];
                 latency := 1; oversleep := 0; loaded := false |} []
              {| now := 0;
                 server := <[ "target_descs" := JStr long_value ]>
                             {[ "target_meta" := JStr "bQ==" ]};
                 calls := [] |}
              eq_refl eq_refl eq_refl)
    as (e1 & _ & _ & Hraise).
  exists e1. exact (Hraise Hlong).
Defined.

Lemma published_metadata_is_retrieved_witness :
  let md : gmap string json := {[ "old" := JNum 1 ]} in
  let e_of := fun blob : string =>
    {| now := 0; server := <[ "target_meta" := JStr blob ]> md;
       calls := [] |} in
  publish_agent_metadata unit id short_value "target_meta" true None md
  = (md, []) /\
  (Wire.answer_len (Wire.reply "target_meta" (Some (JStr short_value)))
   <= Wire.RECV_SIZE)%nat /\
  (exists e1,
     Wire.retrieve_agent_metadata Some id "target_meta" DEFAULT_TIMEOUT
       false None [quiet_tick] (e_of short_value)
     = Done (Some short_value, [], e1) /\
     calls e1 = [Call_get_metadata "target_meta"]) /\
  (Wire.RECV_SIZE
   < Wire.answer_len (Wire.reply "target_meta" (Some (JStr long_value))))%nat
  /\
  (exists e1,
     Wire.retrieve_agent_metadata Some id "target_meta" DEFAULT_TIMEOUT
       false None [quiet_tick] (e_of long_value)
     = Raised (None, [], e1)).
Proof.
  cbn zeta.
  assert (Hshort : (Wire.answer_len
                      (Wire.reply "target_meta" (Some (JStr short_value)))
                    <= Wire.RECV_SIZE)%nat)
    by (apply Nat.leb_le; vm_compute; reflexivity).
  assert (Hlong : (Wire.RECV_SIZE
                   < Wire.answer_len
                       (Wire.reply "target_meta"
                          (Some (JStr long_value))))%nat)
    by (apply Nat.ltb_lt; vm_compute; reflexivity).
  destruct (published_metadata_is_retrieved unit id Some id short_value
              "target_meta" {[ "old" := JNum 1 ]} DEFAULT_TIMEOUT
              quiet_tick []
              {| now := 0;
                 server := <[ "target_meta" := JStr short_value ]>
                             {[ "old" := JNum 1 ]};
                 calls := [] |}
              eq_refl eq_refl eq_refl ltac:(discriminate) eq_refl)
    as (Hpub & e1 & Hcalls & Hdone & _).
  split; [exact Hpub|]. split; [exact Hshort|]. split.
  { exists e1. split; [exact (Hdone Hshort) | exact Hcalls]. }
  split; [exact Hlong|].
  destruct (published_metadata_is_retrieved unit id Some id long_value
              "target_meta" {[ "old" := JNum 1 ]} DEFAULT_TIMEOUT
              quiet_tick []
              {| now := 0;
                 server := <[ "target_meta" := JStr long_value ]>
                             {[ "old" := JNum 1 ]};
                 calls := [] |}
              eq_refl eq_refl eq_refl)
    as (_ & e2 & _ & _ & Hraise).
  - intros H. vm_compute in H. discriminate.
  - reflexivity.
  - exists e2. exact (Hraise Hlong).
Defined.

End RetrievalWitnesses.

(** ** The descriptor exchange, requesting side *)

Section RequesterMore.

Import Handshake.

Variable descs : Type.
Variable deserialize_descs : string -> option descs.

Local Abbreviation scan := (scan_notifs descs deserialize_descs).
Local Abbreviation READY peer := (peer, "READY"%string).

Lemma div3_small (n : nat) : (n < 3 -> n / 3 = 0)%nat.
Proof. intros H. now apply Nat.div_small. Qed.

Ltac ready_tail :=
  cbn [ready_sends Nat.add replicate];
  repeat match goal with
         | |- context [if ?b then _ else _] => destruct b
         end;
  cbn [ready_sends Nat.add replicate app];
  rewrite ?app_nil_r; reflexivity.

Lemma request_loop_outcomes (peer : string) :
  forall (fuel : nat) (inbox : list (gmap string (list string)))
         (rc : Z) (sent : list (string * string)),
    (length inbox / 3 < fuel)%nat ->
    match request_loop descs deserialize_descs fuel peer rc inbox sent with
    | Done (r, post, sent') =>
        exists pre d v,
          r = Some v /\
          inbox = pre ++ d :: post /\
          Forall (fun n => scan peer n = None) pre /\
          scan peer d = Some v /\
          sent' = sent ++ replicate (ready_sends rc (S (length pre / 3)))
                            (READY peer)
    | Starved (r, rest, sent') =>
        r = None /\ rest = [] /\
        Forall (fun n => scan peer n = None) inbox /\
        sent' = sent ++ replicate (ready_sends rc (S (length inbox / 3)))
                          (READY peer)
    | Raised _ => False
    end.
Proof.
  induction fuel as [|fuel IH]; intros inbox rc sent Hfuel; [lia|].
  cbn [request_loop].
  destruct inbox as [|a [|b [|c rest]]].
  - cbn [check_descs]. repeat split; [constructor | ready_tail].
  - cbn [check_descs]. destruct (scan peer a) as [v|] eqn:Ha.
    + exists [], a, v. repeat split; [constructor | exact Ha | ready_tail].
    + repeat split; [repeat constructor; exact Ha | ready_tail].
  - cbn [check_descs]. destruct (scan peer a) as [v|] eqn:Ha.
    + exists [], a, v. repeat split; [constructor | exact Ha | ready_tail].
    + destruct (scan peer b) as [v|] eqn:Hb.
      * exists [a], b, v.
        repeat split; [repeat constructor; exact Ha | exact Hb | ready_tail].
      * repeat split; [repeat constructor; assumption | ready_tail].
  - cbn [check_descs]. destruct (scan peer a) as [v|] eqn:Ha.
    + exists [], a, v. repeat split; [constructor | exact Ha | ready_tail].
    + destruct (scan peer b) as [v|] eqn:Hb.
      * exists [a], b, v.
        repeat split; [repeat constructor; exact Ha | exact Hb | ready_tail].
      * destruct (scan peer c) as [v|] eqn:Hc.
        -- exists [a; b], c, v.
           repeat split;
             [repeat constructor; assumption | exact Hc | ready_tail].
        -- cbn [length] in Hfuel. rewrite div3_SSS in Hfuel.
           specialize (IH rest (rc + 1)
                         (if rc mod 5 =? 0 then sent ++ [READY peer]
                          else sent) ltac:(lia)).
           destruct (request_loop descs deserialize_descs fuel peer (rc + 1)
                       rest _) as [[[r post] sent']|[[r post] sent']|x];
             [| |exact IH].
           ++ destruct IH as (pre & d & v & -> & -> & Hpre & Hd & ->).
              exists (a :: b :: c :: pre), d, v.
              repeat split; try assumption.
              ** repeat (constructor; [assumption|]). exact Hpre.
              ** cbn [length]. rewrite div3_SSS.
                 cbn [ready_sends].
                 destruct (rc mod 5 =? 0); cbn [Nat.add replicate];
                   [now rewrite <- app_assoc | reflexivity].
           ++ destruct IH as (-> & -> & Hall & ->).
              repeat split.
              ** repeat (constructor; [assumption|]). exact Hall.
              ** cbn [length]. rewrite div3_SSS.
                 cbn [ready_sends].
                 destruct (rc mod 5 =? 0); cbn [Nat.add replicate];
                   [now rewrite <- app_assoc | reflexivity].
Qed.

(** X14: the requesting side never ends its exchange without
    descriptors.  Whatever is delivered, a run that comes to its end
    returns the descriptors scanned from the first drain that yields some,
    having left the later drains unread; a run that saw none in any drain
    is still asking when the schedule ends.  Either way it has sent
    [READY] once for every five turns begun, each turn draining up to
    three times; with a [deserialize_descs] that returns descriptors or
    [None], the loop has no third way to end. *)
Theorem requester_never_ends_empty_handed (peer : string)
    (inbox : list (gmap string (list string)))
    (sent : list (string * string)) :
  match request_descs descs deserialize_descs peer inbox sent with
  | Done (r, post, sent') =>
      exists pre d v,
        r = Some v /\
        inbox = pre ++ d :: post /\
        Forall (fun n => scan_notifs descs deserialize_descs peer n = None)
          pre /\
        scan_notifs descs deserialize_descs peer d = Some v /\
        sent' = sent ++ replicate (S (length pre / 3 / 5)) (peer, "READY")
  | Starved (r, rest, sent') =>
      r = None /\ rest = [] /\
      Forall (fun n => scan_notifs descs deserialize_descs peer n = None)
        inbox /\
      sent' = sent ++ replicate (S (length inbox / 3 / 5)) (peer, "READY")
  | Raised _ => False
  end.
Proof.
  unfold request_descs.
  assert (Hfuel : (length inbox / 3 < S (length inbox))%nat).
  { assert (length inbox / 3 <= length inbox)%nat
      by (apply Nat.Div0.div_le_upper_bound; lia).
    lia. }
  pose proof (request_loop_outcomes peer (S (length inbox)) inbox 0 sent Hfuel)
    as H.
  destruct (request_loop descs deserialize_descs (S (length inbox)) peer 0
              inbox sent) as [[[r post] sent']|[[r post] sent']|x];
    [| |exact H].
  - destruct H as (pre & d & v & Hr & Hin & Hpre & Hd & Hs).
    exists pre, d, v. rewrite ready_sends_from_zero in Hs. auto.
  - destruct H as (Hr & Hrest & Hall & Hs).
    rewrite ready_sends_from_zero in Hs. auto.
Qed.

End RequesterMore.

(** ** The progress message, from the receiver's [f"P:{n}"] to the
    sender's [int(msg[2:])] *)

Section ProgressWire.

Import SenderReceiver Numerals.

Lemma of_uint_acc_val (d : Decimal.uint) :
  forall p : positive, Z.pos (Pos.of_uint_acc d p) = uint_val (Z.pos p) d.
Proof.
  induction d; intros p; cbn [Pos.of_uint_acc uint_val];
    try reflexivity; rewrite IHd; f_equal; lia.
Qed.

Lemma of_uint_val (d : Decimal.uint) : Z.of_uint d = uint_val 0 d.
Proof.
  unfold Z.of_uint.
  induction d; cbn [Pos.of_uint uint_val]; try reflexivity;
    try exact IHd;
    cbn [Z.of_N]; rewrite of_uint_acc_val; reflexivity.
Qed.


Lemma digits_of_numeral (d : Decimal.uint) :
  forall (after_digit : bool) (acc : Z),
    Py.digits after_digit acc (digit_chars d) =
    match d with
    | Decimal.Nil => if after_digit then Some acc else None
    | _ => Some (uint_val acc d)
    end.
Proof.
  unfold digit_chars.
  induction d; intros b acc;
    cbn [NilEmpty.string_of_uint list_ascii_of_string Py.digits uint_val];
    try reflexivity;
    change (Ascii.eqb _ "_"%char) with false; cbv iota;
    (match goal with
     | |- context [Py.digit_of ?c] =>
         let v := eval vm_compute in (Py.digit_of c) in
         change (Py.digit_of c) with v
     end);
    cbv iota; rewrite IHd; destruct d; reflexivity.
Qed.

Lemma numeral_has_no_space (d : Decimal.uint) :
  Forall (fun c => Py.is_space c = false) (digit_chars d).
Proof.
  unfold digit_chars.
  induction d; cbn [NilEmpty.string_of_uint list_ascii_of_string];
    constructor; (reflexivity || assumption).
Qed.

Lemma numeral_starts_with_digit (d : Decimal.uint) :
  d <> Decimal.Nil ->
  exists c cs,
    digit_chars d = c :: cs /\
    Ascii.eqb c "-"%char = false /\ Ascii.eqb c "+"%char = false.
Proof.
  unfold digit_chars. intros Hd.
  destruct d; [congruence| ..];
    cbn [NilEmpty.string_of_uint list_ascii_of_string];
    eexists _, _; (split; [reflexivity|]); split; reflexivity.
Qed.

Lemma lstrip_no_space (cs : list ascii) :
  Forall (fun c => Py.is_space c = false) cs -> Py.lstrip cs = cs.
Proof. intros H. destruct H as [|c cs Hc _]; cbn; [|rewrite Hc]; reflexivity. Qed.

Lemma strip_no_space (cs : list ascii) :
  Forall (fun c => Py.is_space c = false) cs -> Py.strip cs = cs.
Proof.
  intros H. unfold Py.strip. rewrite (lstrip_no_space cs H).
  rewrite lstrip_no_space by (apply Forall_rev; exact H).
  apply rev_involutive.
Qed.

Lemma int_of_str (n : Z) : Py.int (Py.str n) = Some n.
Proof.
  unfold Py.str, Py.int. pose proof (DecimalZ.of_to n) as Hn.
  destruct (Z.to_int n) as [d|d] eqn:E.
  - assert (Hd : d <> Decimal.Nil).
    { destruct n; cbn in E; try discriminate; injection E as <-;
        [discriminate | apply DecimalPos.Unsigned.to_uint_nonnil]. }
    cbn [NilZero.string_of_int]. unfold NilZero.string_of_uint.
    assert (Hs : match d with
                 | Decimal.Nil => "0"%string
                 | _ => NilEmpty.string_of_uint d
                 end = NilEmpty.string_of_uint d)
      by (destruct d; congruence).
    rewrite Hs. fold (digit_chars d).
    rewrite strip_no_space by apply numeral_has_no_space.
    destruct (numeral_starts_with_digit d Hd) as (c & cs & Hc & Hm & Hp).
    rewrite Hc, Hm, Hp, <- Hc, digits_of_numeral.
    cbn [Z.of_int] in Hn. rewrite of_uint_val in Hn.
    destruct d; congruence.
  - assert (Hd : d <> Decimal.Nil).
    { destruct n; cbn in E; try discriminate. injection E as <-.
      apply DecimalPos.Unsigned.to_uint_nonnil. }
    cbn [NilZero.string_of_int]. unfold NilZero.string_of_uint.
    assert (Hs : match d with
                 | Decimal.Nil => "0"%string
                 | _ => NilEmpty.string_of_uint d
                 end = NilEmpty.string_of_uint d)
      by (destruct d; congruence).
    rewrite Hs. cbn [list_ascii_of_string]. fold (digit_chars d).
    rewrite strip_no_space
      by (constructor; [reflexivity | apply numeral_has_no_space]).
    change (Ascii.eqb "-" "-") with true. cbv iota.
    rewrite digits_of_numeral.
    cbn [Z.of_int] in Hn. rewrite of_uint_val in Hn.
    destruct d; try congruence; cbn [fmap option_fmap option_map];
      f_equal; exact Hn.
Qed.

Lemma startswith_append (p x : string) : Py.startswith (p +:+ x) p = true.
Proof.
  unfold Py.startswith. induction p as [|c p IH].
  - now destruct x.
  - change (String c p +:+ x) with (String c (p +:+ x)).
    cbn [String.prefix]. destruct (ascii_dec c c); [exact IH | congruence].
Qed.

(** X15: the progress message survives the wire.  What the receiver
    sends after accepting transfer [i], when [i + 1] is a multiple of the
    progress interval, is one message to the sender; the sender's drain
    recognises it by its prefix, reads the count [i + 1] back from the
    decimal digits, and raises [receiver_progress] to it unless it already
    knows a count at least as large. *)
Theorem progress_message_round_trip (sender_name : string) (i : Z)
    (s : sender_state) :
  (i + 1) mod PROGRESS_UPDATE_INTERVAL = 0 ->
  exists msg,
    progress_note sender_name i = [(sender_name, msg)] /\
    Py.startswith msg "P:" = true /\
    Py.int (Py.bytes_from 2 msg) = Some (i + 1) /\
    update_progress [msg] s
    = Done (if receiver_progress s <? i + 1 then set_progress (i + 1) s
            else s).
Proof.
  intros Hmod. exists ("P:" +:+ Py.str (i + 1)).
  unfold progress_note. rewrite Hmod. cbn [Z.eqb].
  split; [reflexivity|].
  assert (Hstart : Py.startswith ("P:" +:+ Py.str (i + 1)) "P:" = true).
  { apply startswith_append. }
  assert (Hint : Py.int (Py.bytes_from 2 ("P:" +:+ Py.str (i + 1)))
                 = Some (i + 1)).
  { change (Py.bytes_from 2 ("P:" +:+ Py.str (i + 1))) with (Py.str (i + 1)).
    apply int_of_str. }
  split; [exact Hstart|]. split; [exact Hint|].
  cbn [update_progress]. rewrite Hstart, Hint.
  destruct (receiver_progress s <? i + 1); reflexivity.
Qed.

Lemma progress_message_round_trip_witness :
  exists msg,
    progress_note "sender" 31 = [("sender", msg)] /\
    Py.startswith msg "P:" = true /\
    Py.int (Py.bytes_from 2 msg) = Some (31 + 1) /\
    update_progress [msg] (sender_init Scenarios.zeroed)
    = Done (if receiver_progress (sender_init Scenarios.zeroed) <? 31 + 1
            then set_progress (31 + 1) (sender_init Scenarios.zeroed)
            else sender_init Scenarios.zeroed).
Proof.
  apply (progress_message_round_trip "sender" 31
           (sender_init Scenarios.zeroed)).
  reflexivity.
Defined.

End ProgressWire.

(** ** The consumer: headers *)

Section ReceiverMore.

Import MemoryUtils SenderReceiver Layout.

Local Abbreviation hdr memory_addr i :=
  (memory_addr + BUFFER_BASE_OFFSET + i * BUFFER_ENTRY_SIZE).

Lemma entry_size : BUFFER_ENTRY_SIZE = 16777216.
Proof. reflexivity. Qed.

Lemma init_headers_list (memory_addr : Z) (m : memory) (l : list Z) :
  exists m',
    foldl (fun om i => m0 ← om; write_uint64 m0 (hdr memory_addr i) SENTINEL)
      (Some m) l = Some m' /\
    (forall i, i ∈ l -> read_uint64 m' (hdr memory_addr i) = SENTINEL) /\
    (forall a,
       (forall i, i ∈ l ->
          a < hdr memory_addr i \/ hdr memory_addr i + 8 <= a) ->
       m' a = m a).
Proof.
  induction l as [|x l IH] using rev_ind.
  - exists m. cbn. split; [reflexivity|]. split; [|reflexivity].
    intros i Hi. inversion Hi.
  - destruct IH as (m1 & Hrun & Hread & Hframe).
    exists (poke_uint64 m1 (hdr memory_addr x) SENTINEL).
    rewrite foldl_app. cbn [foldl]. rewrite Hrun. cbn [mbind option_bind].
    split; [apply write_sentinel|]. split.
    + intros i Hi.
      destruct (Z.eq_dec i x) as [->|Hne].
      * rewrite read_poke_uint64. reflexivity.
      * rewrite read_poke_uint64_other by (rewrite entry_size; lia).
        apply Hread. apply elem_of_app in Hi as [Hi|Hi]; [exact Hi|].
        apply list_elem_of_singleton in Hi. congruence.
    + intros a Ha. unfold poke_uint64.
      destruct (Ha x) as [Hlo|Hhi]; [apply elem_of_app; right; left| |].
      * rewrite store_bytes_below by exact Hlo.
        apply Hframe. intros i Hi. apply Ha. apply elem_of_app. now left.
      * rewrite store_bytes_above by (rewrite length_encode_le; lia).
        apply Hframe. intros i Hi. apply Ha. apply elem_of_app. now left.
Qed.

(** X16: the initialisation of the receiver's headers.  The memory is
    allocated once, [TOTAL_MEMORY_SIZE] bytes sized for the 64 buffers of
    the default ring, while the loop runs over the [num_buffers] of the
    run.  With at most 64 buffers every header it writes lies inside the
    allocated memory; the initialisation succeeds, afterwards the header
    of every slot below [num_buffers] reads as the sentinel, and no byte
    outside those headers has changed. *)
Theorem init_headers_sets_every_sentinel (g : globals) (memory_addr : Z)
    (m : memory) :
  num_buffers g <= NUM_BUFFERS ->
  exists m',
    init_headers g memory_addr m = Some m' /\
    (forall i, 0 <= i < num_buffers g ->
       inside (memory_addr + get_buffer_offset i, 8, 0)
         (receiver_reg_desc memory_addr) /\
       read_uint64 m' (memory_addr + get_buffer_offset i) = SENTINEL) /\
    (forall a,
       (forall i, 0 <= i < num_buffers g ->
          a < memory_addr + get_buffer_offset i \/
          memory_addr + get_buffer_offset i + 8 <= a) ->
       m' a = m a).
Proof.
  intros HN.
  destruct (init_headers_list memory_addr m (seqZ 0 (num_buffers g)))
    as (m' & Hrun & Hread & Hframe).
  exists m'. split; [exact Hrun|]. unfold get_buffer_offset. split.
  - intros i Hi. split.
    + unfold inside, receiver_reg_desc, base, len. cbn [fst snd].
      assert (Ht : TOTAL_MEMORY_SIZE = 2 + 64 * 16777216) by reflexivity.
      assert (Hb : BUFFER_BASE_OFFSET = 2) by reflexivity.
      assert (H64 : NUM_BUFFERS = 64) by reflexivity.
      rewrite Ht, Hb, entry_size. lia.
    + replace (memory_addr + (BUFFER_BASE_OFFSET + i * BUFFER_ENTRY_SIZE))
        with (hdr memory_addr i) by lia.
      apply Hread. apply elem_of_seqZ. lia.
  - intros a Ha. apply Hframe. intros i Hi. apply elem_of_seqZ in Hi.
    specialize (Ha i ltac:(lia)). lia.
Qed.

Lemma init_headers_sets_every_sentinel_witness :
  let g := Scenarios.one_transfer in
  let memory_addr := Scenarios.receiver_addr in
  num_buffers g <= NUM_BUFFERS /\
  exists m',
    init_headers g memory_addr Scenarios.zeroed = Some m' /\
    (forall i, 0 <= i < num_buffers g ->
       inside (memory_addr + get_buffer_offset i, 8, 0)
         (receiver_reg_desc memory_addr) /\
       read_uint64 m' (memory_addr + get_buffer_offset i) = SENTINEL) /\
    (forall a,
       (forall i, 0 <= i < num_buffers g ->
          a < memory_addr + get_buffer_offset i \/
          memory_addr + get_buffer_offset i + 8 <= a) ->
       m' a = Scenarios.zeroed a).
Proof.
  cbn zeta. split; [vm_compute; discriminate|].
  apply (init_headers_sets_every_sentinel Scenarios.one_transfer
           Scenarios.receiver_addr Scenarios.zeroed).
  vm_compute. discriminate.
Defined.

(** X17: accepting a transfer resets its slot.  A turn of the consumer
    loop that runs to its end found the expected index [i] in the header
    of slot [i mod num_buffers], has put the sentinel there, and has
    counted the transfer. *)
Theorem accepted_slot_is_reset (g : globals) (memory_addr : Z)
    (sender_name : string) (sched sched' : list (list (Z * Z)))
    (s s' : receiver_state) :
  receiver_iteration g memory_addr sender_name sched s = Done (s', sched') ->
  let addr := receiver_header_addr g memory_addr (transfers_received s) in
  read_uint64 (r_mem s') addr = SENTINEL /\
  transfers_received s' = transfers_received s + 1 /\
  exists m1,
    read_uint64 m1 addr = transfers_received s /\
    r_mem s' = poke_uint64 m1 addr SENTINEL.
Proof.
  cbn zeta. unfold receiver_iteration, receiver_header_addr.
  destruct (num_buffers g =? 0); [discriminate|].
  destruct (poll_header _ _ sched (r_mem s)) as [seq m sched1|m] eqn:Hp;
    [|discriminate].
  assert (Hseq : read_uint64 m
                   (memory_addr + BUFFER_BASE_OFFSET
                    + transfers_received s mod num_buffers g
                      * BUFFER_ENTRY_SIZE) = transfers_received s).
  { clear -Hp. revert Hp. generalize (r_mem s). 
    induction sched as [|pokes sched IH]; intros m0; cbn [poll_header];
      [discriminate|].
    destruct (Z.eqb_spec (read_uint64 (land pokes m0)
                (memory_addr + BUFFER_BASE_OFFSET
                 + transfers_received s mod num_buffers g * BUFFER_ENTRY_SIZE))
                (transfers_received s)) as [E|E].
    - intros [= _ <- _]. exact E.
    - apply IH. }
  rewrite write_sentinel.
  destruct ((transfers_received s + 1) mod PROGRESS_UPDATE_INTERVAL =? 0);
    intros [= <- _]; cbn [r_mem transfers_received];
    (split; [apply read_poke_uint64|]; split; [reflexivity|];
     exists m; split; [exact Hseq | reflexivity]).
Qed.

Lemma accepted_slot_is_reset_witness :
  let s := receiver_init Scenarios.all_ones in
  let o := receiver_iteration Scenarios.one_transfer Scenarios.receiver_addr
             "sender" Scenarios.overrun_then_expected s in
  let s' := fst (outcome_state o) in
  let addr :=
    receiver_header_addr Scenarios.one_transfer Scenarios.receiver_addr
      (transfers_received s) in
  read_uint64 (r_mem s') addr = SENTINEL /\
  transfers_received s' = transfers_received s + 1 /\
  exists m1,
    read_uint64 m1 addr = transfers_received s /\
    r_mem s' = poke_uint64 m1 addr SENTINEL.
Proof.
  apply (accepted_slot_is_reset Scenarios.one_transfer Scenarios.receiver_addr
           "sender" Scenarios.overrun_then_expected []).
  vm_compute. reflexivity.
Defined.

Lemma in_step_turns (g : globals) (memory_addr : Z) (sender_name : string)
    (n : nat) :
  forall s,
    num_buffers g <> 0 ->
    0 <= transfers_received s ->
    transfers_received s + Z.of_nat n <= 2 ^ 64 ->
    exists s',
      receiver_turns n g memory_addr sender_name
        (lockstep g memory_addr (transfers_received s) (Z.of_nat n)) s
      = Done (s', []) /\
      transfers_received s' = transfers_received s + Z.of_nat n.
Proof.
  induction n as [|n IH]; intros s HN Hlo Hhi.
  - exists s. cbn. split; [reflexivity | lia].
  - unfold lockstep. rewrite seqZ_cons by lia. cbn [fmap list_fmap].
    fold (lockstep g memory_addr (Z.succ (transfers_received s))
            (Z.pred (Z.of_nat (S n)))).
    cbn [receiver_turns]. unfold receiver_iteration at 1.
    apply Z.eqb_neq in HN. rewrite HN.
    cbn [poll_header land fold_left fst snd].
    unfold receiver_header_addr at 1.
    rewrite read_poke_uint64.
    rewrite (Z.mod_small (transfers_received s)) by lia.
    rewrite Z.eqb_refl. cbn [negb]. rewrite write_sentinel.
    apply Z.eqb_neq in HN.
    replace (Z.pred (Z.of_nat (S n))) with (Z.of_nat n) by lia.
    replace (Z.succ (transfers_received s)) with (transfers_received s + 1)
      by lia.
    destruct ((transfers_received s + 1) mod PROGRESS_UPDATE_INTERVAL =? 0).
    + match goal with
      | |- context [receiver_turns n g memory_addr sender_name _ ?s1] =>
          destruct (IH s1) as (s' & Hrun & Htr); [exact HN| cbn; lia| cbn; lia|]
      end.
      cbn [transfers_received] in Hrun, Htr.
      exists s'. rewrite Hrun. split; [reflexivity | lia].
    + match goal with
      | |- context [receiver_turns n g memory_addr sender_name _ ?s1] =>
          destruct (IH s1) as (s' & Hrun & Htr); [exact HN| cbn; lia| cbn; lia|]
      end.
      cbn [transfers_received] in Hrun, Htr.
      exists s'. rewrite Hrun. split; [reflexivity | lia].
Qed.

(** X18: with a producer in step, the consumer accepts every transfer.
    When the header of each transfer lands in its slot before the
    consumer's next read, the loop comes to its end after exactly one read
    per transfer, with [transfers_received = num_transfers] and no
    mismatch counted, for any ring size other than 0 and any number of
    transfers a header can hold. *)
Theorem consumer_keeps_up_with_a_producer_in_step (g : globals)
    (memory_addr : Z) (sender_name : string) (s : receiver_state) :
  num_buffers g <> 0 ->
  0 <= transfers_received s <= num_transfers g ->
  num_transfers g <= 2 ^ 64 ->
  exists s',
    receiver_loop g memory_addr sender_name
      (lockstep g memory_addr (transfers_received s)
         (num_transfers g - transfers_received s)) s
    = Done (s', []) /\
    transfers_received s' = num_transfers g /\
    sequence_mismatches s' = sequence_mismatches s.
Proof.
  intros HN Htr HT. unfold receiver_loop.
  destruct (in_step_turns g memory_addr sender_name
              (Z.to_nat (num_transfers g - transfers_received s)) s)
    as (s' & Hrun & Hcount); [exact HN | lia | lia |].
  rewrite Z2Nat.id in Hrun, Hcount by lia.
  exists s'. split; [exact Hrun|]. split; [lia|].
  pose proof (receiver_turns_effect g memory_addr sender_name
                (Z.to_nat (num_transfers g - transfers_received s))
                (lockstep g memory_addr (transfers_received s)
                   (num_transfers g - transfers_received s)) s) as H.
  cbn zeta in H. rewrite Hrun in H. cbn [outcome_state fst] in H. apply H.
Qed.

Lemma consumer_keeps_up_with_a_producer_in_step_witness :
  exists s',
    receiver_loop default_globals 4096 "sender"
      (lockstep default_globals 4096 0 1000) (receiver_init Scenarios.all_ones)
    = Done (s', []) /\
    transfers_received s' = 1000 /\
    sequence_mismatches s' = 0.
Proof.
  apply (consumer_keeps_up_with_a_producer_in_step default_globals 4096
           "sender" (receiver_init Scenarios.all_ones)).
  - discriminate.
  - vm_compute. split; discriminate.
  - vm_compute. discriminate.
Defined.

End ReceiverMore.

(** ** The producer: drains, gate, issues *)

Section SenderMore.

Import MemoryUtils SenderReceiver SenderTrace Layout.

Local Abbreviation K := BACKPRESSURE_THRESHOLD.

Ltac conjs := repeat match goal with |- _ /\ _ => split end.

Lemma update_progress_outcomes (msgs : list string) :
  forall s : sender_state,
    match update_progress msgs s with
    | Done s' =>
        Forall well_formed msgs /\
        receiver_progress s' = foldl Z.max (receiver_progress s) (reported msgs)
    | Raised s' =>
        exists l1 m l2,
          msgs = l1 ++ m :: l2 /\
          Forall well_formed l1 /\
          Py.startswith m "P:" = true /\
          Py.int (Py.bytes_from 2 m) = None /\
          receiver_progress s' = foldl Z.max (receiver_progress s) (reported l1)
    | Starved _ => False
    end.
Proof.
  induction msgs as [|msg msgs IH]; intros s; cbn [update_progress].
  - split; [constructor | reflexivity].
  - unfold reported. cbn [omap list_omap]. fold (reported msgs).
    destruct (Py.startswith msg "P:") eqn:Hp.
    + destruct (Py.int (Py.bytes_from 2 msg)) as [p|] eqn:Hi.
      * assert (Hwf : well_formed msg) by (intros _; rewrite Hi; eauto).
        assert (Hstep :
                  forall s1, receiver_progress s1
                             = Z.max (receiver_progress s) p ->
                  match update_progress msgs s1 with
                  | Done s' =>
                      Forall well_formed (msg :: msgs) /\
                      receiver_progress s'
                      = foldl Z.max (receiver_progress s) (p :: reported msgs)
                  | Raised s' =>
                      exists l1 m l2,
                        msg :: msgs = l1 ++ m :: l2 /\
                        Forall well_formed l1 /\
                        Py.startswith m "P:" = true /\
                        Py.int (Py.bytes_from 2 m) = None /\
                        receiver_progress s'
                        = foldl Z.max (receiver_progress s) (reported l1)
                  | Starved _ => False
                  end).
        { intros s1 Hs1. specialize (IH s1).
          destruct (update_progress msgs s1) as [s'|s'|s']; [| exact IH |].
          - destruct IH as [Hall Hrp]. split; [now constructor|].
            cbn [foldl]. now rewrite <- Hs1.
          - destruct IH as (l1 & m & l2 & -> & Hl1 & Hm1 & Hm2 & Hrp).
            exists (msg :: l1), m, l2.
            split; [reflexivity|]. split; [now constructor|].
            split; [exact Hm1|]. split; [exact Hm2|].
            unfold reported. cbn [omap list_omap]. rewrite Hp, Hi.
            fold (reported l1). cbn [foldl]. now rewrite <- Hs1. }
        destruct (Z.ltb_spec (receiver_progress s) p).
        -- apply Hstep. cbn. lia.
        -- apply Hstep. lia.
      * exists [], msg, msgs. cbn. repeat split; try assumption. constructor.
    + assert (Hwf : well_formed msg) by (intros Hx; congruence).
      specialize (IH s).
      destruct (update_progress msgs s) as [s'|s'|s']; [| exact IH |].
      * destruct IH as [Hall Hrp]. split; [now constructor | exact Hrp].
      * destruct IH as (l1 & m & l2 & -> & Hl1 & Hm1 & Hm2 & Hrp).
        exists (msg :: l1), m, l2.
        split; [reflexivity|]. split; [now constructor|].
        split; [exact Hm1|]. split; [exact Hm2|].
        unfold reported. cbn [omap list_omap]. rewrite Hp.
        exact Hrp.
Qed.

Lemma digit_count_le (cs : list ascii) : (digit_count cs <= length cs)%nat.
Proof.
  induction cs as [|c cs IH]; [reflexivity|].
  cbn [digit_count length]. destruct (Py.digit_of c); lia.
Qed.

Lemma length_chars (b : string) :
  length (list_ascii_of_string b) = String.length b.
Proof. induction b as [|c b IH]; [reflexivity|]. cbn. now rewrite IH. Qed.

Lemma length_bytes_from (n : nat) :
  forall b, (String.length (Py.bytes_from n b) <= String.length b - n)%nat.
Proof.
  induction n as [|n IH]; intros b; cbn [Py.bytes_from]; [lia|].
  destruct b as [|c b]; cbn [String.length]; [lia|].
  specialize (IH b). lia.
Qed.

(** Under the cap the model's [int] is the interpreter's. *)
Lemma int_capped_short (msg : string) :
  within_digit_cap msg ->
  int_capped (Py.bytes_from 2 msg) = Py.int (Py.bytes_from 2 msg).
Proof.
  unfold within_digit_cap, int_capped. intros Hlen.
  pose proof (digit_count_le (list_ascii_of_string (Py.bytes_from 2 msg))).
  pose proof (length_bytes_from 2 msg).
  rewrite length_chars in *.
  destruct (Nat.ltb_spec INT_MAX_STR_DIGITS
              (digit_count (list_ascii_of_string (Py.bytes_from 2 msg))));
    [lia | reflexivity].
Qed.

(** X19: a drain of progress notifications takes the maximum.  Over
    messages of the receiver that are each at most 4302 bytes long, no
    count exceeds the interpreter's cap of 4300 digits, so that [int]
    reads every one as the interpreter does, and the drain leaves
    [receiver_progress] at the largest of its old value and the counts of
    the messages that start with [P:]; messages that do not start with
    [P:] are skipped.  A message that starts with [P:] and whose rest is
    not a decimal number makes the drain raise, with [receiver_progress]
    at the maximum over the messages before it; the messages after it
    are not looked at. *)
Theorem drain_takes_the_maximum (receiver_name : string)
    (notifs : gmap string (list string)) (msgs : list string)
    (s : sender_state) :
  notifs !! receiver_name = Some msgs ->
  Forall within_digit_cap msgs ->
  Forall (fun msg => int_capped (Py.bytes_from 2 msg)
                     = Py.int (Py.bytes_from 2 msg)) msgs /\
  match drain_progress receiver_name notifs s with
  | Done s' =>
      Forall well_formed msgs /\
      receiver_progress s' = foldl Z.max (receiver_progress s) (reported msgs)
  | Raised s' =>
      exists l1 m l2,
        msgs = l1 ++ m :: l2 /\
        Forall well_formed l1 /\
        Py.startswith m "P:" = true /\
        Py.int (Py.bytes_from 2 m) = None /\
        receiver_progress s' = foldl Z.max (receiver_progress s) (reported l1)
  | Starved _ => False
  end.
Proof.
  unfold drain_progress. intros -> Hcap. split.
  - eapply Forall_impl; [exact Hcap|]. intros msg. apply int_capped_short.
  - apply update_progress_outcomes.
Qed.

Lemma drain_takes_the_maximum_witness :
  let msgs := ["P:32"; "ack"; "P:16"; "P:4x"; "P:48"] in
  let notifs : gmap string (list string) := {[ "receiver" := msgs ]} in
  let s := sender_init Scenarios.zeroed in
  notifs !! "receiver" = Some msgs /\
  Forall within_digit_cap msgs /\
  Forall (fun msg => int_capped (Py.bytes_from 2 msg)
                     = Py.int (Py.bytes_from 2 msg)) msgs /\
  match drain_progress "receiver" notifs s with
  | Done s' =>
      Forall well_formed msgs /\
      receiver_progress s' = foldl Z.max (receiver_progress s) (reported msgs)
  | Raised s' =>
      exists l1 m l2,
        msgs = l1 ++ m :: l2 /\
        Forall well_formed l1 /\
        Py.startswith m "P:" = true /\
        Py.int (Py.bytes_from 2 m) = None /\
        receiver_progress s' = foldl Z.max (receiver_progress s) (reported l1)
  | Starved _ => False
  end.
Proof.
  cbn zeta.
  assert (Hcap : Forall within_digit_cap
                   ["P:32"; "ack"; "P:16"; "P:4x"; "P:48"])
    by (repeat (constructor; [apply Nat.leb_le; reflexivity|]);
        constructor).
  split; [reflexivity|]. split; [exact Hcap|].
  apply (drain_takes_the_maximum "receiver"
           {[ "receiver" := ["P:32"; "ack"; "P:16"; "P:4x"; "P:48"] ]}
           ["P:32"; "ack"; "P:16"; "P:4x"; "P:48"]
           (sender_init Scenarios.zeroed)).
  - reflexivity.
  - exact Hcap.
Defined.

(** The memory, the counter of transfers and the statistics along the
    pieces of a turn. *)
Lemma update_progress_frame (msgs : list string) :
  forall s : sender_state,
    let s' := outcome_state (update_progress msgs s) in
    s_mem s' = s_mem s /\
    transfers_sent s' = transfers_sent s /\
    backpressure_checks s' = backpressure_checks s /\
    backpressure_waits s' = backpressure_waits s /\
    max_ahead s' = max_ahead s /\
    receiver_progress s <= receiver_progress s'.
Proof.
  induction msgs as [|msg msgs IH]; intros s; cbn [update_progress].
  - cbn. repeat split; lia.
  - destruct (Py.startswith msg "P:").
    + destruct (Py.int (Py.bytes_from 2 msg)) as [p|].
      * destruct (Z.ltb_spec (receiver_progress s) p).
        -- specialize (IH (set_progress p s)). cbn zeta in *.
           cbn [set_progress s_mem transfers_sent backpressure_checks
                  backpressure_waits max_ahead receiver_progress] in IH.
           destruct IH as (? & ? & ? & ? & ? & ?). repeat split; try assumption.
           lia.
        -- apply IH.
      * cbn. repeat split; lia.
    + apply IH.
Qed.

Lemma drain_progress_frame (name : string)
    (notifs : gmap string (list string)) (s : sender_state) :
  let s' := outcome_state (drain_progress name notifs s) in
  s_mem s' = s_mem s /\
  transfers_sent s' = transfers_sent s /\
  backpressure_checks s' = backpressure_checks s /\
  backpressure_waits s' = backpressure_waits s /\
  max_ahead s' = max_ahead s /\
  receiver_progress s <= receiver_progress s'.
Proof.
  unfold drain_progress. destruct (notifs !! name) as [msgs|].
  - apply update_progress_frame.
  - cbn. repeat split; lia.
Qed.

Lemma backpressure_wait_frame (name : string)
    (inbox : list (gmap string (list string))) :
  forall (s s' : sender_state) inbox',
    backpressure_wait name inbox s = Done (s', inbox') ->
    s_mem s' = s_mem s /\
    transfers_sent s' = transfers_sent s /\
    backpressure_checks s' = backpressure_checks s /\
    max_ahead s' = max_ahead s /\
    receiver_progress s <= receiver_progress s' /\
    transfers_sent s' - receiver_progress s' < K /\
    exists pre d,
      inbox = pre ++ d :: inbox' /\
      backpressure_waits s' = backpressure_waits s + Z.of_nat (length pre).
Proof.
  induction inbox as [|notifs inbox IH]; intros s s' inbox';
    cbn [backpressure_wait]; [discriminate|].
  pose proof (drain_progress_frame name notifs s) as Hf. cbn zeta in Hf.
  destruct (drain_progress name notifs s) as [s1|s1|s1]; try discriminate.
  cbn [outcome_state] in Hf.
  destruct Hf as (Hm & Ht & Hc & Hw & Hx & Hp).
  destruct (Z.leb_spec K (transfers_sent s1 - receiver_progress s1))
    as [Hge|Hlt].
  - intros Hrun. apply IH in Hrun.
    cbn [log s_mem transfers_sent backpressure_checks backpressure_waits
           max_ahead receiver_progress] in Hrun.
    destruct Hrun as (Hm' & Ht' & Hc' & Hx' & Hp' & Hlt' & pre & d & -> & Hw').
    conjs; try congruence; try lia.
    exists (notifs :: pre), d. split; [reflexivity|].
    cbn [length]. lia.
  - intros [= <- <-].
    cbn [log s_mem transfers_sent backpressure_checks backpressure_waits
           max_ahead receiver_progress].
    conjs; try congruence; try lia.
    exists [], notifs. split; [reflexivity|]. cbn [length]. lia.
Qed.

Lemma backpressure_gate_frame (name : string)
    (inbox inbox' : list (gmap string (list string))) (s s' : sender_state) :
  backpressure_gate name inbox s = Done (s', inbox') ->
  let ahead_count := transfers_sent s - receiver_progress s in
  s_mem s' = s_mem s /\
  transfers_sent s' = transfers_sent s /\
  max_ahead s' = Z.max (max_ahead s) ahead_count /\
  transfers_sent s' - receiver_progress s' < K /\
  (ahead_count < K ->
   inbox' = inbox /\
   receiver_progress s' = receiver_progress s /\
   backpressure_checks s' = backpressure_checks s /\
   backpressure_waits s' = backpressure_waits s) /\
  (K <= ahead_count ->
   exists pre d,
     inbox = pre ++ d :: inbox' /\
     backpressure_checks s' = backpressure_checks s + 1 /\
     backpressure_waits s' = backpressure_waits s + Z.of_nat (length pre)).
Proof.
  unfold backpressure_gate. cbn zeta.
  cbn [log s_mem transfers_sent backpressure_checks backpressure_waits
         max_ahead receiver_progress trace].
  assert (Hmax : (if max_ahead s <? transfers_sent s - receiver_progress s
                  then transfers_sent s - receiver_progress s
                  else max_ahead s)
                 = Z.max (max_ahead s)
                     (transfers_sent s - receiver_progress s)).
  { destruct (Z.ltb_spec (max_ahead s)
                (transfers_sent s - receiver_progress s)); lia. }
  destruct (Z.leb_spec K (transfers_sent s - receiver_progress s))
    as [Hge|Hlt].
  - intros Hrun. apply backpressure_wait_frame in Hrun.
    cbn [s_mem transfers_sent backpressure_checks backpressure_waits
           max_ahead receiver_progress] in Hrun.
    destruct Hrun as (Hm & Ht & Hc & Hx & Hp & Hlt & pre & d & -> & Hw).
    conjs; try congruence; try lia.
    intros _. exists pre, d. conjs; [reflexivity | lia | lia].
  - intros [= <- <-].
    cbn [s_mem transfers_sent backpressure_checks backpressure_waits
           max_ahead receiver_progress].
    conjs; try congruence; try lia.
    intros _. conjs; reflexivity.
Qed.

(** X20: what the statistics of the backpressure gate count.  When the
    gate lets a turn go on, the lead [transfers_sent - receiver_progress]
    is below [BACKPRESSURE_THRESHOLD] and [max_ahead] is the larger of
    its old value and the lead the turn started with.  A turn that
    started below the threshold asks for no notifications and leaves both
    counters alone.  A turn that started at or above it adds one to
    [backpressure_checks], asks for notifications once per drain, and
    adds to [backpressure_waits] the number of drains after which the
    lead was still too large: all drains but the last. *)
Theorem gate_statistics (receiver_name : string)
    (inbox inbox' : list (gmap string (list string))) (s s' : sender_state) :
  backpressure_gate receiver_name inbox s = Done (s', inbox') ->
  let ahead_count := transfers_sent s - receiver_progress s in
  transfers_sent s' - receiver_progress s' < BACKPRESSURE_THRESHOLD /\
  max_ahead s' = Z.max (max_ahead s) ahead_count /\
  (ahead_count < BACKPRESSURE_THRESHOLD ->
   inbox' = inbox /\
   backpressure_checks s' = backpressure_checks s /\
   backpressure_waits s' = backpressure_waits s) /\
  (BACKPRESSURE_THRESHOLD <= ahead_count ->
   exists drains,
     inbox = drains ++ inbox' /\
     (0 < length drains)%nat /\
     backpressure_checks s' = backpressure_checks s + 1 /\
     backpressure_waits s' = backpressure_waits s
                             + Z.of_nat (length drains) - 1).
Proof.
  intros Hrun. apply backpressure_gate_frame in Hrun. cbn zeta in *.
  destruct Hrun as (_ & _ & Hx & Hlt & Hbelow & Habove).
  conjs; try assumption.
  - intros Hl. destruct (Hbelow Hl) as (? & ? & ? & ?). now conjs.
  - intros Hge. destruct (Habove Hge) as (pre & d & -> & Hc & Hw).
    exists (pre ++ [d]). rewrite <- app_assoc. cbn [app].
    rewrite length_app. cbn [length]. conjs; [reflexivity | lia | lia | lia].
Qed.

Lemma gate_statistics_witness :
  let s := {| s_mem := Scenarios.zeroed; transfers_sent := 60;
              receiver_progress := 0; backpressure_checks := 0;
              backpressure_waits := 0; max_ahead := 59; trace := [] |} in
  let inbox : list (gmap string (list string)) :=
    [ ∅; ∅; {[ "receiver" := ["P:16"] ]}; ∅ ] in
  let o := backpressure_gate "receiver" inbox s in
  let s' := fst (outcome_state o) in
  let inbox' := snd (outcome_state o) in
  let ahead_count := transfers_sent s - receiver_progress s in
  transfers_sent s' - receiver_progress s' < BACKPRESSURE_THRESHOLD /\
  max_ahead s' = Z.max (max_ahead s) ahead_count /\
  (ahead_count < BACKPRESSURE_THRESHOLD ->
   inbox' = inbox /\
   backpressure_checks s' = backpressure_checks s /\
   backpressure_waits s' = backpressure_waits s) /\
  (BACKPRESSURE_THRESHOLD <= ahead_count ->
   exists drains,
     inbox = drains ++ inbox' /\
     (0 < length drains)%nat /\
     backpressure_checks s' = backpressure_checks s + 1 /\
     backpressure_waits s' = backpressure_waits s
                             + Z.of_nat (length drains) - 1).
Proof.
  apply (gate_statistics "receiver"
           [ ∅; ∅; {[ "receiver" := ["P:16"] ]}; ∅ ] [ ∅ ]
           {| s_mem := Scenarios.zeroed; transfers_sent := 60;
              receiver_progress := 0; backpressure_checks := 0;
              backpressure_waits := 0; max_ahead := 59; trace := [] |}).
  vm_compute. reflexivity.
Defined.

Lemma wait_xfer_frame (slot : Z) (states : list check_result) :
  forall (s s' : sender_state) states',
    wait_xfer slot states s = Done (s', states') ->
    s_mem s' = s_mem s /\
    receiver_progress s' = receiver_progress s.
Proof.
  induction states as [|r states IH]; intros s s' states';
    cbn [wait_xfer]; [discriminate|].
  destruct r as [[| |]|].
  - intros Hrun. apply IH in Hrun. exact Hrun.
  - intros [= <- _]. split; reflexivity.
  - intros [= <- _]. split; reflexivity.
  - intros [= <- _]. split; reflexivity.
Qed.

Lemma refresh_progress_frame (name : string)
    (inbox inbox' : list (gmap string (list string))) (s s' : sender_state) :
  refresh_progress name inbox s = Done (s', inbox') ->
  s_mem s' = s_mem s.
Proof.
  unfold refresh_progress.
  destruct (transfers_sent s mod PROGRESS_UPDATE_INTERVAL =? 0).
  - destruct inbox as [|notifs inbox0]; [discriminate|].
    pose proof (drain_progress_frame name notifs s) as Hf. cbn zeta in Hf.
    destruct (drain_progress name notifs s) as [s1|s1|s1]; try discriminate.
    intros [= <- _]. apply Hf.
  - intros [= <- _]. reflexivity.
Qed.

(** What a turn that runs to its end has done: quiet events of the gate,
    the polls of the slot's handle, the issue, and the quiet events of
    the drain that may follow; the header went into the slot before the
    issue. *)
Lemma sender_iteration_shape (g : globals) (buffers_addr : Z)
    (name : string) (env env' : sender_env) (s s' : sender_state) (b : bool) :
  sender_iteration g buffers_addr name env s = Done (b, s', env') ->
  let slot := transfers_sent s mod num_buffers g in
  0 < num_buffers g /\
  0 <= transfers_sent s <= UINT64_MAX /\
  s_mem s' = poke_uint64 (s_mem s) (sender_header_addr g buffers_addr
                                      (transfers_sent s)) (transfers_sent s) /\
  exists new1 k r0 progress r new2,
    Forall quiet new1 /\ r0 <> State PROC /\ Forall quiet new2 /\
    trace s' = trace s
               ++ (new1 ++ replicate k (Ev_check_xfer_state slot (State PROC))
                   ++ [Ev_check_xfer_state slot r0])
               ++ Ev_transfer slot (transfers_sent s) progress r :: new2 /\
    match r with
    | ERR => b = true /\ new2 = [] /\ transfers_sent s' = transfers_sent s
    | _ => b = false /\ transfers_sent s' = transfers_sent s + 1
    end.
Proof.
  unfold sender_iteration. cbn zeta.
  destruct (Z.eqb_spec (num_buffers g) 0) as [|Hn0]; [discriminate|].
  destruct (seqZ 0 (num_buffers g) !! Z.to_nat (transfers_sent s
                                                  mod num_buffers g))
    as [slot|] eqn:Hslot; [|discriminate].
  assert (Hpos : 0 < num_buffers g).
  { destruct (Z.ltb_spec 0 (num_buffers g)); [assumption|].
    rewrite seqZ_nil in Hslot by lia. discriminate. }
  assert (Hs : slot = transfers_sent s mod num_buffers g).
  { pose proof (Z.mod_pos_bound (transfers_sent s) (num_buffers g) Hpos).
    apply lookup_seqZ in Hslot. lia. }
  subst slot.
  destruct (backpressure_gate name (inbox env) s) as [[s1 i1]|[s1 i1]|[s1 i1]]
    eqn:Hg; try discriminate.
  pose proof (backpressure_gate_trace _ _ _ _ _ Hg) as (Ht1 & n1 & Htr1 & Hq1).
  apply backpressure_gate_frame in Hg. cbn zeta in Hg.
  destruct Hg as (Hm1 & _).
  destruct (wait_xfer _ (xfer_states env) s1) as [[s2 x2]|[s2 x2]|[s2 x2]]
    eqn:Hw; try discriminate.
  pose proof (wait_xfer_trace _ _ _ _ _ Hw)
    as (Ht2 & n2 & Htr2 & k & r0 & -> & Hr0).
  apply wait_xfer_frame in Hw. destruct Hw as (Hm2 & Hp2).
  destruct (write_uint64 (s_mem s2) _ (transfers_sent s2)) as [m3|] eqn:Hwr;
    [|discriminate].
  assert (Hrange : 0 <= transfers_sent s2 <= UINT64_MAX).
  { unfold write_uint64 in Hwr.
    destruct (0 <=? transfers_sent s2) eqn:E1;
      destruct (transfers_sent s2 <=? UINT64_MAX) eqn:E2;
      cbn in Hwr; try discriminate. lia. }
  rewrite write_uint64_Some in Hwr by exact Hrange.
  assert (Hm3 : m3 = poke_uint64 (s_mem s)
                       (sender_header_addr g buffers_addr (transfers_sent s))
                       (transfers_sent s)).
  { unfold sender_header_addr. rewrite <- Hm1, <- Hm2.
    rewrite Ht2, Ht1 in Hwr. congruence. }
  clear Hwr.
  destruct (transfer_results env) as [|state results]; [discriminate|].
  cbn [log s_mem transfers_sent receiver_progress backpressure_checks
         backpressure_waits max_ahead trace].
  destruct state.
  - destruct (refresh_progress name i1 _) as [[s6 i2]|[s6 i2]|[s6 i2]]
      eqn:Hr; try discriminate.
    pose proof (refresh_progress_trace _ _ _ _ _ Hr) as (Ht6 & n6 & Htr6 & Hq6).
    apply refresh_progress_frame in Hr.
    cbn [s_mem transfers_sent trace] in *.
    intros [= <- <- _].
    conjs; try lia; try congruence.
    exists n1, k, r0, (receiver_progress s2), PROC, n6.
    conjs; try assumption; try reflexivity; try lia.
    rewrite Htr6, Htr2, Htr1, Ht2, Ht1. now rewrite <- !app_assoc.
  - destruct (refresh_progress name i1 _) as [[s6 i2]|[s6 i2]|[s6 i2]]
      eqn:Hr; try discriminate.
    pose proof (refresh_progress_trace _ _ _ _ _ Hr) as (Ht6 & n6 & Htr6 & Hq6).
    apply refresh_progress_frame in Hr.
    cbn [s_mem transfers_sent trace] in *.
    intros [= <- <- _].
    conjs; try lia; try congruence.
    exists n1, k, r0, (receiver_progress s2), DONE, n6.
    conjs; try assumption; try reflexivity; try lia.
    rewrite Htr6, Htr2, Htr1, Ht2, Ht1. now rewrite <- !app_assoc.
  - intros [= <- <- _]. cbn [log s_mem transfers_sent trace].
    conjs; try lia; try congruence.
    exists n1, k, r0, (receiver_progress s2), ERR, [].
    conjs; try assumption; try reflexivity; try lia; try constructor.
    rewrite Htr2, Htr1, Ht2, Ht1. now rewrite <- !app_assoc.
Qed.

Lemma issued_quiet (l : list event) : Forall quiet l -> issued l = [].
Proof.
  induction 1 as [|ev l Hq _ IH]; [reflexivity|].
  unfold issued. cbn [omap list_omap]. fold (issued l). rewrite IH.
  now destruct ev.
Qed.

Lemma issued_app (l1 l2 : list event) :
  issued (l1 ++ l2) = issued l1 ++ issued l2.
Proof. apply omap_app. Qed.

Lemma sender_iteration_issued (g : globals) (buffers_addr : Z)
    (name : string) (env env' : sender_env) (s s' : sender_state) (b : bool) :
  sender_iteration g buffers_addr name env s = Done (b, s', env') ->
  exists r,
    issued (trace s')
    = issued (trace s)
      ++ [(transfers_sent s mod num_buffers g, transfers_sent s, r)] /\
    match r with
    | ERR => b = true /\ transfers_sent s' = transfers_sent s
    | _ => b = false /\ transfers_sent s' = transfers_sent s + 1
    end.
Proof.
  intros Hrun. apply sender_iteration_shape in Hrun. cbn zeta in Hrun.
  destruct Hrun as (_ & _ & _ & n1 & k & r0 & p & r & n2
                    & Hq1 & Hr0 & Hq2 & Htr & Hr).
  exists r. split.
  - rewrite Htr, !issued_app.
    rewrite (issued_quiet n1) by exact Hq1.
    rewrite (issued_quiet (replicate k _))
      by (apply Forall_replicate; exact I).
    change (issued (Ev_transfer ?a ?b ?c ?d :: n2))
      with ((a, b, d) :: issued n2).
    rewrite (issued_quiet n2) by exact Hq2. reflexivity.
  - destruct r; tauto.
Qed.

Lemma round_robin_cons (N first : Z) (n : nat) :
  round_robin N first (Z.of_nat (S n))
  = (first mod N, first) :: round_robin N (first + 1) (Z.of_nat n).
Proof.
  unfold round_robin. rewrite seqZ_cons by lia. cbn [fmap list_fmap].
  f_equal. f_equal. f_equal; lia.
Qed.

Lemma sender_turns_issued (g : globals) (buffers_addr : Z) (name : string)
    (n : nat) :
  forall env s s' env',
    sender_turns n g buffers_addr name env s = Done (s', env') ->
    exists new,
      issued (trace s') = issued (trace s) ++ new /\
      fst <$> new = round_robin (num_buffers g) (transfers_sent s)
                      (Z.of_nat (length new)) /\
      ((Forall (fun x => snd x <> ERR) new /\
        length new = n /\
        transfers_sent s' = transfers_sent s + Z.of_nat n) \/
       (exists new' x,
          new = new' ++ [x] /\
          Forall (fun x => snd x <> ERR) new' /\
          snd x = ERR /\
          transfers_sent s' = transfers_sent s + Z.of_nat (length new') /\
          (length new' < n)%nat)).
Proof.
  induction n as [|n IH]; intros env s s' env'; cbn [sender_turns].
  - intros [= <- <-]. exists []. rewrite app_nil_r.
    split; [reflexivity|]. split; [reflexivity|].
    left. conjs; [constructor | reflexivity | cbn; lia].
  - destruct (sender_iteration g buffers_addr name env s)
      as [[[b s1] env1]|[[b s1] env1]|[[b s1] env1]] eqn:Hit;
      try discriminate.
    apply sender_iteration_issued in Hit. destruct Hit as (r & Hiss & Hr).
    destruct b.
    + intros [= <- <-].
      assert (r = ERR /\ transfers_sent s1 = transfers_sent s) as [-> Hts]
          by (destruct r; intuition congruence).
      eexists. split; [exact Hiss|]. split.
      { cbn [length fmap list_fmap]. rewrite round_robin_cons.
        reflexivity. }
      right. exists [], (transfers_sent s mod num_buffers g,
                         transfers_sent s, ERR).
      conjs; [reflexivity | constructor | reflexivity | cbn; lia
             | cbn; lia].
    + intros Hrun. apply IH in Hrun.
      assert (r <> ERR /\ transfers_sent s1 = transfers_sent s + 1)
        as [Hne Hts] by (destruct r; intuition congruence).
      destruct Hrun as (new & Hiss' & Hrr & Hcase).
      exists ((transfers_sent s mod num_buffers g, transfers_sent s, r)
                :: new).
      split; [rewrite Hiss', Hiss, <- app_assoc; reflexivity|].
      split.
      { cbn [length fmap list_fmap]. rewrite round_robin_cons.
        rewrite Hrr, Hts. reflexivity. }
      destruct Hcase as [(Hall & Hlen & Hsent)
                        |(new' & x & -> & Hall & Hx & Hsent & Hlen)].
      * left. conjs; [constructor; [exact Hne | exact Hall]
                     | cbn; lia | lia].
      * right. exists ((transfers_sent s mod num_buffers g,
                        transfers_sent s, r) :: new'), x.
        conjs; [reflexivity | constructor; [exact Hne | exact Hall]
               | exact Hx | cbn [length]; lia | cbn [length]; lia].
Qed.

(** X21: the main loop issues its transfers in order and round the ring.
    The transfers a run of the loop issues carry the indices
    [transfers_sent], [transfers_sent + 1], ... without gap or repeat,
    and transfer [i] goes out on slot [i mod num_buffers].  Either none
    of them fails, and then the loop has issued all that were left and
    [transfers_sent] has reached [num_transfers]; or the last one issued
    is the only one that failed, and then [transfers_sent] counts the
    ones before it and stays below [num_transfers]. *)
Theorem transfers_go_round_the_ring (g : globals) (buffers_addr : Z)
    (receiver_name : string) (env env' : sender_env) (s s' : sender_state) :
  sender_loop g buffers_addr receiver_name env s = Done (s', env') ->
  exists new,
    issued (trace s') = issued (trace s) ++ new /\
    fst <$> new = round_robin (num_buffers g) (transfers_sent s)
                    (Z.of_nat (length new)) /\
    ((Forall (fun x => snd x <> ERR) new /\
      Z.of_nat (length new) = Z.max 0 (num_transfers g - transfers_sent s) /\
      transfers_sent s' = Z.max (transfers_sent s) (num_transfers g)) \/
     (exists new' x,
        new = new' ++ [x] /\
        Forall (fun x => snd x <> ERR) new' /\
        snd x = ERR /\
        transfers_sent s' = transfers_sent s + Z.of_nat (length new') /\
        transfers_sent s' < num_transfers g)).
Proof.
  unfold sender_loop. intros Hrun. apply sender_turns_issued in Hrun.
  destruct Hrun as (new & Hiss & Hrr & Hcase).
  exists new. split; [exact Hiss|]. split; [exact Hrr|].
  destruct Hcase as [(Hall & Hlen & Hsent)
                    |(new' & x & -> & Hall & Hx & Hsent & Hlen)].
  - left. conjs; [exact Hall | lia | lia].
  - right. exists new', x. conjs; try assumption; try reflexivity. lia.
Qed.

Lemma transfers_go_round_the_ring_witness :
  let g := Scenarios.ten_transfers in
  let s := sender_init Scenarios.zeroed in
  let o := sender_loop g Scenarios.sender_addr "receiver"
             Scenarios.third_issue_fails s in
  let s' := fst (outcome_state o) in
  exists new,
    issued (trace s') = issued (trace s) ++ new /\
    fst <$> new = round_robin (num_buffers g) (transfers_sent s)
                    (Z.of_nat (length new)) /\
    ((Forall (fun x => snd x <> ERR) new /\
      Z.of_nat (length new) = Z.max 0 (num_transfers g - transfers_sent s) /\
      transfers_sent s' = Z.max (transfers_sent s) (num_transfers g)) \/
     (exists new' x,
        new = new' ++ [x] /\
        Forall (fun x => snd x <> ERR) new' /\
        snd x = ERR /\
        transfers_sent s' = transfers_sent s + Z.of_nat (length new') /\
        transfers_sent s' < num_transfers g)).
Proof.
  apply (transfers_go_round_the_ring Scenarios.ten_transfers
           Scenarios.sender_addr "receiver" Scenarios.third_issue_fails
           (snd (outcome_state
                   (sender_loop Scenarios.ten_transfers Scenarios.sender_addr
                      "receiver" Scenarios.third_issue_fails
                      (sender_init Scenarios.zeroed))))).
  vm_compute. reflexivity.
Defined.

Lemma gated_from_quiet (l : list event) :
  forall prev, Forall quiet l -> gated_from prev l.
Proof.
  induction l as [|ev l IH]; intros prev Hq; cbn [gated_from]; [exact I|].
  inversion Hq as [|? ? Hev Hl]; subst. split; [|now apply IH].
  now destruct ev.
Qed.

Lemma gated_from_app (l1 l2 : list event) :
  forall prev,
    gated_from prev (l1 ++ l2) <->
    gated_from prev l1 /\ gated_from (from_option Some prev (last l1)) l2.
Proof.
  induction l1 as [|ev l1 IH]; intros prev.
  - cbn. tauto.
  - cbn [app gated_from]. rewrite IH.
    assert (Hlast : from_option Some (Some ev) (last l1)
                    = from_option Some prev (last (ev :: l1))).
    { rewrite last_cons. destruct (last l1); reflexivity. }
    rewrite Hlast. tauto.
Qed.

Lemma sender_iteration_gated (g : globals) (buffers_addr : Z)
    (name : string) (env env' : sender_env) (s s' : sender_state) (b : bool) :
  sender_iteration g buffers_addr name env s = Done (b, s', env') ->
  gated_from None (trace s) -> gated_from None (trace s').
Proof.
  intros Hrun Hg. apply sender_iteration_shape in Hrun. cbn zeta in Hrun.
  destruct Hrun as (_ & _ & _ & n1 & k & r0 & p & r & n2
                    & Hq1 & Hr0 & Hq2 & Htr & _).
  rewrite Htr. apply gated_from_app. split; [exact Hg|].
  apply gated_from_app. split.
  - apply gated_from_quiet. apply Forall_app. split; [exact Hq1|].
    apply Forall_app. split; [apply Forall_replicate; exact I|].
    repeat constructor.
  - rewrite app_assoc, last_snoc. cbn [from_option gated_from].
    split; [now exists r0|]. now apply gated_from_quiet.
Qed.

Lemma sender_turns_gated (g : globals) (buffers_addr : Z) (name : string)
    (n : nat) :
  forall env s s' env',
    sender_turns n g buffers_addr name env s = Done (s', env') ->
    gated_from None (trace s) -> gated_from None (trace s').
Proof.
  induction n as [|n IH]; intros env s s' env'; cbn [sender_turns].
  - now intros [= <- <-].
  - destruct (sender_iteration g buffers_addr name env s)
      as [[[b s1] env1]|[[b s1] env1]|[[b s1] env1]] eqn:Hit;
      try discriminate.
    pose proof (sender_iteration_gated _ _ _ _ _ _ _ _ Hit) as Hstep.
    destruct b.
    + intros [= <- <-]. exact Hstep.
    + intros Hrun Hg. eapply IH; [exact Hrun | now apply Hstep].
Qed.

(** X22: a slot is reused only once its last transfer has settled.  In a
    complete run of the sender, from the main loop through the drain to
    the cleanup, the call right before every [transfer] is a
    [check_xfer_state] of the handle of the same slot, and it either
    returned a state other than ["PROC"] or raised (the exception is
    swallowed). *)
Theorem issue_follows_a_settled_poll (g : globals) (buffers_addr : Z)
    (receiver_name : string) (env env' : sender_env) (m : memory)
    (s' : sender_state) (pre post : list event) (slot sent progress : Z)
    (r : xfer_state) :
  sender_stream g buffers_addr receiver_name env (sender_init m)
  = Done (s', env') ->
  trace s' = pre ++ Ev_transfer slot sent progress r :: post ->
  exists pre' r0,
    pre = pre' ++ [Ev_check_xfer_state slot r0] /\ r0 <> State PROC.
Proof.
  unfold sender_stream, sender_loop. intros Hrun Htr.
  assert (Hg : gated_from None (trace s')).
  { destruct (sender_turns _ g buffers_addr receiver_name env (sender_init m))
      as [[s1 env1]|[s1 env1]|[s1 env1]] eqn:Hloop; try discriminate.
    apply sender_turns_gated in Hloop; [|exact I].
    destruct (drain_handles _ (xfer_states env1) s1)
      as [[s2 x2]|[s2 x2]|[s2 x2]] eqn:Hd; try discriminate.
    apply drain_handles_trace in Hd. destruct Hd as (_ & segs & Hs2 & Hsegs).
    injection Hrun as <- _. cbn [cleanup trace]. rewrite Hs2.
    apply gated_from_app. split.
    - apply gated_from_app. split; [exact Hloop|].
      apply gated_from_quiet. eapply concat_drained_quiet, Hsegs.
    - apply gated_from_quiet, cleanup_events_quiet. }
  rewrite Htr in Hg. apply gated_from_app in Hg. destruct Hg as (_ & Hg).
  cbn [gated_from] in Hg. destruct Hg as ((r0 & Hlast & Hr0) & _).
  destruct (last pre) as [ev|] eqn:Hl; cbn [from_option] in Hlast;
    [|discriminate].
  injection Hlast as ->. apply last_Some in Hl. destruct Hl as (pre' & ->).
  now exists pre', r0.
Qed.

Lemma issue_follows_a_settled_poll_witness :
  let o := sender_stream Scenarios.ten_transfers Scenarios.sender_addr
             "receiver" Scenarios.third_issue_fails
             (sender_init Scenarios.zeroed) in
  let s' := fst (outcome_state o) in
  trace s' = take 5 (trace s') ++ Ev_transfer 1 1 0 DONE :: drop 6 (trace s')
  /\ exists pre' r0,
       take 5 (trace s') = pre' ++ [Ev_check_xfer_state 1 r0] /\
       r0 <> State PROC.
Proof.
  cbn zeta. split; [vm_compute; reflexivity|].
  apply (issue_follows_a_settled_poll Scenarios.ten_transfers
           Scenarios.sender_addr "receiver" Scenarios.third_issue_fails
           (snd (outcome_state
                   (sender_stream Scenarios.ten_transfers
                      Scenarios.sender_addr "receiver"
                      Scenarios.third_issue_fails
                      (sender_init Scenarios.zeroed))))
           Scenarios.zeroed
           (fst (outcome_state
                   (sender_stream Scenarios.ten_transfers
                      Scenarios.sender_addr "receiver"
                      Scenarios.third_issue_fails
                      (sender_init Scenarios.zeroed))))
           _
           (drop 6 (trace
                      (fst (outcome_state
                              (sender_stream Scenarios.ten_transfers
                                 Scenarios.sender_addr "receiver"
                                 Scenarios.third_issue_fails
                                 (sender_init Scenarios.zeroed))))))
           1 1 0 DONE).
  - vm_compute. reflexivity.
  - vm_compute. reflexivity.
Defined.

Lemma header_slots_differ (N i n : Z) :
  0 < N -> n - N < i < n -> i mod N <> n mod N.
Proof.
  intros HN Hi E.
  pose proof (Z.div_mod i N ltac:(lia)) as H1.
  pose proof (Z.div_mod n N ltac:(lia)) as H2.
  assert (Hd : n - i = N * (n / N - i / N)) by lia.
  assert (0 < n / N - i / N) by nia.
  nia.
Qed.

Lemma latest_headers_step (g : globals) (buffers_addr : Z) (m : memory)
    (n : Z) :
  0 < num_buffers g -> 8 <= buffer_size g -> 0 <= n <= UINT64_MAX ->
  latest_headers g buffers_addr m n ->
  latest_headers g buffers_addr
    (poke_uint64 m (sender_header_addr g buffers_addr n) n) (n + 1).
Proof.
  intros HN Hbs Hn Hring i Hi0 Hi.
  destruct (Z.eq_dec i n) as [->|Hne].
  - rewrite read_poke_uint64. apply Z.mod_small.
    unfold UINT64_MAX in Hn. lia.
  - rewrite read_poke_uint64_other; [apply Hring; lia|].
    unfold sender_header_addr.
    assert (Hd : i mod num_buffers g <> n mod num_buffers g)
      by (apply header_slots_differ; lia).
    nia.
Qed.

Lemma sender_turns_latest_headers (g : globals) (buffers_addr : Z)
    (name : string) (n : nat) :
  8 <= buffer_size g ->
  forall env s s' env',
    sender_turns n g buffers_addr name env s = Done (s', env') ->
    Z.of_nat (length (issued (trace s))) = transfers_sent s ->
    latest_headers g buffers_addr (s_mem s) (transfers_sent s) ->
    latest_headers g buffers_addr (s_mem s')
      (Z.of_nat (length (issued (trace s')))).
Proof.
  intros Hbs. induction n as [|n IH]; intros env s s' env';
    cbn [sender_turns].
  - intros [= <- <-] -> Hring. exact Hring.
  - destruct (sender_iteration g buffers_addr name env s)
      as [[[b s1] env1]|[[b s1] env1]|[[b s1] env1]] eqn:Hit;
      try discriminate.
    pose proof (sender_iteration_issued _ _ _ _ _ _ _ _ Hit)
      as (r & Hiss & Hr).
    apply sender_iteration_shape in Hit. cbn zeta in Hit.
    destruct Hit as (HN & Hrange & Hmem & _).
    intros Hrun Hlen Hring.
    assert (Hlen1 : Z.of_nat (length (issued (trace s1)))
                    = transfers_sent s + 1).
    { rewrite Hiss, length_app. cbn [length]. lia. }
    assert (Hring1 : latest_headers g buffers_addr (s_mem s1)
                       (transfers_sent s + 1)).
    { rewrite Hmem. now apply latest_headers_step. }
    destruct b.
    + injection Hrun as <- _. now rewrite Hlen1.
    + assert (Hts : transfers_sent s1 = transfers_sent s + 1)
        by (destruct r; intuition congruence).
      eapply IH; [exact Hrun | congruence | now rewrite Hts].
Qed.

(** X23: the sender's ring keeps the headers of the latest transfers.
    With buffers of at least eight bytes, after a run of the main loop
    from the start, every slot that was used holds in its first eight
    bytes the index of the last transfer issued on it: if [n] transfers
    were issued, the header of transfer [i] is still in slot
    [i mod num_buffers] for the last [num_buffers] indices below [n]. *)
Theorem ring_keeps_the_latest_headers (g : globals) (buffers_addr : Z)
    (receiver_name : string) (env env' : sender_env) (m : memory)
    (s' : sender_state) :
  8 <= buffer_size g ->
  sender_loop g buffers_addr receiver_name env (sender_init m)
  = Done (s', env') ->
  latest_headers g buffers_addr (s_mem s')
    (Z.of_nat (length (issued (trace s')))).
Proof.
  unfold sender_loop. intros Hbs Hrun.
  eapply sender_turns_latest_headers; [exact Hbs | exact Hrun | |].
  - reflexivity.
  - intros i Hi0 Hi. cbn [sender_init transfers_sent] in Hi. lia.
Qed.

Lemma ring_keeps_the_latest_headers_witness :
  let g := Scenarios.ten_transfers in
  let o := sender_loop g Scenarios.sender_addr "receiver"
             Scenarios.third_issue_fails (sender_init Scenarios.zeroed) in
  let s' := fst (outcome_state o) in
  8 <= buffer_size g /\
  latest_headers g Scenarios.sender_addr (s_mem s')
    (Z.of_nat (length (issued (trace s')))).
Proof.
  cbn zeta. split; [vm_compute; discriminate|].
  apply (ring_keeps_the_latest_headers Scenarios.ten_transfers
           Scenarios.sender_addr "receiver" Scenarios.third_issue_fails
           (snd (outcome_state
                   (sender_loop Scenarios.ten_transfers Scenarios.sender_addr
                      "receiver" Scenarios.third_issue_fails
                      (sender_init Scenarios.zeroed))))
           Scenarios.zeroed).
  - vm_compute. discriminate.
  - vm_compute. reflexivity.
Defined.

Lemma silent_turn (g : globals) (buffers_addr : Z) (name : string)
    (a b c : nat) (s : sender_state) :
  0 < num_buffers g -> receiver_progress s = 0 ->
  0 <= transfers_sent s < K ->
  exists a' s',
    sender_iteration g buffers_addr name (silent_env (S a) (S b) (S c)) s
    = Done (false, s', silent_env a' b c) /\
    (a <= a')%nat /\
    transfers_sent s' = transfers_sent s + 1 /\
    receiver_progress s' = 0 /\
    exists new,
      trace s' = trace s ++ new /\
      Ev_transfer (transfers_sent s mod num_buffers g) (transfers_sent s) 0
        DONE ∈ new.
Proof.
  intros HN Hp Hs.
  assert (HK : K = 60) by reflexivity.
  unfold sender_iteration.
  destruct (Z.eqb_spec (num_buffers g) 0) as [|_]; [lia|].
  pose proof (Z.mod_pos_bound (transfers_sent s) (num_buffers g) HN) as Hm.
  assert (Hk : seqZ 0 (num_buffers g)
                 !! Z.to_nat (transfers_sent s mod num_buffers g)
               = Some (transfers_sent s mod num_buffers g))
    by (apply lookup_seqZ; lia).
  rewrite Hk. unfold backpressure_gate. cbn zeta.
  cbn [log s_mem transfers_sent receiver_progress backpressure_checks
         backpressure_waits max_ahead trace].
  destruct (Z.leb_spec K (transfers_sent s - receiver_progress s));
    [lia|].
  cbn [silent_env inbox xfer_states transfer_results replicate wait_xfer].
  cbn [log s_mem transfers_sent receiver_progress backpressure_checks
         backpressure_waits max_ahead trace].
  rewrite write_uint64_Some by (unfold UINT64_MAX; lia).
  cbn [log s_mem transfers_sent receiver_progress backpressure_checks
         backpressure_waits max_ahead trace].
  unfold refresh_progress.
  cbn [s_mem transfers_sent receiver_progress backpressure_checks
         backpressure_waits max_ahead trace].
  destruct ((transfers_sent s + 1) mod PROGRESS_UPDATE_INTERVAL =? 0).
  - unfold drain_progress. rewrite lookup_empty.
    exists a. eexists. split; [reflexivity|].
    cbn [transfers_sent receiver_progress trace].
    split; [lia|]. split; [reflexivity|]. split; [exact Hp|].
    eexists. rewrite <- !app_assoc. split; [reflexivity|].
    rewrite Hp. cbn [app].
    rewrite !elem_of_cons. right. right. now left.
  - exists (S a). eexists. split; [reflexivity|].
    cbn [transfers_sent receiver_progress trace].
    split; [lia|]. split; [reflexivity|]. split; [exact Hp|].
    eexists. rewrite <- !app_assoc. split; [reflexivity|].
    rewrite Hp. cbn [app].
    rewrite !elem_of_cons. right. right. now left.
Qed.

Lemma silent_turns (g : globals) (buffers_addr : Z) (name : string)
    (k : nat) :
  forall (a b c : nat) (s : sender_state),
    0 < num_buffers g -> receiver_progress s = 0 ->
    0 <= transfers_sent s -> transfers_sent s + Z.of_nat k <= K ->
    exists a' s',
      sender_turns k g buffers_addr name
        (silent_env (k + a) (k + b) (k + c)) s
      = Done (s', silent_env a' b c) /\
      transfers_sent s' = transfers_sent s + Z.of_nat k /\
      receiver_progress s' = 0 /\
      exists new,
        trace s' = trace s ++ new /\
        forall i, transfers_sent s <= i < transfers_sent s + Z.of_nat k ->
          Ev_transfer (i mod num_buffers g) i 0 DONE ∈ new.
Proof.
  induction k as [|k IH]; intros a b c s HN Hp Hs0 Hs.
  - exists a, s. cbn [sender_turns Nat.add]. split; [reflexivity|].
    split; [lia|]. split; [exact Hp|]. exists []. rewrite app_nil_r.
    split; [reflexivity|]. intros i Hi. lia.
  - cbn [sender_turns Nat.add].
    destruct (silent_turn g buffers_addr name (k + a) (k + b) (k + c) s
                HN Hp ltac:(lia))
      as (a1 & s1 & Hturn & Ha1 & Hs1 & Hp1 & new1 & Htr1 & Hin1).
    rewrite Hturn.
    assert (Ha : exists a2, a1 = (k + a2)%nat)
      by (exists (a1 - k)%nat; lia).
    destruct Ha as (a2 & ->).
    destruct (IH a2 b c s1 HN Hp1 ltac:(lia) ltac:(lia))
      as (a' & s' & Hrun & Hs' & Hp' & new & Htr & Hin).
    exists a', s'. split; [exact Hrun|]. split; [lia|].
    split; [exact Hp'|]. exists (new1 ++ new).
    split; [rewrite Htr, Htr1, <- app_assoc; reflexivity|].
    intros i Hi. apply elem_of_app.
    destruct (Z.eq_dec i (transfers_sent s)) as [->|Hne];
      [left; exact Hin1|].
    right. apply Hin. lia.
Qed.

(** X24: the backpressure gate protects only rings of sixty slots or
    more.  The threshold is fixed at 60 when the module is loaded, while
    the ring has the size [run_test] was given.  With at least 60 slots,
    in every run every transfer [i] is issued when the receiver has
    reported more than [i - num_buffers] transfers, so what the slot held
    before was accepted.  With fewer, the gate never holds the sender
    back in the first round: when the engine finishes every transfer at
    once and the receiver reports nothing, the loop issues transfer 0 and
    then transfer [num_buffers] on slot 0 with [receiver_progress] still
    0. *)
Theorem gate_protects_only_rings_of_sixty (buffers_addr : Z)
    (receiver_name : string) (m : memory) :
  (forall g env slot i progress r,
     BACKPRESSURE_THRESHOLD <= num_buffers g ->
     Ev_transfer slot i progress r
       ∈ trace (fst (outcome_state
                       (sender_stream g buffers_addr receiver_name env
                          (sender_init m)))) ->
     i - num_buffers g < progress) /\
  (forall N size,
     0 < N < BACKPRESSURE_THRESHOLD ->
     let g := {| num_buffers := N; buffer_size := size;
                 num_transfers := N + 1 |} in
     let n := Z.to_nat (N + 1) in
     exists s' env',
       sender_loop g buffers_addr receiver_name (silent_env n n n)
         (sender_init m) = Done (s', env') /\
       Ev_transfer 0 0 0 DONE ∈ trace s' /\
       Ev_transfer 0 N 0 DONE ∈ trace s' /\
       receiver_progress s' = 0).
Proof.
  split.
  - intros g env slot i progress r HN Hin.
    pose proof (sender_stream_inv g buffers_addr receiver_name env
                  (sender_init m) (sender_inv_init m)) as Hinv.
    destruct Hinv as (_ & _ & Hev & _).
    rewrite Forall_forall in Hev. specialize (Hev _ Hin). cbn in Hev. lia.
  - intros N size HN. cbn zeta. unfold sender_loop.
    cbn [num_transfers transfers_sent sender_init].
    replace (N + 1 - 0) with (N + 1) by lia.
    destruct (silent_turns
                {| num_buffers := N; buffer_size := size;
                   num_transfers := N + 1 |}
                buffers_addr receiver_name (Z.to_nat (N + 1)) 0 0 0
                (sender_init m))
      as (a' & s' & Hrun & Hs' & Hp' & new & Htr & Hin);
      cbn [num_buffers sender_init transfers_sent receiver_progress];
      try lia.
    rewrite !Nat.add_0_r in Hrun.
    exists s', (silent_env a' 0 0). split; [exact Hrun|].
    cbn [sender_init trace transfers_sent num_buffers] in Htr, Hin.
    rewrite Htr. cbn [app].
    split; [|split; [|exact Hp']].
    + specialize (Hin 0 ltac:(lia)). now rewrite Z.mod_0_l in Hin by lia.
    + specialize (Hin N ltac:(lia)). now rewrite Z.mod_same in Hin by lia.
Qed.

End SenderMore.

(** ** The buffers of the two sides *)

Section LayoutMore.

Import MemoryUtils SenderReceiver Layout.

Lemma local_buffer_list_lookup (g : globals) (buffers_addr : Z) (i : nat)
    (r : region) :
  local_buffer_list g buffers_addr !! i = Some r ->
  r = (buffers_addr + Z.of_nat i * buffer_size g, buffer_size g, 0) /\
  Z.of_nat i < num_buffers g.
Proof.
  unfold local_buffer_list. rewrite list_lookup_fmap.
  destruct (seqZ 0 (num_buffers g) !! i) as [k|] eqn:Hk; [|discriminate].
  apply lookup_seqZ in Hk. destruct Hk as [-> Hlt].
  cbn. intros [= <-]. split; [|exact Hlt].
  do 2 f_equal. 
Qed.

Lemma buffers_xfer_desc_lookup (g : globals) (memory_addr : Z) (i : nat)
    (r : region) :
  buffers_xfer_desc g memory_addr !! i = Some r ->
  r = (memory_addr + BUFFER_BASE_OFFSET + Z.of_nat i * BUFFER_ENTRY_SIZE,
       buffer_size g, 0) /\
  Z.of_nat i < num_buffers g.
Proof.
  unfold buffers_xfer_desc. rewrite list_lookup_fmap.
  destruct (seqZ 0 (num_buffers g) !! i) as [k|] eqn:Hk; [|discriminate].
  apply lookup_seqZ in Hk. destruct Hk as [-> Hlt].
  cbn. intros [= <-]. split; [|exact Hlt].
  do 2 f_equal.
Qed.

(** X25: the sender's slots tile its registered memory.  With a buffer
    size that is not negative, every entry of [local_buffer_list] lies
    inside the registered region, two different entries share no byte,
    and the address the header of transfer [i] is written to is the first
    byte of entry [i mod num_buffers]; with buffers of at least eight
    bytes the header lies inside that entry. *)
Theorem sender_slots_tile_the_registered_memory (g : globals)
    (buffers_addr : Z) :
  0 <= buffer_size g ->
  Forall (fun r => inside r (buffers_reg_desc g buffers_addr))
    (local_buffer_list g buffers_addr) /\
  (forall i j ri rj,
     local_buffer_list g buffers_addr !! i = Some ri ->
     local_buffer_list g buffers_addr !! j = Some rj ->
     i <> j -> apart ri rj) /\
  (forall i, 0 < num_buffers g ->
     exists r,
       local_buffer_list g buffers_addr
         !! Z.to_nat (i mod num_buffers g) = Some r /\
       base r = sender_header_addr g buffers_addr i /\
       (8 <= buffer_size g ->
        inside (sender_header_addr g buffers_addr i, 8, 0) r)).
Proof.
  intros Hbs. split; [|split].
  - apply Forall_lookup. intros i r Hr.
    apply local_buffer_list_lookup in Hr. destruct Hr as [-> Hlt].
    unfold inside, buffers_reg_desc, buffers_size, base, len. cbn.
    split; nia.
  - intros i j ri rj Hi Hj Hne.
    apply local_buffer_list_lookup in Hi. destruct Hi as [-> Hi].
    apply local_buffer_list_lookup in Hj. destruct Hj as [-> Hj].
    unfold apart, base, len. cbn.
    destruct (Nat.lt_ge_cases i j); [left | right]; nia.
  - intros i HN.
    pose proof (Z.mod_pos_bound i (num_buffers g) HN) as Hm.
    exists (buffers_addr + (i mod num_buffers g) * buffer_size g,
            buffer_size g, 0).
    split; [|split].
    + unfold local_buffer_list. rewrite list_lookup_fmap.
      assert (Hk : seqZ 0 (num_buffers g) !! Z.to_nat (i mod num_buffers g)
                   = Some (i mod num_buffers g)).
      { apply lookup_seqZ. lia. }
      rewrite Hk. reflexivity.
    + reflexivity.
    + intros H8. unfold inside, sender_header_addr, base, len. cbn. lia.
Qed.

Lemma sender_slots_tile_the_registered_memory_witness :
  let g := Scenarios.ten_transfers in
  let buffers_addr := Scenarios.sender_addr in
  0 <= buffer_size g /\
  Forall (fun r => inside r (buffers_reg_desc g buffers_addr))
    (local_buffer_list g buffers_addr) /\
  (forall i j ri rj,
     local_buffer_list g buffers_addr !! i = Some ri ->
     local_buffer_list g buffers_addr !! j = Some rj ->
     i <> j -> apart ri rj) /\
  (forall i, 0 < num_buffers g ->
     exists r,
       local_buffer_list g buffers_addr
         !! Z.to_nat (i mod num_buffers g) = Some r /\
       base r = sender_header_addr g buffers_addr i /\
       (8 <= buffer_size g ->
        inside (sender_header_addr g buffers_addr i, 8, 0) r)).
Proof.
  cbn zeta. split; [vm_compute; discriminate|].
  apply (sender_slots_tile_the_registered_memory Scenarios.ten_transfers
           Scenarios.sender_addr).
  vm_compute. discriminate.
Defined.

(** X26: when the receiver's descriptors fit its registered memory.  The
    receiver registers [TOTAL_MEMORY_SIZE] bytes and spaces its slots by
    [BUFFER_ENTRY_SIZE], both computed once from the default ring of 64
    buffers of 16 MiB, while the number and the length of the
    descriptors follow the values [run_test] was given.  With a positive
    buffer size of at most [BUFFER_ENTRY_SIZE], two different descriptors
    share no byte, the address the receiver polls for transfer [i] is the
    first byte of descriptor [i mod num_buffers], and all descriptors lie
    inside the registered region exactly when there are at most 64 of
    them. *)
Theorem receiver_descriptors_fit_up_to_the_default_ring (g : globals)
    (memory_addr : Z) :
  0 < buffer_size g <= BUFFER_ENTRY_SIZE ->
  (Forall (fun r => inside r (receiver_reg_desc memory_addr))
     (buffers_xfer_desc g memory_addr)
   <-> num_buffers g <= NUM_BUFFERS) /\
  (forall i j ri rj,
     buffers_xfer_desc g memory_addr !! i = Some ri ->
     buffers_xfer_desc g memory_addr !! j = Some rj ->
     i <> j -> apart ri rj) /\
  (forall i, 0 < num_buffers g ->
     exists r,
       buffers_xfer_desc g memory_addr
         !! Z.to_nat (i mod num_buffers g) = Some r /\
       base r = receiver_header_addr g memory_addr i).
Proof.
  intros Hbs.
  assert (He : BUFFER_ENTRY_SIZE = 16777216) by reflexivity.
  assert (Ht : TOTAL_MEMORY_SIZE = 2 + 64 * 16777216) by reflexivity.
  assert (Hb : BUFFER_BASE_OFFSET = 2) by reflexivity.
  assert (HN : NUM_BUFFERS = 64) by reflexivity.
  split; [|split].
  - split.
    + intros Hall.
      destruct (Z.le_gt_cases (num_buffers g) NUM_BUFFERS) as [|Hgt];
        [assumption|]. exfalso.
      rewrite Forall_lookup in Hall.
      assert (Hk : buffers_xfer_desc g memory_addr !! 64%nat
                   = Some (memory_addr + BUFFER_BASE_OFFSET
                           + 64 * BUFFER_ENTRY_SIZE, buffer_size g, 0)).
      { unfold buffers_xfer_desc. rewrite list_lookup_fmap.
        assert (Hs : seqZ 0 (num_buffers g) !! 64%nat = Some 64)
          by (apply lookup_seqZ; lia).
        rewrite Hs. reflexivity. }
      apply Hall in Hk. unfold inside, receiver_reg_desc, base, len in Hk.
      cbn in Hk. rewrite He, Ht, Hb in Hk. rewrite He in Hbs. lia.
    + intros Hle. apply Forall_lookup. intros i r Hr.
      apply buffers_xfer_desc_lookup in Hr. destruct Hr as [-> Hlt].
      unfold inside, receiver_reg_desc, base, len. cbn.
      rewrite He, Ht, Hb. rewrite He in Hbs. lia.
  - intros i j ri rj Hi Hj Hne.
    apply buffers_xfer_desc_lookup in Hi. destruct Hi as [-> Hi].
    apply buffers_xfer_desc_lookup in Hj. destruct Hj as [-> Hj].
    unfold apart, base, len. cbn. rewrite He. rewrite He in Hbs.
    destruct (Nat.lt_ge_cases i j); [left | right]; lia.
  - intros i Hpos.
    pose proof (Z.mod_pos_bound i (num_buffers g) Hpos) as Hm.
    exists (memory_addr + BUFFER_BASE_OFFSET
            + (i mod num_buffers g) * BUFFER_ENTRY_SIZE, buffer_size g, 0).
    split; [|reflexivity].
    unfold buffers_xfer_desc. rewrite list_lookup_fmap.
    assert (Hk : seqZ 0 (num_buffers g) !! Z.to_nat (i mod num_buffers g)
                 = Some (i mod num_buffers g)).
    { apply lookup_seqZ. lia. }
    rewrite Hk. reflexivity.
Qed.

Lemma receiver_descriptors_fit_up_to_the_default_ring_witness :
  let g := {| num_buffers := 65; buffer_size := 1024;
              num_transfers := 1000 |} in
  let memory_addr := Scenarios.receiver_addr in
  0 < buffer_size g <= BUFFER_ENTRY_SIZE /\
  (Forall (fun r => inside r (receiver_reg_desc memory_addr))
     (buffers_xfer_desc g memory_addr)
   <-> num_buffers g <= NUM_BUFFERS) /\
  (forall i j ri rj,
     buffers_xfer_desc g memory_addr !! i = Some ri ->
     buffers_xfer_desc g memory_addr !! j = Some rj ->
     i <> j -> apart ri rj) /\
  (forall i, 0 < num_buffers g ->
     exists r,
       buffers_xfer_desc g memory_addr
         !! Z.to_nat (i mod num_buffers g) = Some r /\
       base r = receiver_header_addr g memory_addr i).
Proof.
  cbn zeta.
  assert (H : 0 < 1024 <= BUFFER_ENTRY_SIZE)
    by (split; vm_compute; [reflexivity | discriminate]).
  split; [exact H|].
  apply (receiver_descriptors_fit_up_to_the_default_ring
           {| num_buffers := 65; buffer_size := 1024;
              num_transfers := 1000 |} Scenarios.receiver_addr).
  exact H.
Defined.

End LayoutMore.

(** ** The two-process example after the exchange *)

Section TwoProcMore.

Import SenderReceiver TwoProcRun.

Lemma unfinished_S (uuid : string) (k : nat) :
  unfinished uuid (S k)
  = T_check_remote_xfer_done uuid false :: T_sleep :: unfinished uuid k.
Proof. reflexivity. Qed.

Lemma pending_S (handle : Z) (k : nat) :
  pending handle (S k)
  = I_check_xfer_state handle PROC :: I_sleep :: pending handle k.
Proof. reflexivity. Qed.

Lemma wait_remote_done_shape (uuid : string) (answers : list bool) :
  forall calls,
    match wait_remote_done uuid answers calls with
    | Done (rest, calls') =>
        exists k,
          answers = replicate k false ++ true :: rest /\
          calls' = calls ++ unfinished uuid k
                   ++ [T_check_remote_xfer_done uuid true]
    | Starved (rest, calls') =>
        rest = [] /\
        answers = replicate (length answers) false /\
        calls' = calls ++ unfinished uuid (length answers)
    | Raised _ => False
    end.
Proof.
  induction answers as [|a answers IH]; intros calls;
    cbn [wait_remote_done].
  - cbn. now rewrite app_nil_r.
  - destruct a.
    + exists O. split; reflexivity.
    + specialize (IH ((calls ++ [T_check_remote_xfer_done uuid false])
                        ++ [T_sleep])).
      destruct (wait_remote_done uuid answers _)
        as [[rest calls']|[rest calls']|[rest calls']]; [| |exact IH].
      * destruct IH as (k & -> & ->). exists (S k).
        split; [reflexivity|]. rewrite unfinished_S, <- !app_assoc.
        reflexivity.
      * destruct IH as (-> & Ha & ->). split; [reflexivity|].
        cbn [length replicate]. split; [now rewrite <- Ha|].
        rewrite unfinished_S, <- !app_assoc. reflexivity.
Qed.

(** X27: the target frees its memory only after both transfers were
    reported done, and asks in order.  A run that ends has read, from the
    answers of [check_remote_xfer_done], some [False] then a [True] for
    [UUID1], then some [False] and a [True] for [UUID2]; it slept once
    after every [False], and its last two calls are [deregister_memory]
    and [free_passthru].  A run whose answers end before the second
    [True] makes neither of these two calls. *)
Theorem target_frees_after_both_transfers (answers : list bool) :
  match target_wait answers [] with
  | Done (rest, calls) =>
      exists k1 k2,
        answers = replicate k1 false ++ true
                  :: replicate k2 false ++ true :: rest /\
        calls = unfinished "UUID1" k1
                ++ T_check_remote_xfer_done "UUID1" true
                :: unfinished "UUID2" k2
                ++ [T_check_remote_xfer_done "UUID2" true;
                    T_deregister_memory; T_free]
  | Starved (_, calls) =>
      Forall (fun c => c <> T_deregister_memory /\ c <> T_free) calls /\
      ((exists k, answers = replicate k false /\
                  calls = unfinished "UUID1" k) \/
       (exists k1 k2,
          answers = replicate k1 false ++ true :: replicate k2 false /\
          calls = unfinished "UUID1" k1
                  ++ T_check_remote_xfer_done "UUID1" true
                  :: unfinished "UUID2" k2))
  | Raised _ => False
  end.
Proof.
  assert (Hun : forall uuid k,
             Forall (fun c => c <> T_deregister_memory /\ c <> T_free)
               (unfinished uuid k)).
  { intros uuid k. induction k as [|k IH]; [constructor|].
    rewrite unfinished_S. repeat constructor; try discriminate. exact IH. }
  unfold target_wait.
  pose proof (wait_remote_done_shape "UUID1" answers []) as H1.
  destruct (wait_remote_done "UUID1" answers [])
    as [[rest1 calls1]|[rest1 calls1]|[rest1 calls1]]; [| |exact H1].
  - destruct H1 as (k1 & -> & ->).
    pose proof (wait_remote_done_shape "UUID2" rest1
                  ([] ++ unfinished "UUID1" k1
                   ++ [T_check_remote_xfer_done "UUID1" true])) as H2.
    destruct (wait_remote_done "UUID2" rest1 _)
      as [[rest2 calls2]|[rest2 calls2]|[rest2 calls2]]; [| |exact H2].
    + destruct H2 as (k2 & -> & ->). exists k1, k2.
      split; [reflexivity|]. cbn [app]. rewrite <- !app_assoc. reflexivity.
    + destruct H2 as (-> & Ha & ->). split.
      * cbn [app]. apply Forall_app. split; [|apply Hun].
        apply Forall_app. split; [apply Hun|].
        repeat constructor; discriminate.
      * right. exists k1, (length rest1). split; [now rewrite <- Ha|].
        cbn [app]. rewrite <- !app_assoc. reflexivity.
  - destruct H1 as (-> & Ha & ->). split; [apply Hun|].
    left. exists (length answers). split; [exact Ha | reflexivity].
Qed.

Lemma wait_transfer_shape (handle : Z) (states : list xfer_state) :
  forall calls,
    match wait_transfer handle states calls with
    | Done (ok, rest, calls') =>
        exists k,
          states = replicate k PROC ++ (if ok then DONE else ERR) :: rest /\
          calls' = calls ++ pending handle k
                   ++ (if ok
                       then [I_check_xfer_state handle DONE; I_sleep]
                       else [I_check_xfer_state handle ERR])
    | Starved (_, rest, calls') =>
        rest = [] /\
        states = replicate (length states) PROC /\
        calls' = calls ++ pending handle (length states)
    | Raised _ => False
    end.
Proof.
  induction states as [|state states IH]; intros calls;
    cbn [wait_transfer].
  - cbn. now rewrite app_nil_r.
  - destruct state.
    + specialize (IH ((calls ++ [I_check_xfer_state handle PROC])
                        ++ [I_sleep])).
      destruct (wait_transfer handle states _)
        as [[[ok rest] calls']|[[ok rest] calls']|[[ok rest] calls']];
        [| |exact IH].
      * destruct IH as (k & -> & ->). exists (S k).
        split; [reflexivity|]. rewrite pending_S, <- !app_assoc.
        reflexivity.
      * destruct IH as (-> & Ha & ->). split; [reflexivity|].
        cbn [length replicate]. split; [now rewrite <- Ha|].
        rewrite pending_S, <- !app_assoc. reflexivity.
    + exists O. split; [reflexivity|]. cbn. now rewrite <- app_assoc.
    + exists O. split; reflexivity.
Qed.

(** What issuing a transfer and waiting for it adds to the calls. *)
Lemma run_transfer_shape (handle : Z) (results states : list xfer_state)
    (calls : list initiator_call) :
  match run_transfer handle results states calls with
  | Done (true, _, _, calls') =>
      exists r k,
        r <> ERR /\
        calls' = calls ++ I_transfer handle r :: pending handle k
                 ++ [I_check_xfer_state handle DONE; I_sleep]
  | Done (false, _, _, calls') =>
      calls' = calls ++ [I_transfer handle ERR] \/
      exists r k,
        r <> ERR /\
        calls' = calls ++ I_transfer handle r :: pending handle k
                 ++ [I_check_xfer_state handle ERR]
  | Starved (_, _, _, calls') =>
      calls' = calls \/
      exists r k,
        r <> ERR /\
        calls' = calls ++ I_transfer handle r :: pending handle k
  | Raised _ => False
  end.
Proof.
  unfold run_transfer. destruct results as [|r results]; [now left|].
  assert (Hgo : r <> ERR ->
            match
              match wait_transfer handle states
                      (calls ++ [I_transfer handle r]) with
              | Done (ok, states', calls2) =>
                  Done (ok, results, states', calls2)
              | Starved (_, states', calls2) =>
                  Starved (false, results, states', calls2)
              | Raised (_, states', calls2) =>
                  Raised (false, results, states', calls2)
              end
            with
            | Done (true, _, _, calls') =>
                exists r k,
                  r <> ERR /\
                  calls' = calls ++ I_transfer handle r :: pending handle k
                           ++ [I_check_xfer_state handle DONE; I_sleep]
            | Done (false, _, _, calls') =>
                calls' = calls ++ [I_transfer handle ERR] \/
                exists r k,
                  r <> ERR /\
                  calls' = calls ++ I_transfer handle r :: pending handle k
                           ++ [I_check_xfer_state handle ERR]
            | Starved (_, _, _, calls') =>
                calls' = calls \/
                exists r k,
                  r <> ERR /\
                  calls' = calls ++ I_transfer handle r :: pending handle k
            | Raised _ => False
            end).
  { intros Hr.
    pose proof (wait_transfer_shape handle states
                  (calls ++ [I_transfer handle r])) as Hw.
    destruct (wait_transfer handle states _)
      as [[[ok rest] calls']|[[ok rest] calls']|[[ok rest] calls']];
      [| |exact Hw].
    - destruct Hw as (k & _ & ->). destruct ok.
      + exists r, k. split; [exact Hr|]. now rewrite <- app_assoc.
      + right. exists r, k. split; [exact Hr|]. now rewrite <- app_assoc.
    - destruct Hw as (_ & _ & ->). right. exists r, (length states).
      split; [exact Hr|]. now rewrite <- app_assoc. }
  destruct r; [apply Hgo; discriminate | apply Hgo; discriminate |].
  now left.
Qed.

Lemma pending_keeps (handle : Z) (k : nat) :
  Forall (fun c => releases c = false) (pending handle k).
Proof.
  induction k as [|k IH]; [constructor|].
  rewrite pending_S. repeat constructor. exact IH.
Qed.

(** X28: the initiator frees what it holds only at the very end.  A run
    that completes both transfers ends with the seven cleanup calls, in
    the order of the source, and makes none of them before.  Every other
    run, whether it leaves through one of the [return]s, fails an
    [assert], or never sees its transfer finish, releases no handle,
    does not remove the remote agent, and neither deregisters nor frees
    its memory. *)
Theorem initiator_cleans_up_only_at_the_end (env : initiator_env) :
  let o := initiator_transfers env in
  let calls := snd (outcome_state o) in
  match fst (outcome_state o) with
  | Complete =>
      exists body,
        calls = body ++ [I_release_xfer_handle 1; I_release_xfer_handle 2;
                         I_release_dlist_handle true;
                         I_release_dlist_handle false;
                         I_remove_remote_agent; I_deregister_memory;
                         I_free] /\
        Forall (fun c => releases c = false) body /\
        exists rest, o = Done (Complete, rest)
  | Returned_early => Forall (fun c => releases c = false) calls
  end.
Proof.
  cbn zeta. unfold initiator_transfers.
  destruct (xfer_handle_1_ok env); cbn [negb];
    [|cbn; repeat constructor].
  pose proof (run_transfer_shape 1 (transfers env) (checks env)
                [I_initialize_xfer true]) as H1.
  destruct (run_transfer 1 (transfers env) (checks env) _)
    as [[[[ok1 res1] st1] calls1]|[[[ok1 res1] st1] calls1]
       |[[[ok1 res1] st1] calls1]]; [| |destruct H1].
  2:{ cbn [outcome_state fst snd].
      destruct H1 as [->|(r & k & _ & ->)]; [repeat constructor|].
      cbn [app]. repeat constructor. apply pending_keeps. }
  destruct ok1.
  2:{ cbn [outcome_state fst snd].
      destruct H1 as [->|(r & k & _ & ->)]; [repeat constructor|].
      cbn [app]. repeat constructor. apply Forall_app.
      split; [apply pending_keeps | repeat constructor]. }
  destruct H1 as (r1 & k1 & Hr1 & ->).
  assert (Hk1 : Forall (fun c => releases c = false)
                  ([I_initialize_xfer true]
                   ++ I_transfer 1 r1 :: pending 1 k1
                   ++ [I_check_xfer_state 1 DONE; I_sleep])).
  { cbn [app]. repeat constructor. apply Forall_app.
    split; [apply pending_keeps | repeat constructor]. }
  destruct (local_prep_ok env), (remote_prep_ok env); cbn [andb negb];
    cbn [outcome_state fst snd];
    try (apply Forall_app; split; [exact Hk1 | repeat constructor]).
  destruct (xfer_handle_2_ok env); cbn [negb];
    cbn [outcome_state fst snd].
  2:{ apply Forall_app. split; [|repeat constructor].
      apply Forall_app. split; [exact Hk1 | repeat constructor]. }
  match goal with
  | |- context [run_transfer 2 res1 st1 ?cs] =>
      pose proof (run_transfer_shape 2 res1 st1 cs) as H2;
      assert (Hk3 : Forall (fun c0 => releases c0 = false) cs)
        by (apply Forall_app; split; [|repeat constructor];
            apply Forall_app; split; [exact Hk1 | repeat constructor]);
      destruct (run_transfer 2 res1 st1 cs)
        as [[[[ok2 res2] st2] calls2]|[[[ok2 res2] st2] calls2]
           |[[[ok2 res2] st2] calls2]]; [| |destruct H2]
  end.
  2:{ cbn [outcome_state fst snd].
      destruct H2 as [->|(r & k & _ & ->)]; [exact Hk3|].
      apply Forall_app. split; [exact Hk3|].
      repeat constructor. apply pending_keeps. }
  destruct ok2; cbn [outcome_state fst snd].
  - destruct H2 as (r2 & k2 & Hr2 & ->).
    eexists. split; [reflexivity|]. split; [|eexists; reflexivity].
    apply Forall_app. split; [exact Hk3|].
    repeat constructor. apply Forall_app.
    split; [apply pending_keeps | repeat constructor].
  - destruct H2 as [->|(r & k & _ & ->)].
    + apply Forall_app. split; [exact Hk3 | repeat constructor].
    + apply Forall_app. split; [exact Hk3|].
      repeat constructor. apply Forall_app.
      split; [apply pending_keeps | repeat constructor].
Qed.

Lemma split_at_the_one {A : Type} (Q : A -> Prop) (x y : A) :
  forall l1 l2 l1' l2' : list A,
    l1 ++ x :: l2 = l1' ++ y :: l2' ->
    ~ Q x -> Forall Q l1' -> Forall Q l2' ->
    l1 = l1' /\ x = y /\ l2 = l2'.
Proof.
  intros l1 l2 l1'. revert l1.
  induction l1' as [|b l1' IH]; intros l1 l2' Heq Hx H1 H2.
  - destruct l1 as [|a l1]; cbn in Heq.
    + injection Heq as -> ->. now repeat split.
    + injection Heq as -> <-. exfalso. apply Hx.
      rewrite Forall_forall in H2. apply H2.
      apply elem_of_app. right. now left.
  - inversion H1 as [|? ? Hb H1']; subst.
    destruct l1 as [|a l1]; cbn in Heq.
    + injection Heq as -> _. contradiction.
    + injection Heq as -> Heq. 
      destruct (IH l1 l2' Heq Hx H1' H2) as (-> & -> & ->).
      now repeat split.
Qed.

Lemma pending_issues_nothing (handle h : Z) (k : nat) :
  Forall (fun c => issues h c = false) (pending handle k).
Proof.
  induction k as [|k IH]; [constructor|].
  rewrite pending_S. repeat constructor. exact IH.
Qed.

(** The calls of a run either never issue the second transfer, or issue
    it once, after the first was seen done and the handles were made. *)
Lemma initiator_calls_shape (env : initiator_env) :
  let calls := snd (outcome_state (initiator_transfers env)) in
  Forall (fun c => issues 2 c = false) calls \/
  exists r1 k r2 rest,
    r1 <> ERR /\
    Forall (fun c => issues 2 c = false)
      ([I_initialize_xfer true; I_transfer 1 r1] ++ pending 1 k
       ++ [I_check_xfer_state 1 DONE; I_sleep;
           I_prep_xfer_dlist true true; I_prep_xfer_dlist false true;
           I_make_prepped_xfer true]) /\
    Forall (fun c => issues 2 c = false) rest /\
    calls = ([I_initialize_xfer true; I_transfer 1 r1] ++ pending 1 k
             ++ [I_check_xfer_state 1 DONE; I_sleep;
                 I_prep_xfer_dlist true true; I_prep_xfer_dlist false true;
                 I_make_prepped_xfer true])
            ++ I_transfer 2 r2 :: rest.
Proof.
  cbn zeta. unfold initiator_transfers.
  destruct (xfer_handle_1_ok env); cbn [negb];
    [|left; cbn; repeat constructor].
  pose proof (run_transfer_shape 1 (transfers env) (checks env)
                [I_initialize_xfer true]) as H1.
  destruct (run_transfer 1 (transfers env) (checks env) _)
    as [[[[ok1 res1] st1] calls1]|[[[ok1 res1] st1] calls1]
       |[[[ok1 res1] st1] calls1]]; [| |destruct H1].
  2:{ left. cbn [outcome_state fst snd].
      destruct H1 as [->|(r & k & _ & ->)]; [repeat constructor|].
      cbn [app]. repeat constructor. apply pending_issues_nothing. }
  destruct ok1.
  2:{ left. cbn [outcome_state fst snd].
      destruct H1 as [->|(r & k & _ & ->)]; [repeat constructor|].
      cbn [app]. repeat constructor. apply Forall_app.
      split; [apply pending_issues_nothing | repeat constructor]. }
  destruct H1 as (r1 & k1 & Hr1 & ->).
  assert (Hk1 : Forall (fun c => issues 2 c = false)
                  ([I_initialize_xfer true]
                   ++ I_transfer 1 r1 :: pending 1 k1
                   ++ [I_check_xfer_state 1 DONE; I_sleep])).
  { cbn [app]. repeat constructor. apply Forall_app.
    split; [apply pending_issues_nothing | repeat constructor]. }
  destruct (local_prep_ok env), (remote_prep_ok env); cbn [andb negb];
    cbn [outcome_state fst snd];
    try (left; apply Forall_app; split; [exact Hk1 | repeat constructor]).
  destruct (xfer_handle_2_ok env); cbn [negb];
    cbn [outcome_state fst snd].
  2:{ left. apply Forall_app. split; [|repeat constructor].
      apply Forall_app. split; [exact Hk1 | repeat constructor]. }
  assert (Hpre : (([I_initialize_xfer true]
                   ++ I_transfer 1 r1 :: pending 1 k1
                   ++ [I_check_xfer_state 1 DONE; I_sleep])
                  ++ [I_prep_xfer_dlist true true;
                      I_prep_xfer_dlist false true])
                 ++ [I_make_prepped_xfer true]
                 = [I_initialize_xfer true; I_transfer 1 r1] ++ pending 1 k1
                   ++ [I_check_xfer_state 1 DONE; I_sleep;
                       I_prep_xfer_dlist true true;
                       I_prep_xfer_dlist false true;
                       I_make_prepped_xfer true]).
  { cbn [app]. rewrite <- !app_assoc. reflexivity. }
  rewrite Hpre.
  match goal with
  | |- context [run_transfer 2 res1 st1 ?cs] =>
      pose proof (run_transfer_shape 2 res1 st1 cs) as H2;
      assert (Hk3 : Forall (fun c0 => issues 2 c0 = false) cs)
        by (rewrite <- Hpre; apply Forall_app; split; [|repeat constructor];
            apply Forall_app; split; [exact Hk1 | repeat constructor]);
      destruct (run_transfer 2 res1 st1 cs)
        as [[[[ok2 res2] st2] calls2]|[[[ok2 res2] st2] calls2]
           |[[[ok2 res2] st2] calls2]]; [| |destruct H2]
  end.
  2:{ cbn [outcome_state fst snd].
      destruct H2 as [->|(r & k & _ & ->)]; [left; exact Hk3|].
      right. exists r1, k1, r, (pending 2 k).
      split; [exact Hr1|]. split; [exact Hk3|].
      split; [apply pending_issues_nothing | reflexivity]. }
  destruct ok2; cbn [outcome_state fst snd].
  - destruct H2 as (r2 & k2 & Hr2 & ->). right.
    eexists r1, k1, r2, _. split; [exact Hr1|]. split; [exact Hk3|].
    split; [|rewrite <- app_assoc; reflexivity].
    apply Forall_app. split; [|repeat constructor].
    apply Forall_app.
    split; [apply pending_issues_nothing | repeat constructor].
  - destruct H2 as [->|(r & k & _ & ->)].
    + right. exists r1, k1, ERR, []. split; [exact Hr1|].
      split; [exact Hk3|]. split; [constructor | reflexivity].
    + right. eexists r1, k1, r, _. split; [exact Hr1|].
      split; [exact Hk3|]. split; [|reflexivity].
      apply Forall_app.
      split; [apply pending_issues_nothing | repeat constructor].
Qed.

(** X29: the second transfer waits for the first.  Whatever the engine
    answers and however the run ends, everything before the call that
    issues the second transfer is: the first handle was created, the
    first transfer was issued and did not fail at once, every poll of it
    but the last said ["PROC"] and the last said ["DONE"], and then both
    descriptor lists and the second handle were made, successfully. *)
Theorem second_transfer_waits_for_the_first (env : initiator_env)
    (pre post : list initiator_call) (r : xfer_state) :
  snd (outcome_state (initiator_transfers env))
  = pre ++ I_transfer 2 r :: post ->
  exists r1 k,
    r1 <> ERR /\
    pre = [I_initialize_xfer true; I_transfer 1 r1] ++ pending 1 k
          ++ [I_check_xfer_state 1 DONE; I_sleep;
              I_prep_xfer_dlist true true; I_prep_xfer_dlist false true;
              I_make_prepped_xfer true].
Proof.
  intros Hsplit.
  destruct (initiator_calls_shape env)
    as [Hnone|(r1 & k & r2 & rest & Hr1 & Hpre & Hrest & Hcalls)];
    cbn zeta in *.
  - rewrite Hsplit in Hnone. apply Forall_app in Hnone.
    destruct Hnone as (_ & Hx). inversion Hx as [|? ? Hbad _].
    discriminate.
  - rewrite Hsplit in Hcalls.
    apply (split_at_the_one (fun c => issues 2 c = false)) in Hcalls;
      [|discriminate | exact Hpre | exact Hrest].
    destruct Hcalls as (-> & _). now exists r1, k.
Qed.

Lemma second_transfer_waits_for_the_first_witness :
  let env := {| xfer_handle_1_ok := true; local_prep_ok := true;
                remote_prep_ok := true; xfer_handle_2_ok := true;
                transfers := [PROC; PROC];
                checks := [PROC; PROC; DONE; PROC; ERR] |} in
  let calls := snd (outcome_state (initiator_transfers env)) in
  calls = take 11 calls ++ I_transfer 2 PROC :: drop 12 calls /\
  exists r1 k,
    r1 <> ERR /\
    take 11 calls
    = [I_initialize_xfer true; I_transfer 1 r1] ++ pending 1 k
      ++ [I_check_xfer_state 1 DONE; I_sleep;
          I_prep_xfer_dlist true true; I_prep_xfer_dlist false true;
          I_make_prepped_xfer true].
Proof.
  cbn zeta. split; [vm_compute; reflexivity|].
  apply (second_transfer_waits_for_the_first
           {| xfer_handle_1_ok := true; local_prep_ok := true;
              remote_prep_ok := true; xfer_handle_2_ok := true;
              transfers := [PROC; PROC];
              checks := [PROC; PROC; DONE; PROC; ERR] |}
           (take 11
              (snd (outcome_state
                      (initiator_transfers
                         {| xfer_handle_1_ok := true; local_prep_ok := true;
              remote_prep_ok := true; xfer_handle_2_ok := true;
              transfers := [PROC; PROC];
              checks := [PROC; PROC; DONE; PROC; ERR] |}))))
           (drop 12
              (snd (outcome_state
                      (initiator_transfers
                         {| xfer_handle_1_ok := true; local_prep_ok := true;
              remote_prep_ok := true; xfer_handle_2_ok := true;
              transfers := [PROC; PROC];
              checks := [PROC; PROC; DONE; PROC; ERR] |}))))
           PROC).
  vm_compute. reflexivity.
Defined.

End TwoProcMore.
